(** * Marketplace-Agent: session store, request parser, HTTP executor, orchestrator

    A shallow embedding of the Python sources
      - [utils/session_manager.py]   (Redis-backed session store),
      - [agents/tools/api_caller.py] (HTTP executor and natural-language parser),
      - [agents/main_agent.py]       (MultiAgent.arun),
      - [api/routes.py]              (the /chat and /api/call endpoints),
    followed by the properties established about them.

    Conventions.  Python [str] is Rocq [string]; a character is a code point
    below 256, and the character classes of [re] ([\s], [\w]) and of
    [str.strip], [str.upper] and [repr] are written out for that range; the
    two characters whose upper case lies beyond it are named where
    [Text.upper] is defined.  A Python [dict] used as a
    map is a [gmap]; a dict with a fixed set of optional keys is a record of
    options.  Exceptions are values of [exn]; a Python function that can
    raise, log or talk to Redis is a computation in the monad [Py]. *)

From Stdlib Require Import ZArith String Ascii List Bool Lia.
From stdpp Require Import base option list strings gmap.

Local Open Scope string_scope.
Local Open Scope Z_scope.

(** ** Python basics *)

Module Py.

(** The exception classes the sources raise or catch.  All of them derive
    from [Exception], so a bare [except Exception] handles each one. *)
Inductive exn : Type :=
| RedisError (msg : string)
| ValueError (msg : string)
| TypeError (msg : string)
| ClientError (msg : string)            (* aiohttp.ClientError and subclasses *)
| TimeoutError (msg : string)           (* asyncio.TimeoutError *)
| RuntimeError (msg : string)
| KeyError (msg : string)
| JSONDecodeError (msg : string)        (* json.JSONDecodeError *)
| RecursionError (msg : string)
| HTTPException (status_code : Z) (detail : string).

(** [str(e)] *)
Definition str_exn (e : exn) : string :=
  match e with
  | RedisError m | ValueError m | TypeError m | ClientError m
  | TimeoutError m | RuntimeError m | KeyError m
  | JSONDecodeError m | RecursionError m => m
  | HTTPException _ d => d
  end.

(** [isinstance(e, aiohttp.ClientError)] *)
Definition is_client_error (e : exn) : bool :=
  match e with ClientError _ => true | _ => false end.

(** [isinstance(e, json.JSONDecodeError)] *)
Definition is_json_decode_error (e : exn) : bool :=
  match e with JSONDecodeError _ => true | _ => false end.

Inductive result (A : Type) : Type :=
| Ok (a : A)
| Raise (e : exn).
Arguments Ok {A} a.
Arguments Raise {A} e.

(** JSON values, for the [Any]-typed payloads. *)
#[warnings="-register-all"]
Inductive json : Type :=
| JNull
| JBool (b : bool)
| JNum (z : Z)
| JStr (s : string)
| JArr (l : list json)
| JObj (kv : list (string * json)).

(** Truthiness of a [str]: [not s] holds exactly for the empty string. *)
Definition truthy_str (s : string) : bool :=
  match s with EmptyString => false | String _ _ => true end.

(** Truthiness of a list. *)
Definition truthy_list {A} (l : list A) : bool :=
  match l with [] => false | _ :: _ => true end.

(** [l[-n:]] for a positive literal [n]: the last [n] elements, the whole
    list when it is shorter. *)
Definition last_n {A} (n : nat) (l : list A) : list A :=
  drop (length l - n)%nat l.

(** [l[:-1]] *)
Definition drop_last {A} (l : list A) : list A :=
  take (length l - 1)%nat l.

(** A computation over a state [S] that returns or raises. *)
Definition M (S A : Type) : Type := S -> result A * S.

Definition ret {S A} (a : A) : M S A := fun w => (Ok a, w).

Definition raise {S A} (e : exn) : M S A := fun w => (Raise e, w).

Definition bind {S A B} (m : M S A) (k : A -> M S B) : M S B :=
  fun w =>
    match m w with
    | (Ok a, w') => k a w'
    | (Raise e, w') => (Raise e, w')
    end.

(** [try: body  except Exception as e: handler(e)] *)
Definition try_except {S A} (body : M S A) (handler : exn -> M S A) : M S A :=
  fun w =>
    match body w with
    | (Ok a, w') => (Ok a, w')
    | (Raise e, w') => handler e w'
    end.

(** [m] never raises: from every state it returns a value satisfying [Q]. *)
Definition returns {S A} (m : M S A) (Q : A -> Prop) : Prop :=
  forall w, exists a w', m w = (Ok a, w') /\ Q a.

End Py.

Export Py.

Declare Scope py_scope.
Delimit Scope py_scope with py.
Notation "'let*' x := m 'in' k" := (bind m (fun x => k))
  (at level 10, x name, m at level 100, k at level 200) : py_scope.
Local Open Scope py_scope.

(** ** The process state

    One record holds everything the handlers of a process can observe or
    change: the wall clock, the Redis server behind the shared connection,
    the log, and the traces of outbound HTTP requests and of model
    invocations. *)

Module State.

(** [api.models.Message]; [msg.dict()] and the reply dictionaries built by
    the orchestrator carry the same keys. *)
Record Message : Type := mkMessage {
  role : string;
  content : string;
  name : option string;
  tool_calls : option (list json);
  tool_call_id : option string
}.

(** An element of the [messages] argument: a plain dict or a pydantic
    [Message] object. *)
Inductive MessageArg : Type :=
| AsDict (d : Message)
| AsModel (m : Message).

(** [msg if isinstance(msg, dict) else msg.dict()] *)
Definition to_dict (a : MessageArg) : Message :=
  match a with AsDict d => d | AsModel m => m end.

(** The session dictionary.  Each key may be absent: [create_session] writes
    all four, the implicit creation in [update_chat_history] only
    ["chat_history"] and ["updated_at"].  Time stamps are clock readings. *)
Record Session : Type := mkSession {
  created_at : option Z;
  updated_at : option Z;
  data : option (gmap string json);
  chat_history : option (list Message)
}.

Definition set_updated_at (t : Z) (s : Session) : Session :=
  mkSession (created_at s) (Some t) (data s) (chat_history s).

Definition set_chat_history (h : list Message) (s : Session) : Session :=
  mkSession (created_at s) (updated_at s) (data s) (Some h).

Definition set_data (d : gmap string json) (s : Session) : Session :=
  mkSession (created_at s) (updated_at s) (Some d) (chat_history s).

(** Truthiness of the dictionary: false exactly when it has no key. *)
Definition truthy_session (s : Session) : bool :=
  match created_at s, updated_at s, data s, chat_history s with
  | None, None, None, None => false
  | _, _, _, _ => true
  end.

(** A request or response payload: what [data] and [json_data] may hold. *)
Inductive Payload : Type :=
| PDict (d : gmap string json)
| PList (l : list json)
| PStr (s : string)
| PBytes (b : string)
| PJson (j : json).

(** An outbound HTTP request as handed to [aiohttp]'s [session.request]:
    the method, the URL and the keyword arguments. *)
Record HttpRequest : Type := mkHttpRequest {
  rq_method : string;
  rq_url : string;
  rq_headers : gmap string string;
  rq_params : option (gmap string string);
  rq_json : option Payload;
  rq_data : option Payload;
  rq_timeout : Z;
  rq_allow_redirects : bool;
  rq_verify_ssl : bool
}.

(** The LangChain messages [arun] builds from the history. *)
Inductive LCMessage : Type :=
| HumanMessage (content : string)
| AIMessage (content : string)
| SystemMessage (content : string).

(** The argument of one call of [agent_executor.ainvoke]. *)
Record AgentInput : Type := mkAgentInput {
  ai_input : string;
  ai_chat_history : list LCMessage
}.

Record World : Type := mkWorld {
  clock : Z;
  (** key |-> (stored JSON document, deadline); a key is live while the
      clock is before its deadline *)
  redis_db : gmap string (Session * Z);
  (** outcome of the next Redis commands: [Some msg] makes the command
      raise [RedisError msg]; past the end of the script commands succeed *)
  redis_faults : list (option string);
  log : list string;
  http_sent : list HttpRequest;
  llm_invocations : list AgentInput
}.

Definition with_clock (t : Z) (w : World) : World :=
  mkWorld t (redis_db w) (redis_faults w) (log w) (http_sent w) (llm_invocations w).

Definition with_db (db : gmap string (Session * Z)) (w : World) : World :=
  mkWorld (clock w) db (redis_faults w) (log w) (http_sent w) (llm_invocations w).

Definition with_faults (f : list (option string)) (w : World) : World :=
  mkWorld (clock w) (redis_db w) f (log w) (http_sent w) (llm_invocations w).

Definition with_log (l : list string) (w : World) : World :=
  mkWorld (clock w) (redis_db w) (redis_faults w) l (http_sent w) (llm_invocations w).

Definition with_http_sent (l : list HttpRequest) (w : World) : World :=
  mkWorld (clock w) (redis_db w) (redis_faults w) (log w) l (llm_invocations w).

Definition with_llm_invocations (l : list AgentInput) (w : World) : World :=
  mkWorld (clock w) (redis_db w) (redis_faults w) (log w) (http_sent w) l.

Abbreviation Py := (M World).

(** [logger.error(msg)], [logger.warning(msg)], [logger.info(msg)] *)
Definition log_msg (msg : string) : Py unit :=
  fun w => (Ok tt, with_log (log w ++ [msg]) w).

(** [datetime.utcnow()] *)
Definition utcnow : Py Z := fun w => (Ok (clock w), w).

(** Time passing between two requests. *)
Definition sleep (d : Z) (w : World) : World := with_clock (clock w + d) w.

End State.

Export State.

(** ** The Redis connection *)

Module Redis.

(** The value of a key that has not expired. *)
Definition live (w : World) (key : string) : option Session :=
  match redis_db w !! key with
  | Some (v, deadline) => if clock w <? deadline then Some v else None
  | None => None
  end.

(** Every command first consults the fault script. *)
Definition command {A} (run : World -> A * World) : Py A :=
  fun w =>
    match redis_faults w with
    | Some msg :: rest => (Raise (RedisError msg), with_faults rest w)
    | None :: rest => let (a, w') := run (with_faults rest w) in (Ok a, w')
    | [] => let (a, w') := run w in (Ok a, w')
    end.

(** [redis.get(key)] *)
Definition get (key : string) : Py (option Session) :=
  command (fun w => (live w key, w)).

(** [redis.set(key, value, ex=seconds)]; the server rejects an expiry that
    is not positive. *)
Definition set (key : string) (value : Session) (ex : Z) : Py unit :=
  if ex <=? 0
  then bind (command (fun w => (tt, w)))
            (fun _ => raise (RedisError "invalid expire time in 'set' command"))
  else command (fun w => (tt, with_db (<[key := (value, clock w + ex)]> (redis_db w)) w)).

(** [redis.delete(key)]: the number of keys removed. *)
Definition delete (key : string) : Py Z :=
  command (fun w =>
    match live w key with
    | Some _ => (1, with_db (base.delete key (redis_db w)) w)
    | None => (0, with_db (base.delete key (redis_db w)) w)
    end).

End Redis.

(** ** utils/session_manager.py *)

Module SessionManager.

(** The fields of a [SessionManager] instance.  [redis] tells whether
    [_get_redis_connection] returned a client ([true]) or [None]. *)
Record t : Type := mk {
  redis : bool;
  session_expire_seconds : Z
}.

(** [f"session:{session_id}"] *)
Definition session_key (session_id : string) : string :=
  "session:" ++ session_id.

(** [create_session]; the value of [str(uuid.uuid4())] is the argument
    [fresh_id]. *)
Definition create_session (self : t) (fresh_id : string)
    (initial_data : option (gmap string json)) : Py string :=
  let session_id := fresh_id in
  let* now := utcnow in
  let session_data :=
    mkSession (Some now) (Some now)
      (Some (default ∅ initial_data))
      (Some []) in
  let* _ :=
    if redis self then
      try_except
        (Redis.set (session_key session_id) session_data (session_expire_seconds self))
        (fun e => log_msg ("Error creating session in Redis: " ++ str_exn e))
    else ret tt in
  ret session_id.

(** [get_session] *)
Definition get_session (self : t) (session_id : string) : Py (option Session) :=
  if negb (truthy_str session_id) then ret None
  else if redis self then
    try_except
      (let* session_data := Redis.get (session_key session_id) in
       match session_data with
       | Some session =>
           let* now := utcnow in
           let session := set_updated_at now session in
           let* _ := Redis.set (session_key session_id) session
                       (session_expire_seconds self) in
           ret (Some session)
       | None => ret None
       end)
      (fun e =>
         let* _ := log_msg ("Error getting session from Redis: " ++ str_exn e) in
         ret None)
  else ret None.

(** [update_session] *)
Definition update_session (self : t) (session_id : string)
    (d : gmap string json) : Py bool :=
  if negb (truthy_str session_id) || bool_decide (d = ∅) then ret false
  else if redis self then
    try_except
      (let* session := get_session self session_id in
       match session with
       | Some session =>
           if negb (truthy_session session) then ret false
           else
             match data session with
             | Some old =>
                 let session := set_data (d ∪ old) session in
                 let* now := utcnow in
                 let session := set_updated_at now session in
                 let* _ := Redis.set (session_key session_id) session
                             (session_expire_seconds self) in
                 ret true
             | None => raise (KeyError "'data'")
             end
       | None => ret false
       end)
      (fun e =>
         let* _ := log_msg ("Error updating session in Redis: " ++ str_exn e) in
         ret false)
  else ret false.

(** [delete_session] *)
Definition delete_session (self : t) (session_id : string) : Py bool :=
  if negb (truthy_str session_id) then ret false
  else if redis self then
    try_except
      (let* n := Redis.delete (session_key session_id) in
       ret (negb (n =? 0)))
      (fun e =>
         let* _ := log_msg ("Error deleting session from Redis: " ++ str_exn e) in
         ret false)
  else ret false.

(** [get_chat_history] *)
Definition get_chat_history (self : t) (session_id : string) : Py (list Message) :=
  let* session := get_session self session_id in
  match session with
  | Some session =>
      if truthy_session session then
        match chat_history session with
        | Some h => ret h
        | None => ret []
        end
      else ret []
  | None => ret []
  end.

Definition max_history : nat := 50.

(** [update_chat_history] *)
Definition update_chat_history (self : t) (session_id : string)
    (messages : list MessageArg) : Py bool :=
  if negb (truthy_str session_id) || negb (truthy_list messages) then ret false
  else if redis self then
    try_except
      (let* session := get_session self session_id in
       let session :=
         match session with
         | Some s => if truthy_session s then s
                     else mkSession None None None (Some [])
         | None => mkSession None None None (Some [])
         end in
       (* Ensure chat_history exists *)
       let session :=
         match chat_history session with
         | Some _ => session
         | None => set_chat_history [] session
         end in
       (* Add new messages to history *)
       let extended := (default [] (chat_history session) ++ map to_dict messages)%list in
       (* Keep only the last N messages *)
       let session := set_chat_history (last_n max_history extended) session in
       let* now := utcnow in
       let session := set_updated_at now session in
       let* _ := Redis.set (session_key session_id) session
                   (session_expire_seconds self) in
       ret true)
      (fun e =>
         let* _ := log_msg ("Error updating chat history in Redis: " ++ str_exn e) in
         ret false)
  else ret false.

(** [clear_chat_history] *)
Definition clear_chat_history (self : t) (session_id : string) : Py bool :=
  update_chat_history self session_id [].

(** [clear_session] *)
Definition clear_session (self : t) (session_id : string) : Py bool :=
  delete_session self session_id.

End SessionManager.

(** ** Text: the [str] methods the parser uses *)

Module Text.

Local Open Scope nat_scope.

Definition chars (s : string) : list ascii := list_ascii_of_string s.
Definition of_chars (l : list ascii) : string := string_of_list_ascii l.

Definition code (c : ascii) : nat := nat_of_ascii c.

(** [c.isspace()], which is also the class [\s] of [re] on [str] patterns:
    TAB..CR, FS..US, SPACE, NEL and NBSP. *)
Definition is_space (c : ascii) : bool :=
  let n := code c in
  ((9 <=? n) && (n <=? 13)) || ((28 <=? n) && (n <=? 32))
  || (n =? 133) || (n =? 160).

(** The class [\w] of [re] on [str] patterns: [c.isalnum()] or underscore. *)
Definition is_word (c : ascii) : bool :=
  let n := code c in
  ((48 <=? n) && (n <=? 57)) || ((65 <=? n) && (n <=? 90))
  || ((97 <=? n) && (n <=? 122)) || (n =? 95)
  || (n =? 170) || (n =? 178) || (n =? 179) || (n =? 181)
  || (n =? 185) || (n =? 186) || ((188 <=? n) && (n <=? 190))
  || ((192 <=? n) && (n <=? 214)) || ((216 <=? n) && (n <=? 246))
  || (248 <=? n).

(** [c.lower()] and [c.upper()] where the result is a single code point
    below 256. *)
Definition lower_char (c : ascii) : ascii :=
  let n := code c in
  if ((65 <=? n) && (n <=? 90))
     || ((192 <=? n) && (n <=? 222) && negb (n =? 215))
  then ascii_of_nat (n + 32) else c.

Definition upper_char (c : ascii) : ascii :=
  let n := code c in
  if ((97 <=? n) && (n <=? 122))
     || ((224 <=? n) && (n <=? 254) && negb (n =? 247))
  then ascii_of_nat (n - 32) else c.

Definition lower (s : string) : string := of_chars (map lower_char (chars s)).

(** [s.upper()].  The upper case of the sharp s (223) is the two letters
    [SS].  The upper cases of the micro sign (181) and of the y with
    diaeresis (255) are code points beyond 255, which a [string] cannot hold:
    [upper] is [str.upper] on the texts that [upper_in_range] admits, and
    leaves those two characters as they are elsewhere. *)
Definition upper_chars (c : ascii) : list ascii :=
  if code c =? 223 then ["S"%char; "S"%char] else [upper_char c].
Definition upper (s : string) : string := of_chars (flat_map upper_chars (chars s)).

Definition upper_in_range (s : string) : Prop :=
  Forall (fun c => code c <> 181 /\ code c <> 255) (chars s).

(** [c.isprintable()] *)
Definition is_printable (c : ascii) : bool :=
  let n := code c in
  ((32 <=? n) && (n <=? 126)) || ((161 <=? n) && negb (n =? 173)).

Definition hex_digit (n : nat) : ascii :=
  nth n (chars "0123456789abcdef") "0"%char.

Definition backslash : ascii := ascii_of_nat 92.
Definition single_quote : ascii := ascii_of_nat 39.
Definition double_quote : ascii := ascii_of_nat 34.

(** One character of [repr(s)] between the quotes. *)
Definition repr_char (quote c : ascii) : list ascii :=
  let n := code c in
  if Ascii.eqb c quote || Ascii.eqb c backslash then [backslash; c]
  else if n =? 9 then [backslash; "t"%char]
  else if n =? 10 then [backslash; "n"%char]
  else if n =? 13 then [backslash; "r"%char]
  else if is_printable c then [c]
  else [backslash; "x"%char; hex_digit (n / 16); hex_digit (n mod 16)].

(** [repr(s)]: single quotes, unless the text has a single quote and no
    double quote. *)
Definition repr (s : string) : string :=
  let l := chars s in
  let quote :=
    if bool_decide (single_quote ∈ l) && negb (bool_decide (double_quote ∈ l))
    then double_quote else single_quote in
  of_chars (quote :: flat_map (repr_char quote) l ++ [quote]).

Fixpoint drop_while (p : ascii -> bool) (l : list ascii) : list ascii :=
  match l with
  | c :: l' => if p c then drop_while p l' else l
  | [] => []
  end.

(** [s.strip()] *)
Definition lstrip_chars (l : list ascii) : list ascii := drop_while is_space l.
Definition rstrip_chars (l : list ascii) : list ascii :=
  rev (drop_while is_space (rev l)).
Definition strip (s : string) : string :=
  of_chars (rstrip_chars (lstrip_chars (chars s))).

(** [s[i:]] and [s[i:j]] for offsets within the string *)
Definition slice_from (i : nat) (s : string) : string :=
  of_chars (drop i (chars s)).
Definition slice (i j : nat) (s : string) : string :=
  of_chars (take (j - i) (drop i (chars s))).

(** [s.startswith(p)] *)
Definition startswith (p s : string) : bool := String.prefix p s.

(** [sub in s] *)
Fixpoint contains_chars (sub l : list ascii) : bool :=
  if bool_decide (take (length sub) l = sub) then true
  else match l with
       | [] => false
       | _ :: l' => contains_chars sub l'
       end.
Definition contains (sub s : string) : bool := contains_chars (chars sub) (chars s).

(** [s.split(sep, 1)] for a one-character separator: the part before the
    first separator, and the part after it when there is one. *)
Fixpoint split_once_chars (sep : ascii) (l : list ascii)
    : list ascii * option (list ascii) :=
  match l with
  | [] => ([], None)
  | c :: l' =>
      if Ascii.eqb c sep then ([], Some l')
      else let (a, b) := split_once_chars sep l' in (c :: a, b)
  end.
Definition split_once (sep : ascii) (s : string) : string * option string :=
  let (a, b) := split_once_chars sep (chars s) in (of_chars a, of_chars <$> b).

End Text.

(** ** A backtracking matcher for the patterns of api_caller.py

    The patterns only repeat single-character classes, so repetition is a
    primitive on a class.  Alternatives are tried left to right and
    repetitions are greedy, as in [re]; the matcher lists the ways a pattern
    can match at a position in the order [re] would try them, and the first
    one is the match. *)

Module Regex.

Local Open Scope nat_scope.

Inductive re : Type :=
| Eps
| Bol                              (* ^ *)
| Chr (p : ascii -> bool)          (* one character of a class *)
| Seq (a b : re)
| Alt (a b : re)                   (* a|b *)
| Rep (p : ascii -> bool)          (* [class]* *)
| Group (i : nat) (a : re).        (* capturing group number i *)

(** [a?] and [[class]+] *)
Definition Opt (a : re) : re := Alt a Eps.
Definition Plus (p : ascii -> bool) : re := Seq (Chr p) (Rep p).

(** A literal character, and one matched under [re.IGNORECASE]. *)
Definition is_char (c : ascii) : ascii -> bool := fun x => Ascii.eqb x c.
Definition is_char_ci (c : ascii) : ascii -> bool :=
  fun x => Ascii.eqb (Text.lower_char x) (Text.lower_char c).

Fixpoint Lit_chars (cls : ascii -> ascii -> bool) (l : list ascii) : re :=
  match l with
  | [] => Eps
  | [c] => Chr (cls c)
  | c :: l' => Seq (Chr (cls c)) (Lit_chars cls l')
  end.
Definition Lit (s : string) : re := Lit_chars is_char (Text.chars s).
Definition Lit_ci (s : string) : re := Lit_chars is_char_ci (Text.chars s).

(** Spans of the groups closed so far, most recent first. *)
Definition captures : Type := list (nat * (nat * nat)).

(** One way of matching: where it ends, the text left, the groups. *)
Definition outcome : Type := nat * list ascii * captures.

(** The ways [[class]*] matches at [pos], longest first. *)
Fixpoint rep_ends (p : ascii -> bool) (pos : nat) (s : list ascii)
    : list (nat * list ascii) :=
  match s with
  | c :: s' =>
      if p c then (rep_ends p (S pos) s' ++ [(pos, s)])%list else [(pos, s)]
  | [] => [(pos, [])]
  end.

Fixpoint matches (r : re) (pos : nat) (s : list ascii) (caps : captures)
    : list outcome :=
  match r with
  | Eps => [(pos, s, caps)]
  | Bol => if pos =? 0 then [(pos, s, caps)] else []
  | Chr p =>
      match s with
      | c :: s' => if p c then [(S pos, s', caps)] else []
      | [] => []
      end
  | Seq a b =>
      flat_map (fun o : outcome =>
                  let '(pos', s', caps') := o in matches b pos' s' caps')
               (matches a pos s caps)
  | Alt a b => (matches a pos s caps ++ matches b pos s caps)%list
  | Rep p => map (fun e : nat * list ascii => (fst e, snd e, caps)) (rep_ends p pos s)
  | Group i a =>
      map (fun o : outcome =>
             let '(pos', s', caps') := o in (pos', s', (i, (pos, pos')) :: caps'))
          (matches a pos s caps)
  end.

(** The words a pattern matches when it starts at offset [pos]: what the
    matcher is meant to enumerate. *)
Fixpoint lang (r : re) (pos : nat) (w : list ascii) : Prop :=
  match r with
  | Eps => w = []
  | Bol => w = [] /\ pos = 0
  | Chr p => exists c, w = [c] /\ p c = true
  | Seq a b =>
      exists w1 w2, w = (w1 ++ w2)%list /\ lang a pos w1 /\ lang b (pos + length w1) w2
  | Alt a b => lang a pos w \/ lang b pos w
  | Rep p => Forall (fun c => p c = true) w
  | Group _ a => lang a pos w
  end.

(** A match object. *)
Record Match : Type := mkMatch {
  m_start : nat;
  m_end : nat;
  m_groups : captures
}.

Definition first_match (r : re) (pos : nat) (s : list ascii) : option Match :=
  match matches r pos s [] with
  | (e, _, caps) :: _ => Some (mkMatch pos e caps)
  | [] => None
  end.

(** Try each start position from [pos] on, leftmost first. *)
Fixpoint search_from (r : re) (pos : nat) (s : list ascii) : option Match :=
  match first_match r pos s with
  | Some m => Some m
  | None =>
      match s with
      | [] => None
      | _ :: s' => search_from r (S pos) s'
      end
  end.

(** [re.search(pattern, text)] *)
Definition search (r : re) (text : string) : option Match :=
  search_from r 0 (Text.chars text).

(** [re.findall]'s scan: successive non-overlapping matches, left to right.
    [skip] counts the characters still covered by the previous match. *)
Fixpoint scan (r : re) (pos : nat) (s : list ascii) (skip : nat) : list Match :=
  match skip with
  | S k =>
      match s with
      | [] => []
      | _ :: s' => scan r (S pos) s' k
      end
  | 0 =>
      match first_match r pos s with
      | Some m =>
          m :: match s with
               | [] => []
               | _ :: s' => scan r (S pos) s' (m_end m - pos - 1)
               end
      | None =>
          match s with
          | [] => []
          | _ :: s' => scan r (S pos) s' 0
          end
      end
  end.

(** The span of group [i]. *)
Definition group_span (m : Match) (i : nat) : option (nat * nat) :=
  snd <$> List.find (fun g => fst g =? i) (m_groups m).

(** [m.group(i)] on the searched text.  Every group of the patterns below
    lies on every path through its pattern, so it is always set. *)
Definition group (text : string) (m : Match) (i : nat) : string :=
  match group_span m i with
  | Some (a, b) => Text.slice a b text
  | None => ""
  end.

(** [m.group(0)] *)
Definition group0 (text : string) (m : Match) : string :=
  Text.slice (m_start m) (m_end m) text.

(** [re.findall] for a pattern with two groups: the pairs of group texts. *)
Definition findall2 (r : re) (text : string) : list (string * string) :=
  map (fun m => (group text m 1, group text m 2)) (scan r 0 (Text.chars text) 0).

End Regex.

(** ** agents/tools/api_caller.py *)

Module APICaller.

(** [HTTPMethod]: the values of the enumeration. *)
Definition http_methods : list string :=
  ["GET"; "POST"; "PUT"; "DELETE"; "PATCH"; "HEAD"; "OPTIONS"].

(** [HTTPMethod(value)]: the member with that value; [Enum] names a value
    that has none by its [repr]. *)
Definition HTTPMethod (value : string) : result string :=
  if bool_decide (value ∈ http_methods) then Ok value
  else Raise (ValueError (Text.repr value ++ " is not a valid HTTPMethod")).

(** What [aiohttp] hands back for a request that went through.  Reading the
    body as JSON or as text can itself fail. *)
Record HttpResponse : Type := mkHttpResponse {
  resp_status : Z;
  resp_headers : gmap string string;
  (** [response.headers.get('Content-Type')], a case-insensitive lookup *)
  resp_content_type : option string;
  resp_url : string;
  resp_json : result json;
  resp_text : result string
}.

(** The dictionary [call] returns; the error replies carry only some keys. *)
Record Envelope : Type := mkEnvelope {
  env_status : option Z;
  env_headers : option (gmap string string);
  env_url : option string;
  env_content_type : option string;
  env_is_success : option bool;
  env_data : option Payload;
  env_error : option string
}.

(** The parameters of [call] after binding, defaults filled in. *)
Record CallArgs : Type := mkCallArgs {
  ca_url : string;
  ca_method : string;
  ca_headers : option (gmap string string);
  ca_params : option (gmap string string);
  ca_data : option Payload;
  ca_json_data : option Payload;
  ca_auth : option (gmap string string);
  ca_timeout : Z;
  ca_allow_redirects : bool;
  ca_verify_ssl : bool
}.

(** The dictionary [_parse_natural_language_request] returns; the key
    ['json'] is only set when a JSON body was found. *)
Record ParsedRequest : Type := mkParsedRequest {
  pr_method : string;
  pr_url : string;
  pr_headers : gmap string string;
  pr_params : gmap string string;
  pr_data : option (gmap string string);
  pr_json : option json;
  pr_auth : option (gmap string string);
  pr_timeout : Z;
  pr_verify_ssl : bool
}.

(** [dict(pairs)]: a later pair replaces an earlier one with the same key. *)
Definition dict_of_pairs (l : list (string * string)) : gmap string string :=
  list_to_map (rev l).

(** *** The patterns *)

Import Regex.

Definition or_class (p q : ascii -> bool) : ascii -> bool := fun c => p c || q c.
Definition not_class (p : ascii -> bool) : ascii -> bool := fun c => negb (p c).
Definition any_char : ascii -> bool := fun _ => true.

(** [^(GET|POST|PUT|DELETE|PATCH|HEAD|OPTIONS)\s+], IGNORECASE *)
Definition method_re : re :=
  Seq Bol
    (Seq (Group 1
            (Alt (Lit_ci "GET") (Alt (Lit_ci "POST") (Alt (Lit_ci "PUT")
            (Alt (Lit_ci "DELETE") (Alt (Lit_ci "PATCH") (Alt (Lit_ci "HEAD")
                 (Lit_ci "OPTIONS"))))))))
         (Plus Text.is_space)).

(** [[^\s\?&#]] *)
Definition url_char : ascii -> bool :=
  not_class (or_class Text.is_space
            (or_class (is_char "?") (or_class (is_char "&") (is_char "#")))).

(** [(https?://[^\s\?&#]+|www\.[^\s\?&#]+)], IGNORECASE *)
Definition url_re : re :=
  Group 1
    (Alt (Seq (Lit_ci "http") (Seq (Opt (Lit_ci "s")) (Seq (Lit_ci "://") (Plus url_char))))
         (Seq (Lit_ci "www") (Seq (Lit_ci ".") (Plus url_char)))).

(** [[\s:]] and [[^\s,;]] and [[\s,;]] *)
Definition space_colon : ascii -> bool := or_class Text.is_space (is_char ":").
Definition separator : ascii -> bool :=
  or_class Text.is_space (or_class (is_char ",") (is_char ";")).
Definition value_char : ascii -> bool := not_class separator.

(** [(?:api[_-]?key|token)[\s:]+([\w-]+)], IGNORECASE *)
Definition api_key_re : re :=
  Seq (Alt (Seq (Lit_ci "api")
                (Seq (Opt (Chr (or_class (is_char "_") (is_char "-")))) (Lit_ci "key")))
           (Lit_ci "token"))
      (Seq (Plus space_colon)
           (Group 1 (Plus (or_class Text.is_word (is_char "-"))))).

(** [user(?:name)?[\s:]+([^\s,;]+)[\s,;]+pass(?:word)?[\s:]+([^\s,;]+)],
    IGNORECASE *)
Definition auth_re : re :=
  Seq (Lit_ci "user") (Seq (Opt (Lit_ci "name")) (Seq (Plus space_colon)
  (Seq (Group 1 (Plus value_char)) (Seq (Plus separator)
  (Seq (Lit_ci "pass") (Seq (Opt (Lit_ci "word")) (Seq (Plus space_colon)
       (Group 2 (Plus value_char))))))))).

(** [\{.*\}], DOTALL *)
Definition json_re : re :=
  Seq (Lit "{") (Seq (Rep any_char) (Lit "}")).

(** [(\w+)=([^\s,;]+)] *)
Definition form_re : re :=
  Seq (Group 1 (Plus Text.is_word)) (Seq (Lit "=") (Group 2 (Plus value_char))).

Section Collaborators.

(** The interpreter, and the library and network functions the class calls. *)
(** Whether the interpreter is Python 3.11 or later *)
Variable python_3_11 : bool.
(** [session.request] *)
Variable transport : HttpRequest -> result HttpResponse.
(** [base64.b64encode], on text *)
Variable b64encode : string -> string.
(** [json.loads] on a [str]: the value, or the exception it raises, which
    is [JSONDecodeError] for a text that is not JSON and [RecursionError]
    for one nested too deep *)
Variable json_loads : string -> result json.
(** [urllib.parse.parse_qsl] *)
Variable parse_qsl : string -> list (string * string).

Definition default_headers : gmap string string :=
  {[ "User-Agent" := "MultiAgent-APICaller/1.0";
     "Accept" := "application/json";
     "Content-Type" := "application/json" ]}.

(** [_prepare_auth_headers] *)
Definition prepare_auth_headers (auth_config : gmap string string)
    : gmap string string :=
  let auth_type := Text.lower (default "" (auth_config !! "type")) in
  if String.eqb auth_type "basic" then
    match auth_config !! "username", auth_config !! "password" with
    | Some username, Some password =>
        let credentials := username ++ ":" ++ password in
        {[ "Authorization" := "Basic " ++ b64encode credentials ]}
    | _, _ => ∅
    end
  else if String.eqb auth_type "bearer" then
    match auth_config !! "token" with
    | Some token => {[ "Authorization" := "Bearer " ++ token ]}
    | None => ∅
    end
  else if String.eqb auth_type "api_key" then
    match auth_config !! "key", auth_config !! "value" with
    | Some key, Some value => {[ key := value ]}
    | _, _ => ∅
    end
  else if String.eqb auth_type "oauth2" then
    match auth_config !! "token" with
    | Some token => {[ "Authorization" := "Bearer " ++ token ]}
    | None => ∅
    end
  else ∅.

(** [f"{method}"] for a member of [HTTPMethod]: up to Python 3.10 the
    format of an enumeration with a mixed-in [str] is that of its value,
    from Python 3.11 on it is the class name, a dot and the member's name,
    which for every member here is its value. *)
Definition format_method (method : string) : string :=
  if python_3_11 then "HTTPMethod." ++ method else method.

(** [session.request(...)]: the request goes out, then succeeds or raises. *)
Definition send (rq : HttpRequest) : Py HttpResponse :=
  fun w => (transport rq, with_http_sent (http_sent w ++ [rq])%list w).

Definition lift {A} (r : result A) : Py A := fun w => (r, w).

(** [isinstance(data, (dict, list))] *)
Definition is_dict_or_list (p : Payload) : bool :=
  match p with PDict _ | PList _ => true | _ => false end.

Definition error_envelope (msg : string) : Envelope :=
  mkEnvelope (Some 0%Z) None None None (Some false) None (Some msg).

(** [call], with its parameters already bound. *)
Definition call (a : CallArgs) : Py Envelope :=
  try_except
    ((* Normalize method *)
     let* method := lift (HTTPMethod (Text.upper (ca_method a))) in
     (* Prepare headers *)
     let request_headers := default_headers in
     let request_headers :=
       match ca_headers a with
       | Some h => h ∪ request_headers
       | None => request_headers
       end in
     (* Handle authentication *)
     let request_headers :=
       match ca_auth a with
       | Some au =>
           if decide (au = ∅) then request_headers
           else prepare_auth_headers au ∪ request_headers
       | None => request_headers
       end in
     (* Add request body based on content type *)
     let '(kw_json, kw_data) :=
       match ca_data a with
       | Some d =>
           if is_dict_or_list d
              && Text.contains "application/json"
                   (default "" (request_headers !! "Content-Type"))
           then (Some d, None) else (None, Some d)
       | None =>
           match ca_json_data a with
           | Some j => (Some j, None)
           | None => (None, None)
           end
       end in
     let* _ := log_msg ("Making " ++ format_method method ++ " request to "
                        ++ ca_url a) in
     (* Make the actual request *)
     let* response :=
       send (mkHttpRequest method (ca_url a) request_headers (ca_params a)
               kw_json kw_data (ca_timeout a) (ca_allow_redirects a)
               (ca_verify_ssl a)) in
     let content_type := Text.lower (default "" (resp_content_type response)) in
     let is_json := Text.contains "application/json" content_type in
     let envelope (d : Payload) :=
       mkEnvelope (Some (resp_status response)) (Some (resp_headers response))
         (Some (resp_url response)) (Some content_type)
         (Some ((200 <=? resp_status response)%Z && (resp_status response <? 300)%Z))
         (Some d) None in
     if is_json then
       try_except
         (let* j := lift (resp_json response) in ret (envelope (PJson j)))
         (fun e =>
            let* _ := log_msg ("Failed to parse JSON response: " ++ str_exn e) in
            let* t := lift (resp_text response) in
            ret (envelope (PStr t)))
     else
       let* t := lift (resp_text response) in
       ret (envelope (PStr t)))
    (fun e =>
       if is_client_error e then
         let* _ := log_msg ("API request failed: " ++ str_exn e) in
         ret (error_envelope ("API request failed: " ++ str_exn e))
       else
         let* _ := log_msg ("Unexpected error during API request: " ++ str_exn e) in
         ret (error_envelope ("Unexpected error: " ++ str_exn e))).

(** The names of [call]'s parameters. *)
Definition call_parameters : list string :=
  ["url"; "method"; "headers"; "params"; "data"; "json_data"; "auth";
   "timeout"; "allow_redirects"; "verify_ssl"].

(** A call [caller.call(k1=..., k2=...)] written with the keywords
    [keywords]: Python binds them to the parameters before the body runs and
    raises [TypeError] for a keyword that names no parameter.  [a] holds the
    values of the keywords that do. *)
Definition call_with_keywords (keywords : list string) (a : CallArgs) : Py Envelope :=
  match List.find (fun k => negb (bool_decide (k ∈ call_parameters))) keywords with
  | Some k =>
      raise (TypeError ("APICaller.call() got an unexpected keyword argument '"
                        ++ k ++ "'"))
  | None => call a
  end.

(** [_parse_natural_language_request]; the [context] argument is unused. *)
Definition parse_natural_language_request (request : string) : result ParsedRequest :=
  (* Extract HTTP method *)
  let method_match := search method_re request in
  let '(method, request) :=
    match method_match with
    | Some m => (Text.upper (group request m 1),
                 Text.strip (Text.slice_from (m_end m) request))
    | None => ("GET", request)
    end in
  (* Extract URL *)
  match search url_re request with
  | None => Raise (ValueError "Could not find a valid URL in the request")
  | Some url_match =>
      let url := group request url_match 1 in
      let url :=
        if Text.startswith "http://" url || Text.startswith "https://" url
        then url else "https://" ++ url in
      (* Extract query parameters *)
      let '(url, params) :=
        if Text.contains "?" url then
          let url_parts := Text.split_once "?" url in
          let query_string := fst (Text.split_once "#" (default "" (snd url_parts))) in
          (fst url_parts, dict_of_pairs (parse_qsl query_string))
        else (url, ∅) in
      (* Extract headers, auth, and body from the remaining text *)
      let remaining_text := Text.strip (Text.slice_from (m_end url_match) request) in
      (* Look for API key in the text *)
      let auth :=
        match search api_key_re remaining_text with
        | Some m =>
            Some ({[ "type" := "api_key"; "key" := "Authorization";
                     "value" := "Bearer " ++ group remaining_text m 1 ]}
                  : gmap string string)
        | None => None
        end in
      (* Look for basic auth *)
      let auth :=
        match search auth_re remaining_text with
        | Some m =>
            Some ({[ "type" := "basic";
                     "username" := group remaining_text m 1;
                     "password" := group remaining_text m 2 ]}
                  : gmap string string)
        | None => auth
        end in
      (* Look for JSON body: only [JSONDecodeError] is caught *)
      let json_outcome : result (option json) :=
        match search json_re remaining_text with
        | Some m =>
            match json_loads (group0 remaining_text m) with
            | Ok j => Ok (Some j)
            | Raise e => if is_json_decode_error e then Ok None else Raise e
            end
        | None => Ok None
        end in
      match json_outcome with
      | Raise e => Raise e
      | Ok json_body =>
          (* Look for form data *)
          let form_match := findall2 form_re remaining_text in
          let data :=
            if truthy_list form_match && negb (bool_decide (is_Some json_body))
            then Some (dict_of_pairs form_match) else None in
          Ok (mkParsedRequest method url ∅ params data json_body auth 30%Z true)
      end
  end.

(** [call_from_natural_language] *)
Definition call_from_natural_language (request : string) : Py Envelope :=
  try_except
    (let* parsed := lift (parse_natural_language_request request) in
     call (mkCallArgs (pr_url parsed) (pr_method parsed)
             (Some (pr_headers parsed)) (Some (pr_params parsed))
             ((fun d => PDict (JStr <$> d)) <$> pr_data parsed)
             (PJson <$> pr_json parsed)
             (pr_auth parsed) (pr_timeout parsed) true (pr_verify_ssl parsed)))
    (fun e =>
       let* _ := log_msg ("Failed to process natural language request: " ++ str_exn e) in
       ret (mkEnvelope None None None None (Some false) None
              (Some ("Failed to process request: " ++ str_exn e)))).

End Collaborators.

End APICaller.

(** ** agents/main_agent.py *)

Module MultiAgent.

(** [MessageRole] is a [str] enumeration: a role compares equal to its value. *)
Definition USER : string := "user".
Definition ASSISTANT : string := "assistant".
Definition SYSTEM : string := "system".
Definition TOOL : string := "tool".

(** One element of [result['intermediate_steps']]: an (action, observation)
    pair whose action names a tool, or anything else. *)
Inductive Step : Type :=
| ToolStep (tool : string) (tool_input : json) (observation : json)
| OtherStep.

(** What [agent_executor.ainvoke] returns: a dict whose keys ['output'] and
    ['intermediate_steps'] may be absent. *)
Record AgentResult : Type := mkAgentResult {
  output : option string;
  intermediate_steps : option (list Step)
}.

Record ToolCall : Type := mkToolCall {
  tool_name : string;
  tool_input : json;
  tool_result : json
}.

(** The dictionary [arun] returns. *)
Record AgentReply : Type := mkAgentReply {
  message : Message;
  reply_tool_calls : option (list ToolCall)
}.

Definition reply_message (text : string) : Message :=
  mkMessage ASSISTANT text None None None.

Definition no_input_text : string :=
  "I didn't receive any user message to process.".

(** The body of the [for msg in messages] loop: the state is
    [(chat_history, last_user_message)]. *)
Definition convert_step (st : list LCMessage * option string) (msg : MessageArg)
    : list LCMessage * option string :=
  let '(chat_history, last_user_message) := st in
  let role := role (to_dict msg) in
  let content := content (to_dict msg) in
  if String.eqb role USER then
    ((chat_history ++ [HumanMessage content])%list, Some content)
  else if String.eqb role ASSISTANT then
    ((chat_history ++ [AIMessage content])%list, last_user_message)
  else if String.eqb role SYSTEM then
    ((chat_history ++ [SystemMessage content])%list, last_user_message)
  else (chat_history, last_user_message).

Definition convert (messages : list MessageArg) : list LCMessage * option string :=
  fold_left convert_step messages ([], None).

(** [not last_user_message] *)
Definition falsy_opt_str (o : option string) : bool :=
  match o with
  | Some s => negb (truthy_str s)
  | None => true
  end.

(** The tool calls found in the intermediate steps. *)
Definition collect_tool_calls (steps : list Step) : list ToolCall :=
  flat_map (fun st =>
              match st with
              | ToolStep t i o => [mkToolCall t i o]
              | OtherStep => []
              end) steps.

Section Executor.

(** The agent executor: the model and its tools behind [ainvoke]. *)
Variable ainvoke : AgentInput -> result AgentResult.

Definition invoke (i : AgentInput) : Py AgentResult :=
  fun w => (ainvoke i, with_llm_invocations (llm_invocations w ++ [i])%list w).

(** [MultiAgent.arun] *)
Definition arun (messages : list MessageArg) : Py AgentReply :=
  try_except
    (let '(chat_history, last_user_message) := convert messages in
     if falsy_opt_str last_user_message then
       ret (mkAgentReply (reply_message no_input_text) None)
     else
       (* Run the agent *)
       let* result :=
         invoke (mkAgentInput (default "" last_user_message)
                   (if (1 <? length chat_history)%nat
                    then drop_last chat_history else [])) in
       (* Process the result *)
       let response_content :=
         default "I apologize, but I encountered an error processing your request."
                 (output result) in
       (* Check for tool calls in the intermediate steps *)
       let tool_calls :=
         match intermediate_steps result with
         | Some steps => collect_tool_calls steps
         | None => []
         end in
       ret (mkAgentReply (reply_message response_content)
              (if truthy_list tool_calls then Some tool_calls else None)))
    (fun e =>
       let* _ := log_msg ("Error in agent execution: " ++ str_exn e) in
       ret (mkAgentReply
              (reply_message ("I encountered an error while processing your request: "
                              ++ str_exn e))
              None)).

End Executor.

End MultiAgent.

(** ** api/routes.py *)

Module Routes.

(** [models.ChatRequest]; the sampling temperature, a float handed to the
    executor untouched, is left out. *)
Record ChatRequest : Type := mkChatRequest {
  cr_messages : list Message;
  cr_session_id : option string;
  cr_stream : bool;
  cr_max_tokens : option Z
}.

(** The dictionary the chat handler returns. *)
Record ChatResponse : Type := mkChatResponse {
  resp_message : Message;
  resp_session_id : string;
  resp_tool_calls : option (list MultiAgent.ToolCall)
}.

(** [models.APICallRequest] *)
Record APICallRequest : Type := mkAPICallRequest {
  acr_url : string;
  acr_method : string;
  acr_headers : option (gmap string string);
  acr_params : option (gmap string string);
  acr_body : option Payload;
  acr_auth : option (gmap string string)
}.

Section Handlers.

Variable session_manager : SessionManager.t.
Variable ainvoke : AgentInput -> result MultiAgent.AgentResult.
Variable python_3_11 : bool.
Variable transport : HttpRequest -> result APICaller.HttpResponse.
Variable b64encode : string -> string.

(** [chat]; [fresh_id] is the identifier [create_session] would draw. *)
Definition chat (fresh_id : string) (request : ChatRequest) : Py ChatResponse :=
  try_except
    ((* Get or create session *)
     let* session_id :=
       match cr_session_id request with
       | Some s =>
           if truthy_str s then ret s
           else SessionManager.create_session session_manager fresh_id None
       | None => SessionManager.create_session session_manager fresh_id None
       end in
     (* Get chat history from session *)
     let* chat_history := SessionManager.get_chat_history session_manager session_id in
     (* Add new messages to history *)
     let new_msgs := cr_messages request in
     let chat_history := (chat_history ++ new_msgs)%list in
     (* Get agent response with full history *)
     let* response := MultiAgent.arun ainvoke (map AsDict chat_history) in
     (* Persist updated history (including agent reply) *)
     let chat_history := (chat_history ++ [MultiAgent.message response])%list in
     let* _ := SessionManager.update_chat_history session_manager session_id
                 (map AsDict chat_history) in
     ret (mkChatResponse (MultiAgent.message response) session_id
            (MultiAgent.reply_tool_calls response)))
    (fun e =>
       let* _ := log_msg ("Error in chat endpoint: " ++ str_exn e) in
       raise (HTTPException 500 (str_exn e))).

(** [call_api]: the handler calls [caller.call] with the keywords [url],
    [method], [headers], [params], [body] and [auth]. *)
Definition call_api (request : APICallRequest) : Py APICaller.Envelope :=
  try_except
    (APICaller.call_with_keywords python_3_11 transport b64encode
       ["url"; "method"; "headers"; "params"; "body"; "auth"]
       (APICaller.mkCallArgs (acr_url request) (acr_method request)
          (Some (default ∅ (acr_headers request)))
          (Some (default ∅ (acr_params request)))
          None None
          (acr_auth request) 30 true true))
    (fun e =>
       let* _ := log_msg ("Error making API call: " ++ str_exn e) in
       raise (HTTPException 500 (str_exn e))).

(** [clear_session], the handler of [/sessions/{session_id}/clear] *)
Definition clear_session_route (session_id : string) : Py string :=
  try_except
    (let* _ := SessionManager.clear_session session_manager session_id in
     ret ("Session " ++ session_id ++ " cleared"))
    (fun e =>
       let* _ := log_msg ("Error clearing session " ++ session_id ++ ": " ++ str_exn e) in
       raise (HTTPException 500 (str_exn e))).

End Handlers.

End Routes.

(** ** Vocabulary of the properties *)

Module Scenario.

Import SessionManager.

(** The public operations of a [SessionManager]. *)
Inductive op : Type :=
| CreateSession (fresh_id : string) (initial_data : option (gmap string json))
| GetSession (session_id : string)
| UpdateSession (session_id : string) (d : gmap string json)
| DeleteSession (session_id : string)
| GetChatHistory (session_id : string)
| UpdateChatHistory (session_id : string) (messages : list MessageArg)
| ClearChatHistory (session_id : string)
| ClearSession (session_id : string).

(** The state an operation leaves behind. *)
Definition run_op (self : t) (o : op) (w : World) : World :=
  match o with
  | CreateSession fresh_id d => snd (create_session self fresh_id d w)
  | GetSession sid => snd (get_session self sid w)
  | UpdateSession sid d => snd (update_session self sid d w)
  | DeleteSession sid => snd (delete_session self sid w)
  | GetChatHistory sid => snd (get_chat_history self sid w)
  | UpdateChatHistory sid msgs => snd (update_chat_history self sid msgs w)
  | ClearChatHistory sid => snd (clear_chat_history self sid w)
  | ClearSession sid => snd (clear_session self sid w)
  end.

Definition is_delete (o : op) : bool :=
  match o with
  | DeleteSession _ | ClearSession _ => true
  | _ => false
  end.

(** The history Redis holds for a session, read without touching it. *)
Definition stored_history (w : World) (session_id : string) : list Message :=
  match Redis.live w (session_key session_id) with
  | Some s => default [] (chat_history s)
  | None => []
  end.

(** A client that calls [update_chat_history] repeatedly, waiting [d]
    seconds before each call.  The result collects what the calls returned. *)
Fixpoint run_updates (self : t) (session_id : string)
    (calls : list (Z * list MessageArg)) (w : World) : list (result bool) * World :=
  match calls with
  | [] => ([], w)
  | (d, messages) :: rest =>
      let (r, w1) := update_chat_history self session_id messages (sleep d w) in
      let (rs, w2) := run_updates self session_id rest w1 in
      (r :: rs, w2)
  end.

(** Everything appended by a sequence of calls, oldest first. *)
Definition appended (calls : list (Z * list MessageArg)) : list Message :=
  concat (map (fun c => map to_dict (snd c)) calls).

(** [stored] is what is left of [appended] when only the most recent [n]
    entries are kept: the same entries in the same order, the oldest ones
    dropped, and none dropped while there are at most [n]. *)
Definition keeps_most_recent (n : nat) (appended stored : list Message) : Prop :=
  exists dropped,
    appended = (dropped ++ stored)%list
    /\ length stored = Nat.min n (length appended).

(** The value of the local variable [remaining_text] of
    [_parse_natural_language_request]: what follows the URL, stripped.
    [None] when the request has no URL. *)
Definition remaining_text (request : string) : option string :=
  let request :=
    match Regex.search APICaller.method_re request with
    | Some m => Text.strip (Text.slice_from (Regex.m_end m) request)
    | None => request
    end in
  match Regex.search APICaller.url_re request with
  | Some url_match => Some (Text.strip (Text.slice_from (Regex.m_end url_match) request))
  | None => None
  end.

(** The exception that escapes the parser's search for a JSON body in
    [remaining]: what [json.loads] raises on the text from the first [{] to
    the last [}], unless that is a [JSONDecodeError], which the parser
    catches. *)
Definition json_failure (json_loads : string -> result json) (remaining : string)
    : option exn :=
  match Regex.search APICaller.json_re remaining with
  | Some m =>
      match json_loads (Regex.group0 remaining m) with
      | Raise e => if is_json_decode_error e then None else Some e
      | Ok _ => None
      end
  | None => None
  end.

(** A text that [repr] puts between single quotes as it is: printable
    characters, none of them a single quote or a backslash. *)
Definition plain_text (s : string) : Prop :=
  Forall (fun c => Text.is_printable c = true
                   /\ c <> Text.single_quote /\ c <> Text.backslash)
         (Text.chars s).

(** The request starts with the method [keyword], written in any letter
    case and followed by a white space character. *)
Definition starts_with_method (request keyword : string) : Prop :=
  exists (word : list ascii) (c : ascii) (rest : list ascii),
    Text.chars request = (word ++ c :: rest)%list
    /\ map Text.lower_char word = map Text.lower_char (Text.chars keyword)
    /\ Text.is_space c = true.

(** No Redis command is scripted to fail. *)
Definition quiet (w : World) : Prop :=
  Forall (fun f => f = None) (redis_faults w).

(** One of the next [n] Redis commands is scripted to raise. *)
Definition fault_within (n : nat) (w : World) : Prop :=
  exists msg, Some msg ∈ take n (redis_faults w).

(** The error the next Redis command is scripted to raise, if any. *)
Definition next_fault (w : World) : option string :=
  match redis_faults w with
  | Some msg :: _ => Some msg
  | _ => None
  end.

(** Each call of a run comes less than the expiry period [ttl] after the
    previous one and appends at least one message. *)
Definition well_timed (ttl : Z) (calls : list (Z * list MessageArg)) : Prop :=
  Forall (fun c => 0 <= fst c < ttl /\ snd c <> []) calls.

(** The prefixes a URL token starts with, compared without case. *)
Definition url_prefixes : list (list ascii) :=
  [Text.chars "http://"; Text.chars "https://"; Text.chars "www."].

(** A character that can continue a URL token: neither white space nor
    [?], [&] or [#]. *)
Definition url_token_char (c : ascii) : Prop :=
  Text.is_space c = false /\ c <> "?"%char /\ c <> "&"%char /\ c <> "#"%char.

(** The text contains a URL-shaped token: one of the prefixes followed by at
    least one such character. *)
Definition has_url_token (text : string) : Prop :=
  exists (before prefix : list ascii) (c : ascii) (after : list ascii),
    Text.chars text = (before ++ prefix ++ c :: after)%list
    /\ map Text.lower_char prefix ∈ url_prefixes
    /\ url_token_char c.

(** A transport-level failure: a connection error or a timeout. *)
Definition transport_failure (e : exn) : Prop :=
  match e with
  | ClientError _ | TimeoutError _ => True
  | _ => False
  end.

(** The keys of the store survive the computation [m]. *)
Definition keeps_keys {A} (m : Py A) : Prop :=
  forall w, dom (redis_db w) ⊆ dom (redis_db (snd (m w))).

End Scenario.

(** ** Sample inputs *)

Module Sample.

Definition manager : SessionManager.t := SessionManager.mk true 86400.

(** A [json.loads] for texts that hold no JSON document. *)
Definition no_json : string -> result json :=
  fun _ => Raise (JSONDecodeError "Expecting value: line 1 column 1 (char 0)").

Definition empty_world : World := mkWorld 1000 ∅ [] [] [] [].

Definition hello : Message := mkMessage "user" "hello" None None None.
Definition hi : Message := mkMessage "assistant" "hi, how can I help?" None None None.
Definition thanks : Message := mkMessage "user" "thanks" None None None.

(** Two appends, the second ten seconds after the first. *)
Definition two_calls : list (Z * list MessageArg) :=
  [(0, [AsDict hello]); (10, [AsModel hi; AsDict thanks])].

(** Two appends a full expiry period apart. *)
Definition a_day_apart : list (Z * list MessageArg) :=
  [(0, [AsDict hello]); (86400, [AsDict thanks])].

(** Sixty numbered messages, appended thirty at a time. *)
Definition numbered (n : nat) : Message :=
  mkMessage "user" (String (ascii_of_nat (48 + n)) "") None None None.

Definition sixty_in_two_calls : list (Z * list MessageArg) :=
  [(0, map (fun n => AsDict (numbered n)) (seq 0 30));
   (5, map (fun n => AsModel (numbered n)) (seq 30 30))].

(** A store that holds one session with a two-message history. *)
Definition stored_session : Session :=
  mkSession (Some 900) (Some 900) (Some ∅) (Some [hello; hi]).

Definition busy_world : World :=
  mkWorld 1000 {[ "session:abc" := (stored_session, 87300) ]} [] [] [] [].

(** The same store with the next Redis command scripted to fail. *)
Definition failing_world : World :=
  mkWorld 1000 {[ "session:abc" := (stored_session, 87300) ]}
    [Some "Connection refused"] [] [] [].

(** The store with the session, where the read goes through and the write
    that follows it fails. *)
Definition failing_writeback_world : World :=
  mkWorld 1000 {[ "session:abc" := (stored_session, 87300) ]}
    [None; Some "Connection reset"] [] [] [].


(** An empty store where the first command (the read) goes through and the
    next one (the write) fails. *)
Definition failing_write_world : World :=
  mkWorld 1000 ∅ [None; Some "Connection reset"] [] [] [].

End Sample.

(** ** Vocabulary for the frame and composition properties *)

Module Frame.

Import SessionManager Scenario.

(** The session id an operation is about. *)
Definition op_session (o : op) : string :=
  match o with
  | CreateSession fresh_id _ => fresh_id
  | GetSession sid | UpdateSession sid _ | DeleteSession sid
  | GetChatHistory sid | UpdateChatHistory sid _
  | ClearChatHistory sid | ClearSession sid => sid
  end.

(** The computation [m] leaves the clock alone and changes no key of the
    store other than [key]. *)
Definition touches_only (key : string) {A} (m : Py A) : Prop :=
  forall w,
    clock (snd (m w)) = clock w
    /\ forall k, k <> key -> redis_db (snd (m w)) !! k = redis_db w !! k.

(** The computation [m] touches neither the clock, the store nor the fault
    script: it only logs or talks to the model. *)
Definition leaves_redis {A} (m : Py A) : Prop :=
  forall w,
    clock (snd (m w)) = clock w
    /\ redis_db (snd (m w)) = redis_db w
    /\ redis_faults (snd (m w)) = redis_faults w.

(** The LangChain message [arun] makes of a history entry; entries with the
    tool role or an unknown role give none. *)
Definition lc_message (m : MessageArg) : option LCMessage :=
  let r := role (to_dict m) in
  let c := content (to_dict m) in
  if String.eqb r MultiAgent.USER then Some (HumanMessage c)
  else if String.eqb r MultiAgent.ASSISTANT then Some (AIMessage c)
  else if String.eqb r MultiAgent.SYSTEM then Some (SystemMessage c)
  else None.

(** The store after a [get_session] that went through: a live session is
    written back with a new time stamp and a new deadline; nothing else
    changes. *)
Definition after_get_session (self : SessionManager.t) (session_id : string)
    (w : World) : gmap string (Session * Z) :=
  match Redis.live w (session_key session_id) with
  | Some s => <[session_key session_id :=
                  (set_updated_at (clock w) s,
                   clock w + session_expire_seconds self)]> (redis_db w)
  | None => redis_db w
  end.

End Frame.

(** ** More [str] methods: split, join, strip with a character set *)

Module Strings.

Local Open Scope nat_scope.

(** [s.split(sep)] on characters, for a non-empty separator: the pieces
    between successive non-overlapping occurrences of [sep], left to right.
    [cur] holds the piece being read, last character first; [skip] counts
    the characters of a separator still to pass over. *)
Fixpoint split_chars (sep : list ascii) (l : list ascii) (cur : list ascii)
    (skip : nat) : list (list ascii) :=
  match l with
  | [] => [rev cur]
  | c :: l' =>
      match skip with
      | S k => split_chars sep l' cur k
      | 0 =>
          if bool_decide (take (length sep) l = sep)
          then rev cur :: split_chars sep l' [] (length sep - 1)
          else split_chars sep l' (c :: cur) 0
      end
  end.

Definition split (sep s : string) : list string :=
  map Text.of_chars (split_chars (Text.chars sep) (Text.chars s) [] 0).

(** [sep.join(parts)] *)
Fixpoint join_chars (sep : list ascii) (parts : list (list ascii)) : list ascii :=
  match parts with
  | [] => []
  | [p] => p
  | p :: rest => (p ++ sep ++ join_chars sep rest)%list
  end.

Definition join (sep : string) (parts : list string) : string :=
  Text.of_chars (join_chars (Text.chars sep) (map Text.chars parts)).

(** [s.strip(chars)]: drop the characters of the set from both ends. *)
Definition in_set (set : string) (c : ascii) : bool :=
  bool_decide (c ∈ Text.chars set).

Definition strip_set (set s : string) : string :=
  Text.of_chars
    (rev (Text.drop_while (in_set set)
            (rev (Text.drop_while (in_set set) (Text.chars s))))).

(** [c.isdigit()]: the digits 0 to 9 and the superscripts 1, 2 and 3. *)
Definition is_digit (c : ascii) : bool :=
  let n := Text.code c in
  ((48 <=? n) && (n <=? 57)) || (n =? 178) || (n =? 179) || (n =? 185).

(** The line feed. *)
Definition newline : string := String (ascii_of_nat 10) EmptyString.

End Strings.

(** ** utils/config.py *)

Module Config.

(** The check at import time: the model provider key is required. *)
Definition require_api_key (openai_api_key : string) : result unit :=
  if negb (truthy_str openai_api_key)
  then Raise (ValueError "OPENAI_API_KEY environment variable is required")
  else Ok tt.

(** "Configure Redis URL with password if provided": the value
    [settings.REDIS_URL] has after the module has run. *)
Definition configure_redis_url (redis_password redis_url : string) : string :=
  if truthy_str redis_password && negb (Text.contains "@" redis_url) then
    (* Insert password into Redis URL *)
    match Strings.split "://" redis_url with
    | [scheme; rest] => scheme ++ "://:" ++ redis_password ++ "@" ++ rest
    | _ => redis_url
    end
  else redis_url.

End Config.

(** ** agents/tools/git_analyzer.py: the parts that work on text *)

Module GitHubAnalyzer.

(** The loop state of [_extract_features_from_readme]. *)
Record ReadmeState : Type := mkReadmeState {
  in_features_section : bool;
  in_usecase_section : bool;
  features : list string;
  usecases : list string
}.

(** The test for a bullet point or a numbered item. *)
Definition is_list_item (line : string) : bool :=
  let stripped := Text.strip line in
  Text.startswith "- " stripped
  || Text.startswith "* " stripped
  || (truthy_str stripped
      && match stripped with
         | String c _ => Strings.is_digit c
         | EmptyString => false
         end
      && Text.contains ". " (Text.slice 0 5 line)).

(** [line.strip(' -*').strip()] *)
Definition list_item_text (line : string) : string :=
  Text.strip (Strings.strip_set " -*" line).

(** One turn of the [for line in lines] loop. *)
Definition readme_step (st : ReadmeState) (line : string) : ReadmeState :=
  let line_lower := Text.lower line in
  (* Detect sections *)
  if Text.contains "feature" line_lower
     && (Text.contains "##" line || Text.contains "# " line)
  then mkReadmeState true false (features st) (usecases st)
  else if Text.contains "usecase" line_lower
          || Text.contains "use case" line_lower
          || Text.contains "examples" line_lower
  then mkReadmeState false true (features st) (usecases st)
  (* Extract bullet points or numbered lists *)
  else if is_list_item line then
    if in_features_section st then
      mkReadmeState (in_features_section st) (in_usecase_section st)
        (features st ++ [list_item_text line]) (usecases st)
    else if in_usecase_section st then
      mkReadmeState (in_features_section st) (in_usecase_section st)
        (features st) (usecases st ++ [list_item_text line])
    else st
  else st.

Definition readme_scan (lines : list string) : ReadmeState :=
  fold_left readme_step lines (mkReadmeState false false [] []).

(** [_extract_features_from_readme] *)
Definition extract_features_from_readme (readme_content : string) : string * string :=
  let lines := Strings.split Strings.newline readme_content in
  let st := readme_scan lines in
  (Strings.join ", " (take 5 (features st)), Strings.join ", " (take 3 (usecases st))).

(** What a call of [_infer_primary_functionality] ends in: a value, or the
    [NameError] for a name the function never binds. *)
Inductive inferred : Type :=
| Inferred (functionality : string)
| NameError (name : string).

(** [any(term in description for term in terms)] *)
Definition any_in (terms : list string) (description : string) : bool :=
  existsb (fun term => Text.contains term description) terms.

(** [_infer_primary_functionality]; of [repo] only the description is read.
    The fallback reads [primary_lower], which no statement assigns. *)
Definition infer_primary_functionality (repo_description : option string)
    (primary_language : string) (frameworks : gset string) : inferred :=
  let description := Text.lower (default "" repo_description) in
  (* Common patterns in repository descriptions *)
  if any_in ["web app"; "web application"; "website"] description then
    Inferred "Web Application"
  else if any_in ["api"; "rest"; "graphql"] description then
    Inferred "API Service"
  else if any_in ["cli"; "command line"] description then
    Inferred "Command Line Tool"
  else if any_in ["library"; "framework"] description then
    Inferred (primary_language ++ " Library")
  (* Infer based on frameworks *)
  else if negb (bool_decide (frameworks = ∅))
          && (bool_decide ("django" ∈ frameworks) || bool_decide ("flask" ∈ frameworks))
  then Inferred "Web Application"
  else if negb (bool_decide (frameworks = ∅))
          && (bool_decide ("react" ∈ frameworks) || bool_decide ("angular" ∈ frameworks)
              || bool_decide ("vue" ∈ frameworks))
  then Inferred "Frontend Application"
  else if negb (bool_decide (frameworks = ∅)) && bool_decide ("spring" ∈ frameworks)
  then Inferred "Enterprise Java Application"
  (* Fallback based on primary language *)
  else NameError "primary_lower".

(** An entry of [repo.get_contents("")]. *)
Record ContentItem : Type := mkContentItem {
  item_type : string;
  item_name : string;
  item_path : string
}.

(** What [_analyze_codebase] reads of the repository: the top-level
    listing (or the message of the exception [get_contents] raises), the
    main language and the description. *)
Record Repo : Type := mkRepo {
  repo_contents : string + list ContentItem;
  repo_language : option string;
  repo_description : option string
}.

Definition framework_hints : list (string * list string) :=
  [("django", ["manage.py"; "wsgi.py"]);
   ("flask", ["app.py"; "application.py"; "wsgi.py"]);
   ("react", ["src/App.js"; "src/index.js"]);
   ("angular", ["angular.json"; "src/app"]);
   ("vue", ["vue.config.js"; "src/main.js"]);
   ("next", ["next.config.js"; "pages/"]);
   ("nuxt", ["nuxt.config.js"; "pages/"]);
   ("laravel", ["artisan"; "app/Http/Controllers"]);
   ("rails", ["Gemfile.lock"; "app/controllers"]);
   ("spring", ["src/main/java"; "src/main/resources"])].

(** The loop state: detected frameworks and the three directory flags. *)
Record Layout : Type := mkLayout {
  detected_frameworks : gset string;
  has_src : bool;
  has_tests : bool;
  has_docs : bool
}.

(** The frameworks one file hints at. *)
Definition frameworks_of_file (path : string) : gset string :=
  list_to_set
    (map fst
       (filter (fun hint : string * list string =>
                  existsb (fun f => Text.contains (Text.lower f) (Text.lower path))
                          (snd hint) = true)
               framework_hints)).

(** One turn of the [for item in contents] loop. *)
Definition layout_step (st : Layout) (item : ContentItem) : Layout :=
  if String.eqb (item_type item) "dir" then
    let name := Text.lower (item_name item) in
    if String.eqb name "src" then
      mkLayout (detected_frameworks st) true (has_tests st) (has_docs st)
    else if String.eqb name "test" || String.eqb name "tests" then
      mkLayout (detected_frameworks st) (has_src st) true (has_docs st)
    else if String.eqb name "doc" || String.eqb name "docs" then
      mkLayout (detected_frameworks st) (has_src st) (has_tests st) true
    else st
  else
    mkLayout (detected_frameworks st ∪ frameworks_of_file (item_path item))
      (has_src st) (has_tests st) (has_docs st).

(** The dictionary [_analyze_codebase] returns: the analysis, or the
    one-key error dictionary. *)
Inductive CodeAnalysis : Type :=
| Analysis (architecture_pattern : string) (frameworks : gset string)
    (primary_language : string) (has_tests has_documentation : bool)
    (primary_functionality : string)
| AnalysisError (error : string).

(** [_analyze_codebase]: the result and what it logs. *)
Definition analyze_codebase (repo : Repo) : CodeAnalysis * list string :=
  match repo_contents repo with
  | inl msg =>
      (AnalysisError ("Code analysis failed: " ++ msg),
       ["Error analyzing codebase: " ++ msg])
  | inr contents =>
      let st := fold_left layout_step contents (mkLayout ∅ false false false) in
      (* Determine architecture pattern based on files and structure *)
      let architecture :=
        if (1 <? size (detected_frameworks st))%nat then "Microservices"
        else if has_src st && has_tests st && has_docs st then "Structured Monolithic"
        else "Monolithic" in
      (* Get primary language from repository *)
      let primary_language :=
        match repo_language repo with
        | Some l => if truthy_str l then l else "Unknown"
        | None => "Unknown"
        end in
      match infer_primary_functionality (repo_description repo) primary_language
              (detected_frameworks st) with
      | Inferred f =>
          (Analysis architecture (detected_frameworks st) primary_language
             (has_tests st) (has_docs st) f, [])
      | NameError name =>
          let msg := "name '" ++ name ++ "' is not defined" in
          (AnalysisError ("Code analysis failed: " ++ msg),
           ["Error analyzing codebase: " ++ msg])
      end
  end.

End GitHubAnalyzer.

(** ** Vocabulary for the repository analysis *)

Module AnalyzerSpec.

(** A line that opens the features section. *)
Definition is_features_heading (line : string) : bool :=
  Text.contains "feature" (Text.lower line)
  && (Text.contains "##" line || Text.contains "# " line).

(** A line that opens the use-case section. *)
Definition is_usecase_marker (line : string) : bool :=
  Text.contains "usecase" (Text.lower line)
  || Text.contains "use case" (Text.lower line)
  || Text.contains "examples" (Text.lower line).

(** An entry of the result comes from this line of the README: a list item
    that opens no section. *)
Definition item_of_line (lines : list string) (item : string) : Prop :=
  exists line,
    line ∈ lines
    /\ GitHubAnalyzer.is_list_item line = true
    /\ is_features_heading line = false
    /\ is_usecase_marker line = false
    /\ item = GitHubAnalyzer.list_item_text line.

(** The description keywords [_infer_primary_functionality] looks for, and
    the frameworks it has a rule for. *)
Definition description_terms : list string :=
  ["web app"; "web application"; "website"; "api"; "rest"; "graphql";
   "cli"; "command line"; "library"; "framework"].

Definition ruled_frameworks : list string :=
  ["django"; "flask"; "react"; "angular"; "vue"; "spring"].

(** A top-level file of the listing matches one of the hints of a framework. *)
Definition hinted (fw : string) (contents : list GitHubAnalyzer.ContentItem) : Prop :=
  exists item files f,
    item ∈ contents
    /\ GitHubAnalyzer.item_type item <> "dir"
    /\ (fw, files) ∈ GitHubAnalyzer.framework_hints
    /\ f ∈ files
    /\ Text.contains (Text.lower f) (Text.lower (GitHubAnalyzer.item_path item)) = true.

(** The listing has a directory with one of these names, in any case. *)
Definition has_dir (names : list string) (contents : list GitHubAnalyzer.ContentItem) : Prop :=
  exists item,
    item ∈ contents
    /\ GitHubAnalyzer.item_type item = "dir"
    /\ Text.lower (GitHubAnalyzer.item_name item) ∈ names.

End AnalyzerSpec.

(** * Properties *)

(** ** The monad *)

Lemma try_except_returns {S A} (body : M S A) (handler : exn -> M S A) (w : S) :
  (forall e w0, exists a w1, handler e w0 = (Ok a, w1)) ->
  exists a w1, try_except body handler w = (Ok a, w1).
Proof.
  intros Hh. unfold try_except.
  destruct (body w) as [[a|e] w0]; eauto.
Qed.

Lemma log_then_ret {A} (msg : string) (a : A) (w : World) :
  (let* _ := log_msg msg in ret a) w = (Ok a, with_log (log w ++ [msg]) w).
Proof. reflexivity. Qed.

(** ** Python list slicing *)

Lemma last_n_length {A} (n : nat) (l : list A) :
  (length (last_n n l) <= n)%nat.
Proof. unfold last_n. rewrite length_drop. lia. Qed.

Lemma last_n_short {A} (n : nat) (l : list A) :
  (length l <= n)%nat -> last_n n l = l.
Proof.
  intros H. unfold last_n.
  replace (length l - n)%nat with 0%nat by lia. reflexivity.
Qed.

Lemma last_n_app {A} (n : nat) (a b : list A) :
  last_n n (last_n n a ++ b) = last_n n (a ++ b).
Proof.
  destruct (decide (length a <= n)%nat) as [Hle|Hgt].
  - by rewrite (last_n_short n a).
  - unfold last_n.
    rewrite !length_app, length_drop.
    replace (length a - (length a - n) + length b - n)%nat with (length b) by lia.
    replace (length a + length b - n)%nat
      with ((length a - n) + length b)%nat by lia.
    rewrite <- drop_drop.
    rewrite (drop_app_le a b (length a - n)) by lia.
    reflexivity.
Qed.

(** ** Redis commands when nothing is scripted to fail *)

Section QuietRedis.

Import Scenario.

Lemma command_quiet {A} (run : World -> A * World) (w : World) :
  quiet w ->
  exists w0, Redis.command run w = (Ok (fst (run w0)), snd (run w0))
             /\ quiet w0 /\ clock w0 = clock w /\ redis_db w0 = redis_db w
             /\ log w0 = log w.
Proof.
  unfold quiet, Redis.command. intros Hq.
  destruct (redis_faults w) as [|[msg|] rest] eqn:Hf.
  - exists w. destruct (run w). rewrite Hf. auto.
  - inversion Hq; subst. discriminate.
  - exists (with_faults rest w). destruct (run (with_faults rest w)).
    inversion Hq; subst. simpl. auto.
Qed.

Lemma get_quiet (key : string) (w : World) :
  quiet w ->
  exists w', Redis.get key w = (Ok (Redis.live w key), w')
             /\ quiet w' /\ clock w' = clock w /\ redis_db w' = redis_db w.
Proof.
  intros Hq. unfold Redis.get.
  destruct (command_quiet (fun w => (Redis.live w key, w)) w Hq)
    as (w0 & -> & Hq0 & Hc & Hdb & _).
  exists w0. simpl. split; [|auto].
  unfold Redis.live. by rewrite Hc, Hdb.
Qed.

Lemma set_quiet (key : string) (v : Session) (ex : Z) (w : World) :
  quiet w -> 0 < ex ->
  exists w', Redis.set key v ex w = (Ok tt, w')
             /\ quiet w' /\ clock w' = clock w
             /\ redis_db w' = <[key := (v, clock w + ex)]> (redis_db w).
Proof.
  intros Hq Hex. unfold Redis.set.
  destruct (Z.leb_spec ex 0) as [?|_]; [lia|].
  destruct (command_quiet
              (fun w => (tt, with_db (<[key := (v, clock w + ex)]> (redis_db w)) w))
              w Hq) as (w0 & -> & Hq0 & Hc & Hdb & _).
  exists (with_db (<[key := (v, clock w0 + ex)]> (redis_db w0)) w0).
  simpl. rewrite Hc, Hdb. auto.
Qed.

End QuietRedis.

(** ** The session store when Redis answers *)

Section SessionStore.

Import Scenario SessionManager.

Variable self : SessionManager.t.
Variable session_id : string.
Hypothesis has_redis : redis self = true.
Hypothesis ttl_positive : 0 < session_expire_seconds self.
Hypothesis id_not_empty : session_id <> "".

Lemma truthy_id : truthy_str session_id = true.
Proof using id_not_empty. destruct session_id; [congruence | reflexivity]. Qed.

(** A session that went through [get_session] has a key, so it is truthy. *)
Lemma truthy_session_set_updated_at (t0 : Z) (s : Session) :
  truthy_session (set_updated_at t0 s) = true.
Proof. by destruct s as [[?|] ? [?|] [?|]]. Qed.

(** [get_session] returns the live session with a fresh time stamp, and
    writes it back with its deadline pushed out. *)
Lemma get_session_quiet (w : World) :
  quiet w ->
  exists w',
    get_session self session_id w
      = (Ok (set_updated_at (clock w) <$> Redis.live w (session_key session_id)), w')
    /\ quiet w' /\ clock w' = clock w
    /\ redis_db w'
       = match Redis.live w (session_key session_id) with
         | Some s => <[session_key session_id :=
                         (set_updated_at (clock w) s,
                          clock w + session_expire_seconds self)]> (redis_db w)
         | None => redis_db w
         end.
Proof using has_redis ttl_positive id_not_empty.
  intros Hq. unfold get_session.
  rewrite truthy_id, has_redis. simpl.
  unfold try_except, bind.
  destruct (get_quiet (session_key session_id) w Hq) as (w1 & -> & Hq1 & Hc1 & Hdb1).
  destruct (Redis.live w (session_key session_id)) as [s|]; simpl.
  - rewrite Hc1.
    destruct (set_quiet (session_key session_id) (set_updated_at (clock w) s)
                (session_expire_seconds self) w1 Hq1 ttl_positive)
      as (w2 & -> & Hq2 & Hc2 & Hdb2).
    exists w2. rewrite Hc2, Hdb2, Hc1, Hdb1. auto.
  - exists w1. auto.
Qed.

(** One successful append: the stored history becomes the last 50 entries
    of the old history followed by the new messages. *)
Lemma update_chat_history_quiet (messages : list MessageArg) (w : World) :
  quiet w -> messages <> [] ->
  exists w' s',
    update_chat_history self session_id messages w = (Ok true, w')
    /\ quiet w' /\ clock w' = clock w
    /\ redis_db w' !! session_key session_id
       = Some (s', clock w + session_expire_seconds self)
    /\ chat_history s'
       = Some (last_n max_history
                 (stored_history w session_id ++ map to_dict messages)).
Proof using has_redis ttl_positive id_not_empty.
  intros Hq Hne. unfold update_chat_history.
  rewrite truthy_id, has_redis.
  destruct messages as [|m0 ms]; [congruence|].
  cbn [negb orb truthy_list]. unfold try_except, bind.
  destruct (get_session_quiet w Hq) as (w1 & -> & Hq1 & Hc1 & Hdb1).
  unfold utcnow. cbv iota beta.
  match goal with
  | |- context [Redis.set ?k ?v ?ex w1] =>
      destruct (set_quiet k v ex w1 Hq1 ttl_positive) as (w2 & -> & Hq2 & Hc2 & Hdb2);
      exists w2, v
  end.
  split; [reflexivity|]. split; [assumption|]. split; [congruence|].
  split; [rewrite Hdb2, lookup_insert_eq; congruence|].
  unfold stored_history.
  destruct (Redis.live w (session_key session_id)) as [s|]; simpl.
  - rewrite truthy_session_set_updated_at.
    destruct s as [ca ua da [h|]]; reflexivity.
  - reflexivity.
Qed.

(** Once written, the history stays readable for the whole expiry period. *)
Lemma stored_history_after_sleep (w : World) (s : Session) (h : list Message) (d : Z) :
  redis_db w !! session_key session_id
    = Some (s, clock w + session_expire_seconds self) ->
  chat_history s = Some h ->
  0 <= d < session_expire_seconds self ->
  stored_history (sleep d w) session_id = h.
Proof.
  intros Hdb Hh Hd. unfold stored_history, Redis.live, sleep. simpl.
  rewrite Hdb.
  destruct (Z.ltb_spec (clock w + d) (clock w + session_expire_seconds self)); [|lia].
  by rewrite Hh.
Qed.

(** An empty history stays empty while time passes. *)
Lemma stored_history_empty_sleep (w : World) (d : Z) :
  stored_history w session_id = [] -> 0 <= d ->
  stored_history (sleep d w) session_id = [].
Proof.
  unfold stored_history, Redis.live, sleep. simpl. intros H Hd.
  destruct (redis_db w !! session_key session_id) as [[s dl]|]; [|reflexivity].
  destruct (Z.ltb_spec (clock w + d) dl); [|reflexivity].
  destruct (Z.ltb_spec (clock w) dl); [assumption|lia].
Qed.

Lemma quiet_sleep (w : World) (d : Z) : quiet w -> quiet (sleep d w).
Proof. unfold quiet, sleep. by destruct w. Qed.

(** The stored history after a run of appends, from any state whose history
    stays [h] for the next expiry period. *)
Lemma run_updates_quiet (calls : list (Z * list MessageArg)) :
  forall (w : World) (h : list Message),
    quiet w -> well_timed (session_expire_seconds self) calls ->
    (forall d, 0 <= d < session_expire_seconds self ->
               stored_history (sleep d w) session_id = h) ->
    let out := run_updates self session_id calls w in
    stored_history (snd out) session_id
      = (if decide (calls = []) then h
         else last_n max_history (h ++ appended calls))
    /\ Forall (fun r => r = Ok true) (fst out).
Proof using has_redis ttl_positive id_not_empty.
  induction calls as [|[d messages] rest IH]; intros w h Hq Hwt Hst.
  - simpl. split; [|constructor].
    specialize (Hst 0). unfold sleep in Hst. rewrite Z.add_0_r in Hst.
    destruct w; simpl in *. apply Hst. lia.
  - inversion Hwt as [|? ? [Hd Hne] Hwt']; subst. simpl in Hd, Hne.
    cbn [run_updates].
    destruct (update_chat_history_quiet messages (sleep d w) (quiet_sleep w d Hq) Hne)
      as (w1 & s1 & -> & Hq1 & Hc1 & Hdb1 & Hh1).
    rewrite (Hst d Hd) in Hh1.
    assert (Hst1 : forall d', 0 <= d' < session_expire_seconds self ->
               stored_history (sleep d' w1) session_id
               = last_n max_history (h ++ map to_dict messages)).
    { intros d' Hd'. eapply stored_history_after_sleep; eauto.
      rewrite Hdb1. by rewrite Hc1. }
    specialize (IH w1 _ Hq1 Hwt' Hst1).
    destruct (run_updates self session_id rest w1) as [rs w2]. simpl in IH |- *.
    destruct IH as [IHh IHr]. split; [|by constructor].
    rewrite IHh. destruct (decide (rest = [])) as [->|Hrest].
    + unfold appended. simpl. by rewrite app_nil_r.
    + unfold appended. simpl. rewrite last_n_app. by rewrite app_assoc.
Qed.

End SessionStore.

(** Slicing with [[-n:]] keeps the most recent [n] entries. *)
Lemma last_n_keeps_most_recent (n : nat) (l : list Message) :
  Scenario.keeps_most_recent n l (last_n n l).
Proof.
  exists (take (length l - n) l). unfold last_n. split.
  - by rewrite take_drop.
  - rewrite length_drop. lia.
Qed.

(** C1.  Starting from a session with no stored history, after each call of
    a run of [update_chat_history] calls with non-empty message lists, on a
    session id that is not empty, with Redis answering every command and
    every call made before the expiry period has run out since the previous
    one, the stored history has at most 50 entries and is what is left of
    the messages appended so far when the oldest are dropped: the same
    entries in the order they were appended, all of them up to 50 and the
    most recent 50 from then on; every call returns [True]. *)
Theorem chat_history_keeps_last_50 :
  forall (self : SessionManager.t) (session_id : string)
         (calls : list (Z * list MessageArg)) (w : World) (n : nat),
    SessionManager.redis self = true ->
    0 < SessionManager.session_expire_seconds self ->
    session_id <> "" ->
    Scenario.quiet w ->
    Scenario.stored_history w session_id = [] ->
    Scenario.well_timed (SessionManager.session_expire_seconds self) calls ->
    let out := Scenario.run_updates self session_id (take n calls) w in
    (length (Scenario.stored_history (snd out) session_id) <= 50)%nat
    /\ Scenario.keeps_most_recent 50 (Scenario.appended (take n calls))
         (Scenario.stored_history (snd out) session_id)
    /\ Forall (fun r => r = Ok true) (fst out).
Proof.
  intros self session_id calls w n Hr Httl Hid Hq Hfresh Hwt out.
  assert (Hwt' : Scenario.well_timed (SessionManager.session_expire_seconds self)
                   (take n calls)).
  { unfold Scenario.well_timed in *. by apply Forall_take. }
  destruct (run_updates_quiet self session_id Hr Httl Hid (take n calls) w []
              Hq Hwt') as [Hh Hres].
  { intros d Hd. apply stored_history_empty_sleep; [assumption | lia]. }
  fold out in Hh, Hres.
  assert (Heq : Scenario.stored_history (snd out) session_id
                = last_n 50 (Scenario.appended (take n calls))).
  { rewrite Hh. destruct (decide (take n calls = [])) as [->|_]; reflexivity. }
  split; [|split; [|assumption]].
  - rewrite Heq. apply last_n_length.
  - rewrite Heq. apply last_n_keeps_most_recent.
Qed.

Lemma chat_history_keeps_last_50_witness :
  SessionManager.redis Sample.manager = true
  /\ 0 < SessionManager.session_expire_seconds Sample.manager
  /\ "abc" <> ""
  /\ Scenario.quiet Sample.empty_world
  /\ Scenario.stored_history Sample.empty_world "abc" = []
  /\ Scenario.well_timed (SessionManager.session_expire_seconds Sample.manager)
       Sample.sixty_in_two_calls
  /\ length (Scenario.appended (take 2 Sample.sixty_in_two_calls)) = 60%nat
  /\ Scenario.keeps_most_recent 50
       (Scenario.appended (take 2 Sample.sixty_in_two_calls))
       (Scenario.stored_history
          (snd (Scenario.run_updates Sample.manager "abc"
                  (take 2 Sample.sixty_in_two_calls) Sample.empty_world)) "abc").
Proof.
  assert (H1 : SessionManager.redis Sample.manager = true) by reflexivity.
  assert (H2 : 0 < SessionManager.session_expire_seconds Sample.manager)
    by reflexivity.
  assert (H3 : "abc" <> "") by discriminate.
  assert (H4 : Scenario.quiet Sample.empty_world) by constructor.
  assert (H5 : Scenario.stored_history Sample.empty_world "abc" = [])
    by reflexivity.
  assert (H6 : Scenario.well_timed
                 (SessionManager.session_expire_seconds Sample.manager)
                 Sample.sixty_in_two_calls).
  { repeat constructor; discriminate. }
  repeat (split; [assumption|]). split; [reflexivity|].
  exact (proj1 (proj2 (chat_history_keeps_last_50 Sample.manager "abc"
                         Sample.sixty_in_two_calls Sample.empty_world 2
                         H1 H2 H3 H4 H5 H6))).
Defined.

(** Without the two conditions the history is not the most recent
    messages.  A call made a full expiry period after the previous one finds
    the session gone, so the stored history restarts with its own messages;
    and under the empty session id nothing is stored at all.  Redis answers
    every command in both runs. *)
Lemma chat_history_restarts_after_expiry :
  (let out := Scenario.run_updates Sample.manager "abc" Sample.a_day_apart
                Sample.empty_world in
   Scenario.quiet Sample.empty_world
   /\ Scenario.stored_history Sample.empty_world "abc" = []
   /\ fst out = [Ok true; Ok true]
   /\ Scenario.appended Sample.a_day_apart = [Sample.hello; Sample.thanks]
   /\ Scenario.stored_history (snd out) "abc" = [Sample.thanks]
   /\ ~ Scenario.keeps_most_recent 50 (Scenario.appended Sample.a_day_apart)
          (Scenario.stored_history (snd out) "abc"))
  /\ (let out := Scenario.run_updates Sample.manager "" Sample.two_calls
                   Sample.empty_world in
      fst out = [Ok false; Ok false]
      /\ Scenario.stored_history (snd out) "" = []
      /\ ~ Scenario.keeps_most_recent 50 (Scenario.appended Sample.two_calls)
             (Scenario.stored_history (snd out) "")).
Proof.
  split; cbv zeta.
  - split; [constructor|]. do 4 (split; [by vm_compute|]).
    intros (dropped & _ & Hlen). by vm_compute in Hlen.
  - do 2 (split; [by vm_compute|]).
    intros (dropped & _ & Hlen). by vm_compute in Hlen.
Qed.

(** Sixty messages in: the first ten are gone, the other fifty are kept in
    order. *)
Example sixty_messages_keep_last_fifty :
  Scenario.stored_history
    (snd (Scenario.run_updates Sample.manager "abc" Sample.sixty_in_two_calls
            Sample.empty_world)) "abc"
  = map Sample.numbered (seq 10 50).
Proof. by vm_compute. Qed.

(** The chat handler hands the whole history back to [update_chat_history],
    so a second turn stores the first turn's messages twice. *)
Example chat_second_turn_history :
  Scenario.stored_history
    (snd (Routes.chat Sample.manager
            (fun _ => Ok (MultiAgent.mkAgentResult (Some "ok") None)) "unused"
            (Routes.mkChatRequest [Sample.thanks] (Some "abc") false None)
            Sample.busy_world)) "abc"
  = [Sample.hello; Sample.hi;
     Sample.hello; Sample.hi; Sample.thanks;
     mkMessage "assistant" "ok" None None None].
Proof. by vm_compute. Qed.

(** ** Which operations can remove a key *)

Section KeepsKeys.

Import Scenario SessionManager.

Lemma keeps_keys_ret {A} (a : A) : keeps_keys (ret a).
Proof. intros w. reflexivity. Qed.

Lemma keeps_keys_raise {A} (e : exn) : keeps_keys (@raise World A e).
Proof. intros w. reflexivity. Qed.

Lemma keeps_keys_log (msg : string) : keeps_keys (log_msg msg).
Proof. intros w. reflexivity. Qed.

Lemma keeps_keys_utcnow : keeps_keys utcnow.
Proof. intros w. reflexivity. Qed.

Lemma keeps_keys_bind {A B} (m : Py A) (k : A -> Py B) :
  keeps_keys m -> (forall a, keeps_keys (k a)) -> keeps_keys (bind m k).
Proof.
  intros Hm Hk w. unfold bind. specialize (Hm w).
  destruct (m w) as [[a|e] w1]; simpl in *; [|assumption].
  etrans; [exact Hm | apply Hk].
Qed.

Lemma keeps_keys_try {A} (body : Py A) (handler : exn -> Py A) :
  keeps_keys body -> (forall e, keeps_keys (handler e)) ->
  keeps_keys (try_except body handler).
Proof.
  intros Hb Hh w. unfold try_except. specialize (Hb w).
  destruct (body w) as [[a|e] w1]; simpl in *; [assumption|].
  etrans; [exact Hb | apply Hh].
Qed.

Lemma keeps_keys_command {A} (run : World -> A * World) :
  (forall w, dom (redis_db w) ⊆ dom (redis_db (snd (run w)))) ->
  keeps_keys (Redis.command run).
Proof.
  intros Hrun w. unfold Redis.command.
  destruct (redis_faults w) as [|[msg|] rest].
  - specialize (Hrun w). by destruct (run w).
  - reflexivity.
  - specialize (Hrun (with_faults rest w)). by destruct (run (with_faults rest w)).
Qed.

Lemma keeps_keys_get (key : string) : keeps_keys (Redis.get key).
Proof. apply keeps_keys_command. intros w. reflexivity. Qed.

Lemma keeps_keys_set (key : string) (v : Session) (ex : Z) :
  keeps_keys (Redis.set key v ex).
Proof.
  unfold Redis.set. destruct (ex <=? 0).
  - apply keeps_keys_bind; [|intros; apply keeps_keys_raise].
    apply keeps_keys_command. intros w. reflexivity.
  - apply keeps_keys_command. intros w. simpl.
    rewrite dom_insert_L. set_solver.
Qed.

Ltac keeps_keys_step :=
  first
    [ apply keeps_keys_ret | apply keeps_keys_raise | apply keeps_keys_log
    | apply keeps_keys_utcnow | apply keeps_keys_get | apply keeps_keys_set
    | apply keeps_keys_bind; [|intros ?]
    | apply keeps_keys_try; [|intros ?]
    | match goal with
      | |- keeps_keys (if ?b then _ else _) => destruct b
      | |- keeps_keys (match ?x with _ => _ end) => destruct x
      end ].

Lemma keeps_keys_get_session (self : t) (sid : string) :
  keeps_keys (get_session self sid).
Proof. unfold get_session. repeat keeps_keys_step. Qed.

Lemma keeps_keys_create_session (self : t) (fresh_id : string) d :
  keeps_keys (create_session self fresh_id d).
Proof. unfold create_session. repeat keeps_keys_step. Qed.

Lemma keeps_keys_update_session (self : t) (sid : string) d :
  keeps_keys (update_session self sid d).
Proof.
  unfold update_session.
  repeat first [apply keeps_keys_get_session | keeps_keys_step].
Qed.

Lemma keeps_keys_get_chat_history (self : t) (sid : string) :
  keeps_keys (get_chat_history self sid).
Proof.
  unfold get_chat_history.
  repeat first [apply keeps_keys_get_session | keeps_keys_step].
Qed.

Lemma keeps_keys_update_chat_history (self : t) (sid : string) msgs :
  keeps_keys (update_chat_history self sid msgs).
Proof.
  unfold update_chat_history.
  repeat first [apply keeps_keys_get_session | keeps_keys_step].
Qed.

End KeepsKeys.

(** C4.  [clear_chat_history] returns [False] and leaves the whole state as
    it was, stored history included: it passes an empty list to
    [update_chat_history], which rejects it before any Redis command.  No
    operation other than [delete_session] and its alias [clear_session]
    removes a key from the store, and these two remove the session's key
    whenever Redis accepts the command. *)
Theorem clear_chat_history_changes_nothing :
  forall (self : SessionManager.t) (session_id : string) (w : World),
    SessionManager.clear_chat_history self session_id w = (Ok false, w)
    /\ (forall o, Scenario.is_delete o = false ->
                  dom (redis_db w) ⊆ dom (redis_db (Scenario.run_op self o w)))
    /\ (SessionManager.redis self = true -> session_id <> "" ->
        Scenario.next_fault w = None ->
        redis_db (Scenario.run_op self (Scenario.ClearSession session_id) w)
          !! SessionManager.session_key session_id = None
        /\ redis_db (Scenario.run_op self (Scenario.DeleteSession session_id) w)
             !! SessionManager.session_key session_id = None).
Proof.
  intros self session_id w. split; [|split].
  - unfold SessionManager.clear_chat_history, SessionManager.update_chat_history.
    destruct (truthy_str session_id); reflexivity.
  - intros o Ho. destruct o; try discriminate; simpl.
    + apply keeps_keys_create_session.
    + apply keeps_keys_get_session.
    + apply keeps_keys_update_session.
    + apply keeps_keys_get_chat_history.
    + apply keeps_keys_update_chat_history.
    + apply keeps_keys_update_chat_history.
  - intros Hr Hid Hf. simpl. unfold SessionManager.clear_session.
    assert (Hdel : redis_db (snd (SessionManager.delete_session self session_id w))
                     !! SessionManager.session_key session_id = None).
    { unfold SessionManager.delete_session.
      rewrite Hr. destruct session_id as [|c sid]; [congruence|]. simpl.
      unfold try_except, bind, Redis.delete, Redis.command.
      unfold Scenario.next_fault in Hf.
      destruct (redis_faults w) as [|[msg|] rest] eqn:Hfw.
      - destruct (Redis.live w _); simpl; apply lookup_delete_eq.
      - discriminate.
      - destruct (Redis.live (with_faults rest w) _); simpl; apply lookup_delete_eq. }
    split; exact Hdel.
Qed.

Lemma clear_chat_history_changes_nothing_witness :
  SessionManager.clear_chat_history Sample.manager "abc" Sample.busy_world
    = (Ok false, Sample.busy_world)
  /\ Scenario.stored_history Sample.busy_world "abc" = [Sample.hello; Sample.hi]
  /\ redis_db (Scenario.run_op Sample.manager (Scenario.ClearSession "abc")
                 Sample.busy_world) !! "session:abc" = None.
Proof.
  destruct (clear_chat_history_changes_nothing Sample.manager "abc" Sample.busy_world)
    as (H1 & _ & H3).
  split; [exact H1|]. split; [reflexivity|].
  apply H3; [reflexivity | discriminate | reflexivity].
Defined.

(** ** Operations that never raise *)

Section Returns.

Import Scenario SessionManager.

Lemma returns_ret {S A} (a : A) (Q : A -> Prop) : Q a -> returns (@ret S A a) Q.
Proof. intros H w. by exists a, w. Qed.

Lemma returns_bind {S A B} (m : M S A) (k : A -> M S B) (P : A -> Prop) (Q : B -> Prop) :
  returns m P -> (forall a, P a -> returns (k a) Q) -> returns (bind m k) Q.
Proof.
  intros Hm Hk w. unfold bind.
  destruct (Hm w) as (a & w1 & -> & Ha). apply (Hk a Ha).
Qed.


(** A handler that logs and returns a value absorbs every exception. *)
Lemma returns_try_any {S A} (body : M S A) (handler : exn -> M S A) :
  (forall e, returns (handler e) (fun _ => True)) ->
  returns (try_except body handler) (fun _ => True).
Proof.
  intros Hh w. unfold try_except.
  destruct (body w) as [[a|e] w1]; [by exists a, w1 | apply Hh].
Qed.

Lemma returns_log_ret {A} (msg : string) (a : A) :
  returns (let* _ := log_msg msg in ret a) (fun _ => True).
Proof. intros w. by eexists _, _. Qed.


Lemma get_session_returns (self : t) (sid : string) :
  returns (get_session self sid) (fun _ => True).
Proof.
  unfold get_session.
  destruct (negb (truthy_str sid)); [by apply returns_ret|].
  destruct (redis self); [|by apply returns_ret].
  apply returns_try_any. intros e. apply returns_log_ret.
Qed.

Lemma get_chat_history_returns (self : t) (sid : string) :
  returns (get_chat_history self sid) (fun _ => True).
Proof.
  unfold get_chat_history.
  eapply returns_bind; [apply get_session_returns|].
  intros [s|] _; [|by apply returns_ret].
  destruct (truthy_session s); [|by apply returns_ret].
  destruct (chat_history s); by apply returns_ret.
Qed.



(** A command scripted to fail raises and consumes its script entry. *)
Lemma set_fault (key : string) (v : Session) (ex : Z) (w : World) (msg : string) :
  next_fault w = Some msg ->
  Redis.set key v ex w = (Raise (RedisError msg), with_faults (tail (redis_faults w)) w).
Proof.
  unfold next_fault, Redis.set. intros Hf.
  destruct (redis_faults w) as [|[m|] rest] eqn:E; try discriminate.
  injection Hf as ->.
  destruct (ex <=? 0); unfold bind, Redis.command; rewrite E; reflexivity.
Qed.

Lemma get_fault (key : string) (w : World) (msg : string) :
  next_fault w = Some msg ->
  Redis.get key w = (Raise (RedisError msg), with_faults (tail (redis_faults w)) w).
Proof.
  unfold next_fault, Redis.get, Redis.command. intros Hf.
  destruct (redis_faults w) as [|[m|] rest] eqn:E; try discriminate.
  by injection Hf as ->.
Qed.

End Returns.

(** ** Reading the history *)

Section ReadHistory.

Import Scenario SessionManager.

Lemma get_chat_history_not_live (self : t) (sid : string) (w : World) :
  Redis.live w (session_key sid) = None ->
  exists w', get_chat_history self sid w = (Ok [], w').
Proof.
  intros Hl. unfold get_chat_history, get_session, bind.
  destruct (negb (truthy_str sid)); [by eexists|].
  destruct (redis self); [|by eexists].
  unfold try_except, bind, Redis.get, Redis.command.
  destruct (redis_faults w) as [|[msg|] rest]; simpl.
  - rewrite Hl. by eexists.
  - by eexists.
  - change (Redis.live (with_faults rest w) (session_key sid))
      with (Redis.live w (session_key sid)).
    rewrite Hl. by eexists.
Qed.

Lemma get_chat_history_fault (self : t) (sid : string) (w : World) (msg : string) :
  next_fault w = Some msg ->
  exists w', get_chat_history self sid w = (Ok [], w').
Proof.
  intros Hf. unfold get_chat_history, get_session, bind.
  destruct (negb (truthy_str sid)); [by eexists|].
  destruct (redis self); [|by eexists].
  unfold try_except, bind. rewrite (get_fault _ _ _ Hf). simpl. by eexists.
Qed.

(** The read and the write-back of [get_session] are the only commands a
    call issues: a fault on either one makes the result empty. *)
Lemma get_chat_history_fault_within (self : t) (sid : string) (w : World) :
  fault_within 2 w ->
  exists w', get_chat_history self sid w = (Ok [], w').
Proof.
  intros (msg & Hin).
  destruct (redis_faults w) as [|[m1|] rest] eqn:Ef.
  - by apply elem_of_nil in Hin.
  - apply (get_chat_history_fault self sid w m1). unfold next_fault. by rewrite Ef.
  - destruct rest as [|[m2|] rest].
    + cbn in Hin. apply list_elem_of_singleton in Hin. discriminate.
    + unfold get_chat_history, get_session, bind.
      destruct (negb (truthy_str sid)); [by eexists|].
      destruct (redis self); [|by eexists].
      unfold try_except, bind, Redis.get, Redis.command. rewrite Ef.
      change (Redis.live (with_faults (Some m2 :: rest) w) (session_key sid))
        with (Redis.live w (session_key sid)).
      destruct (Redis.live w (session_key sid)) as [s|]; [|by eexists].
      unfold utcnow. cbv iota beta.
      rewrite (set_fault _ _ _ _ m2) by reflexivity. simpl. by eexists.
    + cbn in Hin. apply elem_of_cons in Hin as [Hin|Hin]; [discriminate|].
      apply list_elem_of_singleton in Hin. discriminate.
Qed.

(** A server that refuses the expiry period fails every write-back. *)
Lemma get_chat_history_refused_expiry (self : t) (sid : string) (w : World) :
  session_expire_seconds self <= 0 ->
  exists w', get_chat_history self sid w = (Ok [], w').
Proof.
  intros Hex. unfold get_chat_history, get_session, bind.
  destruct (negb (truthy_str sid)); [by eexists|].
  destruct (redis self); [|by eexists].
  unfold try_except, bind.
  destruct (Redis.get (session_key sid) w) as [[[s|]|e] w1]; [|by eexists..].
  unfold utcnow. cbv iota beta. unfold Redis.set.
  destruct (Z.leb_spec (session_expire_seconds self) 0) as [_|?]; [|lia].
  unfold bind. destruct (Redis.command _ w1) as [[u|e] w2]; by eexists.
Qed.

End ReadHistory.

(** C6.  [get_chat_history] never raises, and it returns the empty list when
    the session id is empty, when there is no Redis client, when the
    session's key is absent or has expired, and when the store errors: when
    the read or the write-back that follows it raises, or the server refuses
    the expiry period of the write-back. *)
Theorem get_chat_history_degrades_to_empty :
  forall (self : SessionManager.t) (session_id : string) (w : World),
    (exists h w', SessionManager.get_chat_history self session_id w = (Ok h, w'))
    /\ (session_id = ""
        \/ SessionManager.redis self = false
        \/ redis_db w !! SessionManager.session_key session_id = None
        \/ (exists s deadline,
              redis_db w !! SessionManager.session_key session_id = Some (s, deadline)
              /\ deadline <= clock w)
        \/ (exists msg, Scenario.next_fault w = Some msg)
        \/ Scenario.fault_within 2 w
        \/ SessionManager.session_expire_seconds self <= 0 ->
        exists w', SessionManager.get_chat_history self session_id w = (Ok [], w')).
Proof.
  intros self session_id w. split.
  - destruct (get_chat_history_returns self session_id w) as (h & w' & H & _).
    by exists h, w'.
  - intros [-> | [Hr | [Habs | [(s & dl & Hdb & Hexp) | [[msg Hf] | [Hf | Hex]]]]]].
    + by eexists.
    + unfold SessionManager.get_chat_history, SessionManager.get_session, bind.
      rewrite Hr. destruct (negb (truthy_str session_id)); by eexists.
    + apply get_chat_history_not_live. unfold Redis.live. by rewrite Habs.
    + apply get_chat_history_not_live. unfold Redis.live. rewrite Hdb.
      destruct (Z.ltb_spec (clock w) dl); [lia | reflexivity].
    + by eapply get_chat_history_fault.
    + by apply get_chat_history_fault_within.
    + by apply get_chat_history_refused_expiry.
Qed.

Lemma get_chat_history_degrades_to_empty_witness :
  Scenario.fault_within 2 Sample.failing_writeback_world
  /\ Scenario.next_fault Sample.failing_writeback_world = None
  /\ Scenario.stored_history Sample.failing_writeback_world "abc"
     = [Sample.hello; Sample.hi]
  /\ exists w', SessionManager.get_chat_history Sample.manager "abc"
                  Sample.failing_writeback_world
                = (Ok [], w').
Proof.
  assert (Hf : Scenario.fault_within 2 Sample.failing_writeback_world).
  { exists "Connection reset". cbn. right. left. }
  split; [exact Hf|]. split; [reflexivity|]. split; [reflexivity|].
  apply (proj2 (get_chat_history_degrades_to_empty Sample.manager "abc"
                  Sample.failing_writeback_world)).
  do 5 right. left. exact Hf.
Defined.

(** The same read with the first command failing. *)
Example get_chat_history_read_fails :
  Scenario.stored_history Sample.failing_world "abc" = [Sample.hello; Sample.hi]
  /\ fst (SessionManager.get_chat_history Sample.manager "abc" Sample.failing_world)
     = Ok [].
Proof. by split. Qed.

(** ** The chat endpoint *)

Section ChatEndpoint.

Import Scenario SessionManager.

Variable ainvoke : AgentInput -> result MultiAgent.AgentResult.

(** Whatever the model does, [arun] hands back an assistant message. *)
Lemma arun_returns (messages : list MessageArg) :
  returns (MultiAgent.arun ainvoke messages)
          (fun r => role (MultiAgent.message r) = MultiAgent.ASSISTANT).
Proof.
  intros w. unfold MultiAgent.arun, try_except.
  destruct (MultiAgent.convert messages) as [ch last].
  destruct (MultiAgent.falsy_opt_str last).
  - by eexists _, _.
  - unfold bind, MultiAgent.invoke.
    destruct (ainvoke _) as [res|e]; simpl; by eexists _, _.
Qed.




End ChatEndpoint.



(** The same failure seen from [update_chat_history] alone. *)
Example update_chat_history_write_fails_sample :
  SessionManager.update_chat_history Sample.manager "abc" [AsDict Sample.hello]
    Sample.failing_write_world
  = (Ok false,
     with_log ["Error updating chat history in Redis: Connection reset"]
       (with_faults [] Sample.failing_write_world)).
Proof. reflexivity. Qed.

(** ** The HTTP executor *)

Section Executor.

Import Scenario APICaller.

Variable python_3_11 : bool.
Variable transport : HttpRequest -> result HttpResponse.
Variable b64encode : string -> string.

Lemma call_returns (a : CallArgs) :
  returns (call python_3_11 transport b64encode a) (fun _ => True).
Proof.
  unfold call. apply returns_try_any. intros e.
  destruct (is_client_error e); apply returns_log_ret.
Qed.

(** When the request raises, [call] answers with the error envelope built
    from the exception. *)
Lemma call_request_raises (a : CallArgs) (method : string) (e : exn) (w : World) :
  HTTPMethod (Text.upper (ca_method a)) = Ok method ->
  (forall rq, transport rq = Raise e) ->
  exists rq w',
    call python_3_11 transport b64encode a w
    = (Ok (error_envelope
             ((if is_client_error e then "API request failed: "
               else "Unexpected error: ") ++ str_exn e)), w')
    /\ http_sent w' = (http_sent w ++ [rq])%list.
Proof.
  intros Hm Ht. unfold call, try_except, bind, lift. rewrite Hm.
  destruct (ca_data a) as [d|];
    [destruct (is_dict_or_list d && _) | destruct (ca_json_data a)];
    cbv iota beta; unfold log_msg, send; rewrite Ht;
    destruct (is_client_error e); eexists _, _; split; reflexivity.
Qed.

End Executor.

(** C7.  [call] never raises.  Whenever the underlying request raises, the
    envelope it returns has [status] 0, [is_success] false and an [error]
    text; for a connection error or a timeout raised by the request of a
    call with a valid method, the text is the failure's description after
    the prefix the handler puts before it. *)
Theorem call_reports_transport_failure :
  forall (python_3_11 : bool)
         (transport : HttpRequest -> result APICaller.HttpResponse)
         (b64encode : string -> string) (a : APICaller.CallArgs) (w : World),
    (exists env w', APICaller.call python_3_11 transport b64encode a w = (Ok env, w'))
    /\ (forall e,
          Scenario.transport_failure e ->
          (forall rq, transport rq = Raise e) ->
          exists env w',
            APICaller.call python_3_11 transport b64encode a w = (Ok env, w')
            /\ APICaller.env_status env = Some 0
            /\ APICaller.env_is_success env = Some false
            /\ (exists text, APICaller.env_error env = Some text)
            /\ (forall method,
                  APICaller.HTTPMethod (Text.upper (APICaller.ca_method a)) = Ok method ->
                  APICaller.env_error env
                  = Some ((if is_client_error e then "API request failed: "
                           else "Unexpected error: ") ++ str_exn e)
                  /\ length (http_sent w') = S (length (http_sent w)))).
Proof.
  intros python_3_11 transport b64encode a w. split.
  - destruct (call_returns python_3_11 transport b64encode a w) as (env & w' & H & _).
    by exists env, w'.
  - intros e _ Ht.
    destruct (APICaller.HTTPMethod (Text.upper (APICaller.ca_method a)))
      as [method|e0] eqn:Hm.
    + destruct (call_request_raises python_3_11 transport b64encode a method e w Hm Ht)
        as (rq & w' & Hcall & Hsent).
      eexists _, w'. split; [exact Hcall|]. simpl.
      repeat split; eauto.
      rewrite Hsent, length_app. simpl. lia.
    + unfold APICaller.call, try_except, bind, APICaller.lift. rewrite Hm.
      destruct (is_client_error e0); simpl; eexists _, _;
        (split; [reflexivity|]); simpl; repeat split; eauto; discriminate.
Qed.

Lemma call_reports_transport_failure_witness :
  Scenario.transport_failure (ClientError "Cannot connect to host example.com:443")
  /\ exists w',
       APICaller.call false (fun _ => Raise (ClientError "Cannot connect to host example.com:443"))
         (fun s => s)
         (APICaller.mkCallArgs "https://example.com/items" "get" None None None None
            None 30 true true)
         Sample.empty_world
       = (Ok (APICaller.error_envelope
                "API request failed: Cannot connect to host example.com:443"), w').
Proof.
  split; [exact I|].
  destruct (proj2 (call_reports_transport_failure false
                     (fun _ => Raise (ClientError "Cannot connect to host example.com:443"))
                     (fun s => s)
                     (APICaller.mkCallArgs "https://example.com/items" "get" None None
                        None None None 30 true true)
                     Sample.empty_world)
                  (ClientError "Cannot connect to host example.com:443") I
                  (fun _ => eq_refl))
    as (env & w' & Hcall & _).
  exists w'. rewrite Hcall. f_equal. f_equal.
  vm_compute in Hcall. injection Hcall as <- _. reflexivity.
Defined.

(** C3.  The /api/call handler never reaches the executor: it passes the
    keyword [body], which [call] does not have, so binding the arguments
    raises [TypeError], and the handler turns that into a 500 response.
    No request is sent. *)
Theorem call_api_fails_on_body_keyword :
  forall (python_3_11 : bool)
         (transport : HttpRequest -> result APICaller.HttpResponse)
         (b64encode : string -> string)
         (request : Routes.APICallRequest) (w : World),
    Routes.call_api python_3_11 transport b64encode request w
    = (Raise (HTTPException 500
                "APICaller.call() got an unexpected keyword argument 'body'"),
       with_log
         (log w ++
            ["Error making API call: APICaller.call() got an unexpected keyword argument 'body'"])
         w).
Proof. intros python_3_11 transport b64encode request w. reflexivity. Qed.

(** ** The orchestrator's choice of input *)

Section LastUserMessage.

Import MultiAgent.

Lemma convert_step_user st (m : MessageArg) :
  role (to_dict m) = USER ->
  snd (convert_step st m) = Some (content (to_dict m)).
Proof.
  intros Hr. destruct st as [ch lu]. unfold convert_step.
  rewrite Hr. reflexivity.
Qed.

Lemma convert_step_other st (m : MessageArg) :
  role (to_dict m) <> USER ->
  snd (convert_step st m) = snd st.
Proof.
  intros Hr. destruct st as [ch lu]. unfold convert_step.
  apply String.eqb_neq in Hr. rewrite Hr.
  destruct (String.eqb _ ASSISTANT); [reflexivity|].
  destruct (String.eqb _ SYSTEM); reflexivity.
Qed.

(** Messages of other roles leave [last_user_message] alone. *)
Lemma convert_no_user (post : list MessageArg) :
  forall st,
    (forall m, m ∈ post -> role (to_dict m) <> USER) ->
    snd (fold_left convert_step post st) = snd st.
Proof.
  induction post as [|m post IH]; intros st Hpost; [reflexivity|].
  simpl. rewrite IH.
  - apply convert_step_other. apply Hpost. left.
  - intros m' Hm'. apply Hpost. by right.
Qed.

(** [last_user_message] is the content of the last message with the user
    role, wherever it stands in the list. *)
Lemma convert_last_user (pre post : list MessageArg) (m : MessageArg) :
  role (to_dict m) = USER ->
  (forall m', m' ∈ post -> role (to_dict m') <> USER) ->
  snd (convert (pre ++ m :: post)) = Some (content (to_dict m)).
Proof.
  intros Hm Hpost. unfold convert.
  rewrite fold_left_app. simpl.
  rewrite (convert_no_user post _ Hpost).
  by apply convert_step_user.
Qed.

(** With only empty user contents, [last_user_message] stays falsy. *)
Lemma convert_all_empty (messages : list MessageArg) :
  forall st,
    falsy_opt_str (snd st) = true ->
    (forall m, m ∈ messages -> role (to_dict m) = USER -> content (to_dict m) = "") ->
    falsy_opt_str (snd (fold_left convert_step messages st)) = true.
Proof.
  induction messages as [|m messages IH]; intros st Hst Hall; [assumption|].
  simpl. apply IH.
  - destruct (decide (role (to_dict m) = USER)) as [Hu|Hu].
    + rewrite (convert_step_user st m Hu).
      rewrite (Hall m (list_elem_of_here _ _) Hu). reflexivity.
    + by rewrite (convert_step_other st m Hu).
  - intros m' Hm'. apply Hall. by right.
Qed.

Variable ainvoke : AgentInput -> result AgentResult.

Lemma arun_falsy (messages : list MessageArg) (w : World) :
  falsy_opt_str (snd (convert messages)) = true ->
  arun ainvoke messages w
  = (Ok (mkAgentReply (reply_message no_input_text) None), w).
Proof.
  intros Hf. unfold arun, try_except.
  destruct (convert messages) as [ch last]. simpl in Hf. by rewrite Hf.
Qed.

Lemma arun_truthy (messages : list MessageArg) (text : string) (w : World) :
  snd (convert messages) = Some text -> text <> "" ->
  exists r w' hist,
    arun ainvoke messages w = (Ok r, w')
    /\ llm_invocations w' = (llm_invocations w ++ [mkAgentInput text hist])%list.
Proof.
  intros Hc Hne. unfold arun, try_except.
  destruct (convert messages) as [ch last]. simpl in Hc. subst last.
  destruct text as [|c text]; [congruence|]. cbn [falsy_opt_str truthy_str negb].
  unfold bind, invoke. cbn [default].
  destruct (ainvoke _) as [res|e]; simpl; by eexists _, _, _.
Qed.

End LastUserMessage.

(** C10.  [arun] short-circuits on the truthiness of the last user content.
    If every user message has empty content it returns the fixed reply with
    no tool calls and leaves the state untouched, so the model is not
    invoked.  Otherwise the message that counts is the last one with the
    user role, wherever it stands in the list: if its content is empty the
    same fixed reply comes back, and if not, the model is invoked once with
    that content as input. *)
Theorem arun_input_is_last_user_content :
  forall (ainvoke : AgentInput -> result MultiAgent.AgentResult)
         (messages : list MessageArg) (w : World),
    ((forall m, m ∈ messages -> role (to_dict m) = "user" -> content (to_dict m) = "") ->
     MultiAgent.arun ainvoke messages w
     = (Ok (MultiAgent.mkAgentReply
              (mkMessage "assistant" "I didn't receive any user message to process."
                 None None None)
              None), w))
    /\ (forall pre m post,
          messages = (pre ++ m :: post)%list ->
          role (to_dict m) = "user" ->
          (forall m', m' ∈ post -> role (to_dict m') <> "user") ->
          (content (to_dict m) = "" ->
           MultiAgent.arun ainvoke messages w
           = (Ok (MultiAgent.mkAgentReply
                    (mkMessage "assistant" "I didn't receive any user message to process."
                       None None None)
                    None), w))
          /\ (content (to_dict m) <> "" ->
              exists r w' hist,
                MultiAgent.arun ainvoke messages w = (Ok r, w')
                /\ llm_invocations w'
                   = (llm_invocations w ++ [mkAgentInput (content (to_dict m)) hist])%list)).
Proof.
  intros ainvoke messages w. split.
  - intros Hall. apply arun_falsy. by apply convert_all_empty.
  - intros pre m post -> Hm Hpost.
    pose proof (convert_last_user pre post m Hm Hpost) as Hlast. split.
    + intros Hc. apply arun_falsy. rewrite Hlast, Hc. reflexivity.
    + intros Hc. by apply arun_truthy.
Qed.

Lemma arun_input_is_last_user_content_witness :
  MultiAgent.arun (fun _ => Ok (MultiAgent.mkAgentResult (Some "done") None))
    [AsDict Sample.hello; AsDict Sample.hi;
     AsDict (mkMessage "user" "" None None None)]
    Sample.empty_world
  = (Ok (MultiAgent.mkAgentReply
           (mkMessage "assistant" "I didn't receive any user message to process."
              None None None)
           None), Sample.empty_world)
  /\ exists r w' hist,
       MultiAgent.arun (fun _ => Ok (MultiAgent.mkAgentResult (Some "done") None))
         [AsDict Sample.hello; AsDict Sample.hi] Sample.empty_world = (Ok r, w')
       /\ llm_invocations w'
          = (llm_invocations Sample.empty_world ++ [mkAgentInput "hello" hist])%list.
Proof.
  split.
  - destruct (arun_input_is_last_user_content
                (fun _ => Ok (MultiAgent.mkAgentResult (Some "done") None))
                [AsDict Sample.hello; AsDict Sample.hi;
                 AsDict (mkMessage "user" "" None None None)]
                Sample.empty_world) as [_ H].
    destruct (H [AsDict Sample.hello; AsDict Sample.hi]
                (AsDict (mkMessage "user" "" None None None)) []
                eq_refl eq_refl) as [Hempty _].
    + intros m' Hm'. inversion Hm'.
    + apply Hempty. reflexivity.
  - destruct (arun_input_is_last_user_content
                (fun _ => Ok (MultiAgent.mkAgentResult (Some "done") None))
                [AsDict Sample.hello; AsDict Sample.hi]
                Sample.empty_world) as [_ H].
    destruct (H [] (AsDict Sample.hello) [AsDict Sample.hi] eq_refl eq_refl)
      as [_ Hfull].
    + intros m' Hm'. inversion Hm' as [|? ? ? Hm'']; subst; [discriminate|].
      inversion Hm''.
    + apply Hfull. discriminate.
Defined.

(** ** The matcher against the language of a pattern *)

Section Matcher.

Import Regex.

Local Open Scope nat_scope.

Lemma rep_ends_sound (p : ascii -> bool) (s : list ascii) :
  forall pos e s',
    In (e, s') (rep_ends p pos s) ->
    exists w, s = (w ++ s')%list /\ e = pos + length w
              /\ Forall (fun c => p c = true) w.
Proof.
  induction s as [|c s IH]; intros pos e s' Hin; simpl in Hin.
  - destruct Hin as [[= <- <-]|[]]. exists []. simpl. auto.
  - destruct (p c) eqn:Hp.
    + apply in_app_iff in Hin as [Hin|[[= <- <-]|[]]].
      * destruct (IH _ _ _ Hin) as (w & -> & -> & Hw).
        exists (c :: w). simpl. split; [reflexivity|]. split; [lia|].
        by constructor.
      * exists []. simpl. auto.
    + destruct Hin as [[= <- <-]|[]]. exists []. simpl. auto.
Qed.

Lemma rep_ends_complete (p : ascii -> bool) (w : list ascii) :
  forall pos s',
    Forall (fun c => p c = true) w ->
    In (pos + length w, s') (rep_ends p pos (w ++ s')).
Proof.
  induction w as [|c w IH]; intros pos s' Hw; simpl.
  - rewrite Nat.add_0_r. destruct s' as [|c s']; simpl; [by left|].
    destruct (p c); [apply in_app_iff; right|]; by left.
  - inversion Hw as [|? ? Hc Hw']; subst. rewrite Hc.
    apply in_app_iff. left.
    replace (pos + S (length w)) with (S pos + length w) by lia.
    by apply IH.
Qed.

(** Every way the matcher reports consumes a word of the language. *)
Lemma matches_sound (r : re) :
  forall pos s caps pos' s' caps',
    In (pos', s', caps') (matches r pos s caps) ->
    exists w, s = (w ++ s')%list /\ pos' = pos + length w /\ lang r pos w.
Proof.
  induction r as [| |p|a IHa b IHb|a IHa b IHb|p|i a IHa];
    intros pos s caps pos' s' caps' Hin; simpl in Hin.
  - destruct Hin as [[= <- <- <-]|[]]. exists []. simpl. auto.
  - destruct (Nat.eqb_spec pos 0) as [->|]; [|destruct Hin].
    destruct Hin as [[= <- <- <-]|[]]. exists []. simpl. auto.
  - destruct s as [|c s]; [destruct Hin|].
    destruct (p c) eqn:Hp; [|destruct Hin].
    destruct Hin as [[= <- <- <-]|[]]. exists [c]. simpl.
    split; [reflexivity|]. split; [lia|]. by exists c.
  - apply in_flat_map in Hin as ([[pos1 s1] caps1] & H1 & H2).
    destruct (IHa _ _ _ _ _ _ H1) as (w1 & -> & -> & Hw1).
    destruct (IHb _ _ _ _ _ _ H2) as (w2 & -> & -> & Hw2).
    exists (w1 ++ w2)%list. rewrite length_app, app_assoc.
    split; [reflexivity|]. split; [lia|]. simpl. by exists w1, w2.
  - apply in_app_iff in Hin as [Hin|Hin].
    + destruct (IHa _ _ _ _ _ _ Hin) as (w & -> & -> & Hw).
      exists w. simpl. auto.
    + destruct (IHb _ _ _ _ _ _ Hin) as (w & -> & -> & Hw).
      exists w. simpl. auto.
  - apply in_map_iff in Hin as ([e s1] & [= <- <- <-] & Hin).
    destruct (rep_ends_sound _ _ _ _ _ Hin) as (w & -> & -> & Hw).
    exists w. simpl. auto.
  - apply in_map_iff in Hin as ([[pos1 s1] caps1] & [= <- <- <-] & Hin).
    destruct (IHa _ _ _ _ _ _ Hin) as (w & -> & -> & Hw).
    exists w. simpl. auto.
Qed.

(** Every word of the language is found. *)
Lemma matches_complete (r : re) :
  forall pos w s' caps,
    lang r pos w ->
    exists caps', In (pos + length w, s', caps') (matches r pos (w ++ s') caps).
Proof.
  induction r as [| |p|a IHa b IHb|a IHa b IHb|p|i a IHa];
    intros pos w s' caps Hw; simpl in Hw |- *.
  - subst w. simpl. rewrite Nat.add_0_r. exists caps. by left.
  - destruct Hw as [-> ->]. simpl. exists caps. by left.
  - destruct Hw as (c & -> & Hc). simpl. rewrite Hc.
    exists caps. left. f_equal. f_equal. lia.
  - destruct Hw as (w1 & w2 & -> & Hw1 & Hw2).
    destruct (IHa pos w1 (w2 ++ s')%list caps Hw1) as (caps1 & H1).
    destruct (IHb (pos + length w1) w2 s' caps1 Hw2) as (caps2 & H2).
    exists caps2. apply in_flat_map.
    exists (pos + length w1, (w2 ++ s')%list, caps1).
    rewrite <- app_assoc. split; [exact H1|].
    rewrite length_app, Nat.add_assoc. exact H2.
  - destruct Hw as [Hw|Hw].
    + destruct (IHa pos w s' caps Hw) as (caps1 & H1).
      exists caps1. apply in_app_iff. by left.
    + destruct (IHb pos w s' caps Hw) as (caps1 & H1).
      exists caps1. apply in_app_iff. by right.
  - exists caps. apply in_map_iff.
    exists (pos + length w, s'). split; [reflexivity|].
    by apply rep_ends_complete.
  - destruct (IHa pos w s' caps Hw) as (caps1 & H1).
    exists ((i, (pos, pos + length w)) :: caps1). apply in_map_iff.
    by exists (pos + length w, s', caps1).
Qed.

Lemma first_match_sound (r : re) (pos : nat) (s : list ascii) (m : Match) :
  first_match r pos s = Some m ->
  m_start m = pos
  /\ exists w s', s = (w ++ s')%list /\ m_end m = pos + length w /\ lang r pos w.
Proof.
  unfold first_match. intros H.
  destruct (matches r pos s []) as [|[[e s'] caps] rest] eqn:E; [discriminate|].
  injection H as <-. simpl. split; [reflexivity|].
  destruct (matches_sound r pos s [] e s' caps) as (w & -> & -> & Hw).
  { rewrite E. by left. }
  by exists w, s'.
Qed.

Lemma first_match_complete (r : re) (pos : nat) (w s' : list ascii) :
  lang r pos w -> first_match r pos (w ++ s') <> None.
Proof.
  intros Hw. unfold first_match.
  destruct (matches_complete r pos w s' [] Hw) as (caps' & Hin).
  destruct (matches r pos (w ++ s') []) as [|[[e s1] caps] rest];
    [destruct Hin | discriminate].
Qed.

(** What [re.search] finds is a word of the language somewhere in the text. *)
Lemma search_from_sound (r : re) (s : list ascii) :
  forall pos m,
    search_from r pos s = Some m ->
    exists skipped w s',
      s = (skipped ++ w ++ s')%list
      /\ m_start m = pos + length skipped
      /\ m_end m = m_start m + length w
      /\ lang r (m_start m) w.
Proof.
  induction s as [|c s IH]; intros pos m H; simpl in H.
  - destruct (first_match r pos []) as [m'|] eqn:E; [|discriminate].
    injection H as ->.
    destruct (first_match_sound _ _ _ _ E) as (Hs & w & s' & Hw & He & Hl).
    exists [], w, s'. simpl. rewrite Hs, Nat.add_0_r. auto.
  - destruct (first_match r pos (c :: s)) as [m'|] eqn:E.
    + injection H as ->.
      destruct (first_match_sound _ _ _ _ E) as (Hs & w & s' & Hw & He & Hl).
      exists [], w, s'. simpl. rewrite Hs, Nat.add_0_r. auto.
    + destruct (IH _ _ H) as (skipped & w & s' & -> & Hs & He & Hl).
      exists (c :: skipped), w, s'. simpl. split; [reflexivity|].
      split; [lia|]. auto.
Qed.

(** And it finds something whenever such a word is there. *)
Lemma search_from_complete (r : re) (skipped : list ascii) :
  forall pos w s',
    lang r (pos + length skipped) w ->
    search_from r pos (skipped ++ w ++ s') <> None.
Proof.
  induction skipped as [|c skipped IH]; intros pos w s' Hw.
  - simpl in *. rewrite Nat.add_0_r in Hw.
    pose proof (first_match_complete r pos w s' Hw) as Hfm.
    destruct (w ++ s')%list; simpl; destruct (first_match r pos _); congruence.
  - simpl. destruct (first_match r pos _); [discriminate|].
    apply IH. simpl in Hw.
    replace (S pos + length skipped) with (pos + S (length skipped)) by lia.
    exact Hw.
Qed.

End Matcher.

(** ** URL tokens *)

Section UrlTokens.

Import Regex Scenario APICaller.

Local Open Scope nat_scope.

Lemma is_char_ci_lower (a c : ascii) :
  is_char_ci a c = true <-> Text.lower_char c = Text.lower_char a.
Proof. unfold is_char_ci. apply Ascii.eqb_eq. Qed.

Ltac break_lang :=
  repeat match goal with
         | H : exists _, _ |- _ => destruct H
         | H : _ /\ _ |- _ => destruct H
         | H : _ \/ _ |- _ => destruct H
         | H : is_char_ci _ _ = true |- _ => apply is_char_ci_lower in H
         end; subst.

(** A word the URL pattern matches is a prefix followed by URL characters. *)
Lemma lang_url_re_token (pos : nat) (w : list ascii) :
  lang url_re pos w ->
  exists prefix c rest,
    w = (prefix ++ c :: rest)%list
    /\ map Text.lower_char prefix ∈ url_prefixes
    /\ url_char c = true
    /\ Forall (fun x => url_char x = true) rest.
Proof.
  unfold url_re, Plus, Opt. simpl. intros H. break_lang; simpl.
  - (* https:// *)
    eexists [_; _; _; _; _; _; _; _], _, _.
    split; [reflexivity|]. split; [|auto]. simpl.
    repeat match goal with H : Text.lower_char _ = _ |- _ => rewrite H; clear H end.
    apply (bool_decide_unpack _). by vm_compute.
  - (* http:// *)
    eexists [_; _; _; _; _; _; _], _, _.
    split; [reflexivity|]. split; [|auto]. simpl.
    repeat match goal with H : Text.lower_char _ = _ |- _ => rewrite H; clear H end.
    apply (bool_decide_unpack _). by vm_compute.
  - (* www. *)
    eexists [_; _; _; _], _, _.
    split; [reflexivity|]. split; [|auto]. simpl.
    repeat match goal with H : Text.lower_char _ = _ |- _ => rewrite H; clear H end.
    apply (bool_decide_unpack _). by vm_compute.
Qed.

Lemma map_lower_cons_inv (l : list ascii) (c : ascii) (cs : list ascii) :
  map Text.lower_char l = c :: cs ->
  exists x xs, l = x :: xs /\ Text.lower_char x = c /\ map Text.lower_char xs = cs.
Proof. destruct l as [|x xs]; [discriminate|]. intros [= ? ?]. by exists x, xs. Qed.

Ltac break_prefix H :=
  repeat (apply map_lower_cons_inv in H as (? & ? & -> & ? & H));
  apply map_eq_nil in H; subst.

(** A prefix followed by one URL character is a word of the URL pattern. *)
Lemma token_lang_url_re (pos : nat) (prefix : list ascii) (c : ascii) :
  map Text.lower_char prefix ∈ url_prefixes ->
  url_char c = true ->
  lang url_re pos (prefix ++ [c]).
Proof.
  intros Hp Hc. unfold url_prefixes in Hp.
  apply elem_of_cons in Hp as [Hp|Hp];
    [|apply elem_of_cons in Hp as [Hp|Hp];
      [|apply list_elem_of_singleton in Hp]];
    simpl in Hp; break_prefix Hp; unfold url_re, Plus, Opt; simpl.
  - left.
    eexists [_; _; _; _], [_; _; _; _]. split; [reflexivity|]. split.
    + eexists [_], [_; _; _]. split; [reflexivity|]. split; [eexists; split; [reflexivity|]; by apply is_char_ci_lower|].
      eexists [_], [_; _]. split; [reflexivity|]. split; [eexists; split; [reflexivity|]; by apply is_char_ci_lower|].
      eexists [_], [_]. split; [reflexivity|]. split; eexists; (split; [reflexivity|]); by apply is_char_ci_lower.
    + eexists [], [_; _; _; _]. split; [reflexivity|]. split; [by right|].
      eexists [_; _; _], [_]. split; [reflexivity|]. split.
      * eexists [_], [_; _]. split; [reflexivity|]. split; [eexists; split; [reflexivity|]; by apply is_char_ci_lower|].
        eexists [_], [_]. split; [reflexivity|]. split; eexists; (split; [reflexivity|]); by apply is_char_ci_lower.
      * eexists [_], []. split; [reflexivity|]. split; [by eexists|constructor].
  - left.
    eexists [_; _; _; _], [_; _; _; _; _]. split; [reflexivity|]. split.
    + eexists [_], [_; _; _]. split; [reflexivity|]. split; [eexists; split; [reflexivity|]; by apply is_char_ci_lower|].
      eexists [_], [_; _]. split; [reflexivity|]. split; [eexists; split; [reflexivity|]; by apply is_char_ci_lower|].
      eexists [_], [_]. split; [reflexivity|]. split; eexists; (split; [reflexivity|]); by apply is_char_ci_lower.
    + eexists [_], [_; _; _; _]. split; [reflexivity|]. split.
      { left. eexists. split; [reflexivity|]. by apply is_char_ci_lower. }
      eexists [_; _; _], [_]. split; [reflexivity|]. split.
      * eexists [_], [_; _]. split; [reflexivity|]. split; [eexists; split; [reflexivity|]; by apply is_char_ci_lower|].
        eexists [_], [_]. split; [reflexivity|]. split; eexists; (split; [reflexivity|]); by apply is_char_ci_lower.
      * eexists [_], []. split; [reflexivity|]. split; [by eexists|constructor].
  - right.
    eexists [_; _; _], [_; _]. split; [reflexivity|]. split.
    + eexists [_], [_; _]. split; [reflexivity|]. split; [eexists; split; [reflexivity|]; by apply is_char_ci_lower|].
      eexists [_], [_]. split; [reflexivity|]. split; eexists; (split; [reflexivity|]); by apply is_char_ci_lower.
    + eexists [_], [_]. split; [reflexivity|]. split; [eexists; split; [reflexivity|]; by apply is_char_ci_lower|].
      eexists [_], []. split; [reflexivity|]. split; [by eexists|constructor].
Qed.

End UrlTokens.

(** ** Slices of the request text *)

Section Slices.

Import Regex Scenario APICaller.

Lemma chars_of_chars (l : list ascii) : Text.chars (Text.of_chars l) = l.
Proof. apply list_ascii_of_string_of_list_ascii. Qed.

Lemma drop_while_suffix (p : ascii -> bool) (l : list ascii) :
  exists a, l = (a ++ Text.drop_while p l)%list.
Proof.
  induction l as [|c l [a IH]]; simpl.
  - by exists [].
  - destruct (p c).
    + exists (c :: a). simpl. by rewrite <- IH.
    + by exists [].
Qed.

Lemma rstrip_prefix (l : list ascii) :
  exists b, l = (Text.rstrip_chars l ++ b)%list.
Proof.
  unfold Text.rstrip_chars.
  destruct (drop_while_suffix Text.is_space (rev l)) as [a Ha].
  exists (rev a). rewrite <- rev_app_distr, <- Ha. by rewrite rev_involutive.
Qed.

(** [s[n:].strip()] is a piece of [s]. *)
Lemma strip_slice_infix (n : nat) (s : string) :
  exists a b,
    Text.chars s = (a ++ Text.chars (Text.strip (Text.slice_from n s)) ++ b)%list.
Proof.
  unfold Text.strip, Text.slice_from, Text.lstrip_chars.
  rewrite !chars_of_chars.
  destruct (drop_while_suffix Text.is_space (drop n (Text.chars s))) as [a Ha].
  destruct (rstrip_prefix (Text.drop_while Text.is_space (drop n (Text.chars s))))
    as [b Hb].
  exists (take n (Text.chars s) ++ a)%list, b.
  rewrite <- app_assoc, <- Hb, <- Ha. by rewrite take_drop.
Qed.

Lemma url_char_token_char (c : ascii) :
  url_char c = true <-> url_token_char c.
Proof.
  unfold url_char, url_token_char, not_class, or_class, is_char.
  rewrite negb_true_iff, !orb_false_iff, !Ascii.eqb_neq. tauto.
Qed.

Lemma has_url_token_infix (t t' : string) (a b : list ascii) :
  Text.chars t = (a ++ Text.chars t' ++ b)%list ->
  has_url_token t' -> has_url_token t.
Proof.
  intros Ht (before & prefix & c & after & Ht' & Hp & Hc).
  exists (a ++ before)%list, prefix, c, (after ++ b)%list.
  split; [|auto]. rewrite Ht, Ht'. by rewrite <- !app_assoc.
Qed.

(** [re.search] with the URL pattern succeeds exactly on the texts that
    contain a URL token. *)
Lemma search_url_re_token (t : string) (m : Match) :
  search url_re t = Some m -> has_url_token t.
Proof.
  unfold search. intros H.
  destruct (search_from_sound _ _ _ _ H) as (skipped & w & s' & Ht & _ & _ & Hw).
  destruct (lang_url_re_token _ _ Hw) as (prefix & c & rest & -> & Hp & Hc & _).
  exists skipped, prefix, c, (rest ++ s')%list.
  apply url_char_token_char in Hc.
  split; [|auto]. rewrite Ht. by rewrite <- app_assoc.
Qed.

Lemma token_search_url_re (t : string) :
  has_url_token t -> search url_re t <> None.
Proof.
  intros (before & prefix & c & after & Ht & Hp & Hc). unfold search.
  rewrite Ht.
  replace (before ++ prefix ++ c :: after)%list
    with (before ++ (prefix ++ [c]) ++ after)%list
    by (by rewrite <- app_assoc).
  apply search_from_complete. apply token_lang_url_re; [assumption|].
  by apply url_char_token_char.
Qed.

(** Without a URL token in the request, the URL search of the parser finds
    nothing, whether or not a method was stripped first. *)
Lemma no_token_no_url (request : string) :
  ~ has_url_token request ->
  search url_re
    (match search method_re request with
     | Some m => Text.strip (Text.slice_from (m_end m) request)
     | None => request
     end) = None.
Proof.
  intros Hno.
  destruct (search url_re _) as [um|] eqn:E; [|reflexivity].
  exfalso. apply Hno. apply search_url_re_token in E.
  destruct (search method_re request) as [m|]; [|assumption].
  destruct (strip_slice_infix (m_end m) request) as (a & b & Hab).
  by eapply has_url_token_infix.
Qed.

End Slices.

(** C9.  A request text with no URL token (no [http://], [https://] or
    [www.] prefix, in any case, followed by a URL character) makes the
    parser raise its [ValueError]; [call_from_natural_language] then
    returns the error dictionary with [is_success] false, logs the failure
    and sends no HTTP request. *)
Theorem request_without_url_is_rejected :
  forall (python_3_11 : bool)
         (transport : HttpRequest -> result APICaller.HttpResponse)
         (b64encode : string -> string)
         (json_loads : string -> result json)
         (parse_qsl : string -> list (string * string))
         (request : string) (w : World),
    ~ Scenario.has_url_token request ->
    APICaller.parse_natural_language_request json_loads parse_qsl request
    = Raise (ValueError "Could not find a valid URL in the request")
    /\ APICaller.call_from_natural_language python_3_11 transport b64encode json_loads parse_qsl
         request w
       = (Ok (APICaller.mkEnvelope None None None None (Some false) None
                (Some "Failed to process request: Could not find a valid URL in the request")),
          with_log
            (log w ++
               ["Failed to process natural language request: Could not find a valid URL in the request"])
            w)
    /\ http_sent
         (snd (APICaller.call_from_natural_language python_3_11 transport b64encode json_loads
                 parse_qsl request w))
       = http_sent w.
Proof.
  intros python_3_11 transport b64encode json_loads parse_qsl request w Hno.
  assert (Hparse :
    APICaller.parse_natural_language_request json_loads parse_qsl request
    = Raise (ValueError "Could not find a valid URL in the request")).
  { unfold APICaller.parse_natural_language_request.
    pose proof (no_token_no_url request Hno) as Hs.
    destruct (Regex.search APICaller.method_re request) as [m|]; by rewrite Hs. }
  assert (Hcall :
    APICaller.call_from_natural_language python_3_11 transport b64encode json_loads parse_qsl
      request w
    = (Ok (APICaller.mkEnvelope None None None None (Some false) None
             (Some "Failed to process request: Could not find a valid URL in the request")),
       with_log
         (log w ++
            ["Failed to process natural language request: Could not find a valid URL in the request"])
         w)).
  { unfold APICaller.call_from_natural_language, try_except, bind, APICaller.lift.
    rewrite Hparse. reflexivity. }
  split; [exact Hparse|]. split; [exact Hcall|]. by rewrite Hcall.
Qed.

Lemma request_without_url_is_rejected_witness :
  ~ Scenario.has_url_token "GET the users list from example dot com"
  /\ APICaller.parse_natural_language_request Sample.no_json (fun _ => [])
       "GET the users list from example dot com"
     = Raise (ValueError "Could not find a valid URL in the request").
Proof.
  assert (Hno : ~ Scenario.has_url_token "GET the users list from example dot com").
  { intros Ht. apply token_search_url_re in Ht. apply Ht. by vm_compute. }
  split; [exact Hno|].
  exact (proj1 (request_without_url_is_rejected false
                  (fun _ => Raise (ClientError "unreachable")) (fun s => s)
                  Sample.no_json (fun _ => [])
                  "GET the users list from example dot com" Sample.empty_world Hno)).
Defined.



(** C2.  What the parser returns for the sample request of the
    specification: the method, the URL and the bearer-style api_key are as
    stated, but [params] is empty and [x=1] is taken as form data, because
    the URL pattern stops at the question mark. *)
Theorem sample_request_query_goes_to_form_data :
  forall (json_loads : string -> result json)
         (parse_qsl : string -> list (string * string)),
    APICaller.parse_natural_language_request json_loads parse_qsl
      "GET https://api.example.com/users?x=1 token: abc123"
    = Ok (APICaller.mkParsedRequest "GET" "https://api.example.com/users" ∅
            ∅
            (Some {[ "x" := "1" ]})
            None
            (Some {[ "type" := "api_key"; "key" := "Authorization";
                     "value" := "Bearer abc123" ]})
            30%Z true).
Proof. intros json_loads parse_qsl. by vm_compute. Qed.

(** ** The query-string branch of the parser *)

Section QueryBranch.

Import Regex Scenario APICaller.

Local Open Scope nat_scope.

Lemma chars_append (a b : string) :
  Text.chars (a ++ b) = (Text.chars a ++ Text.chars b)%list.
Proof. induction a as [|c a IH]; simpl; [reflexivity | by rewrite <- IH]. Qed.

Lemma contains_char_false (q : ascii) (l : list ascii) :
  ~ In q l -> Text.contains_chars [q] l = false.
Proof.
  induction l as [|c l IH]; intros Hno; simpl.
  - reflexivity.
  - rewrite bool_decide_eq_false_2.
    + apply IH. intros Hin. apply Hno. by right.
    + simpl. rewrite take_0. intros [= ->]. apply Hno. by left.
Qed.

(** A group around a whole pattern spans the whole match. *)
Lemma first_match_group_span (i : nat) (a : re) (pos : nat) (s : list ascii) (m : Match) :
  first_match (Group i a) pos s = Some m ->
  group_span m i = Some (m_start m, m_end m).
Proof.
  unfold first_match. cbn [matches].
  destruct (matches a pos s []) as [|[[e s'] caps] rest]; [discriminate|].
  cbn [map]. intros [= <-]. unfold group_span. cbn [m_groups List.find fst].
  by rewrite Nat.eqb_refl.
Qed.

Lemma search_from_group_span (i : nat) (a : re) (s : list ascii) :
  forall pos m,
    search_from (Group i a) pos s = Some m ->
    group_span m i = Some (m_start m, m_end m).
Proof.
  induction s as [|c s IH]; intros pos m H; cbn [search_from] in H.
  - destruct (first_match (Group i a) pos []) as [m'|] eqn:E; [|discriminate].
    injection H as ->. by eapply first_match_group_span.
  - destruct (first_match (Group i a) pos (c :: s)) as [m'|] eqn:E.
    + injection H as ->. by eapply first_match_group_span.
    + by eapply IH.
Qed.

Lemma url_word_no_question_mark (pos : nat) (w : list ascii) :
  lang url_re pos w -> ~ In "?"%char w.
Proof.
  intros Hw Hin.
  destruct (lang_url_re_token _ _ Hw) as (prefix & c & rest & -> & Hp & Hc & Hrest).
  apply in_app_iff in Hin as [Hin|[->|Hin]].
  - assert (Hl : In (Text.lower_char "?"%char) (map Text.lower_char prefix))
      by (by apply in_map).
    unfold url_prefixes in Hp.
    apply elem_of_cons in Hp as [Hp|Hp];
      [|apply elem_of_cons in Hp as [Hp|Hp];
        [|apply list_elem_of_singleton in Hp]];
      rewrite Hp in Hl; vm_compute in Hl; intuition discriminate.
  - by vm_compute in Hc.
  - rewrite Forall_forall in Hrest.
    apply list_elem_of_In in Hin. specialize (Hrest _ Hin). by vm_compute in Hrest.
Qed.

(** The URL the parser extracts never contains a question mark. *)
Lemma extracted_url_no_question_mark (t : string) (m : Match) :
  search url_re t = Some m ->
  ~ In "?"%char (Text.chars (group t m 1)).
Proof.
  unfold search. intros H.
  pose proof (search_from_group_span _ _ _ _ _ H) as Hspan.
  destruct (search_from_sound _ _ _ _ H) as (skipped & w & s' & Ht & Hs & He & Hw).
  unfold group. rewrite Hspan. unfold Text.slice.
  rewrite chars_of_chars, Ht, He, Hs. simpl.
  rewrite drop_app_length.
  replace (length skipped + length w - length skipped) with (length w) by lia.
  rewrite take_app_length.
  by eapply url_word_no_question_mark.
Qed.

Lemma normalized_url_no_query (t : string) (m : Match) :
  search url_re t = Some m ->
  Text.contains "?"
    (if Text.startswith "http://" (group t m 1)
        || Text.startswith "https://" (group t m 1)
     then group t m 1 else "https://" ++ group t m 1) = false.
Proof.
  intros E. pose proof (extracted_url_no_question_mark _ _ E) as Hno.
  unfold Text.contains.
  destruct (_ || _); apply (contains_char_false "?"%char); [exact Hno|].
  rewrite chars_append. intros Hin. apply in_app_iff in Hin as [Hin|Hin];
    [vm_compute in Hin; intuition discriminate | by apply Hno].
Qed.

(** So the branch that would fill [params] is never taken. *)
Lemma parser_never_fills_params
    (json_loads : string -> result json)
    (parse_qsl : string -> list (string * string))
    (request : string) (parsed : ParsedRequest) :
  parse_natural_language_request json_loads parse_qsl request = Ok parsed ->
  pr_params parsed = ∅.
Proof.
  unfold parse_natural_language_request.
  destruct (search method_re request) as [m|];
    (destruct (search url_re _) as [um|] eqn:E; [|discriminate]);
    rewrite (normalized_url_no_query _ _ E);
    match goal with
    | |- match ?o with Ok _ => _ | Raise _ => _ end = _ -> _ =>
        destruct o; [by intros [= <-] | discriminate]
    end.
Qed.

End QueryBranch.

(** ** The parser on sample requests *)

(** A [www.] match gets the [https://] scheme, the method is upper-cased,
    and [key=value] pairs after the URL become form data. *)
Example parse_www_request :
  APICaller.parse_natural_language_request Sample.no_json (fun _ => [])
    "post www.example.com/items name=pen, qty=2"
  = Ok (APICaller.mkParsedRequest "POST" "https://www.example.com/items" ∅ ∅
          (Some {[ "name" := "pen"; "qty" := "2" ]}) None None 30%Z true).
Proof. by vm_compute. Qed.

(** The scheme test is case-sensitive although the URL pattern is not. *)
Example parse_upper_case_scheme :
  APICaller.pr_url <$>
    (match APICaller.parse_natural_language_request Sample.no_json (fun _ => [])
             "HTTP://example.com/a" with
     | Ok p => Some p
     | Raise _ => None
     end)
  = Some "https://HTTP://example.com/a".
Proof. by vm_compute. Qed.

(** * Further properties of the session store *)

(** ** Exact states after commands that go through *)

Section ExactStates.

Import Scenario SessionManager.

Lemma command_exact {A} (run : World -> A * World) (w : World) :
  quiet w ->
  exists f, Forall (fun x => x = None) f
            /\ Redis.command run w
               = (Ok (fst (run (with_faults f w))), snd (run (with_faults f w))).
Proof.
  unfold quiet, Redis.command. intros Hq.
  destruct (redis_faults w) as [|[msg|] rest] eqn:Hf.
  - exists []. split; [constructor|].
    replace (with_faults [] w) with w by (destruct w; simpl in *; by subst).
    by destruct (run w).
  - inversion Hq; subst. discriminate.
  - exists rest. inversion Hq; subst. split; [assumption|].
    by destruct (run (with_faults rest w)).
Qed.

Lemma get_exact (key : string) (w : World) :
  quiet w ->
  exists f, Forall (fun x => x = None) f
            /\ Redis.get key w = (Ok (Redis.live w key), with_faults f w).
Proof.
  intros Hq. unfold Redis.get.
  destruct (command_exact (fun w => (Redis.live w key, w)) w Hq) as (f & Hf & ->).
  by exists f.
Qed.

Lemma set_exact (key : string) (v : Session) (ex : Z) (w : World) :
  quiet w -> 0 < ex ->
  exists f, Forall (fun x => x = None) f
            /\ Redis.set key v ex w
               = (Ok tt, with_db (<[key := (v, clock w + ex)]> (redis_db w))
                           (with_faults f w)).
Proof.
  intros Hq Hex. unfold Redis.set.
  destruct (Z.leb_spec ex 0) as [?|_]; [lia|].
  destruct (command_exact
              (fun w => (tt, with_db (<[key := (v, clock w + ex)]> (redis_db w)) w))
              w Hq) as (f & Hf & ->).
  by exists f.
Qed.

Variable self : SessionManager.t.
Variable session_id : string.
Hypothesis has_redis : redis self = true.
Hypothesis ttl_positive : 0 < session_expire_seconds self.
Hypothesis id_not_empty : session_id <> "".

Lemma get_session_exact (w : World) :
  quiet w ->
  exists f, Forall (fun x => x = None) f
    /\ get_session self session_id w
       = (Ok (set_updated_at (clock w) <$> Redis.live w (session_key session_id)),
          with_db (Frame.after_get_session self session_id w) (with_faults f w)).
Proof using has_redis ttl_positive id_not_empty.
  intros Hq. unfold get_session, Frame.after_get_session.
  rewrite (truthy_id session_id id_not_empty), has_redis. simpl.
  unfold try_except, bind.
  destruct (get_exact (session_key session_id) w Hq) as (f1 & Hf1 & ->).
  destruct (Redis.live w (session_key session_id)) as [s|]; simpl.
  - destruct (set_exact (session_key session_id) (set_updated_at (clock w) s)
                (session_expire_seconds self) (with_faults f1 w) Hf1 ttl_positive)
      as (f2 & Hf2 & ->).
    exists f2. split; [assumption | reflexivity].
  - exists f1. split; [assumption|]. by destruct w.
Qed.

End ExactStates.

Section ExactHistory.

Import Scenario SessionManager.

Variable self : SessionManager.t.
Variable session_id : string.
Hypothesis has_redis : redis self = true.
Hypothesis ttl_positive : 0 < session_expire_seconds self.
Hypothesis id_not_empty : session_id <> "".

Lemma live_after_get_session (w : World) (f : list (option string)) :
  Redis.live (with_db (Frame.after_get_session self session_id w) (with_faults f w))
    (session_key session_id)
  = set_updated_at (clock w) <$> Redis.live w (session_key session_id).
Proof using ttl_positive.
  unfold Redis.live at 1, Frame.after_get_session. simpl.
  destruct (Redis.live w (session_key session_id)) as [s|] eqn:E; simpl.
  - rewrite lookup_insert_eq.
    destruct (Z.ltb_spec (clock w) (clock w + session_expire_seconds self));
      [reflexivity | lia].
  - exact E.
Qed.

Lemma get_chat_history_exact (w : World) :
  quiet w ->
  exists f, Forall (fun x => x = None) f
    /\ get_chat_history self session_id w
       = (Ok (stored_history w session_id),
          with_db (Frame.after_get_session self session_id w) (with_faults f w)).
Proof using has_redis ttl_positive id_not_empty.
  intros Hq. unfold get_chat_history, bind.
  destruct (get_session_exact self session_id has_redis ttl_positive id_not_empty w Hq)
    as (f & Hf & ->).
  exists f. split; [assumption|]. unfold stored_history.
  destruct (Redis.live w (session_key session_id)) as [s|]; simpl; [|reflexivity].
  rewrite truthy_session_set_updated_at.
  by destruct s as [ca ua da [h|]].
Qed.

(** The session [update_chat_history] writes: the session read (or a new
    one holding only a history), with the extended, truncated history. *)
Lemma update_chat_history_exact (messages : list MessageArg) (w : World) :
  quiet w -> messages <> [] ->
  exists f s',
    Forall (fun x => x = None) f
    /\ update_chat_history self session_id messages w
       = (Ok true,
          with_db (<[session_key session_id :=
                       (s', clock w + session_expire_seconds self)]>
                     (Frame.after_get_session self session_id w))
            (with_faults f w))
    /\ chat_history s'
       = Some (last_n max_history
                 (stored_history w session_id ++ map to_dict messages))
    /\ updated_at s' = Some (clock w)
    /\ created_at s' = (Redis.live w (session_key session_id) ≫= created_at)
    /\ data s' = (Redis.live w (session_key session_id) ≫= data).
Proof using has_redis ttl_positive id_not_empty.
  intros Hq Hne. unfold update_chat_history.
  rewrite (truthy_id session_id id_not_empty), has_redis.
  destruct messages as [|m0 ms]; [congruence|].
  cbn [negb orb truthy_list]. unfold try_except, bind.
  destruct (get_session_exact self session_id has_redis ttl_positive id_not_empty w Hq)
    as (f1 & Hf1 & ->).
  unfold utcnow. cbv iota beta.
  match goal with
  | |- context [Redis.set ?k ?v ?ex ?w0] =>
      destruct (set_exact k v ex w0 Hf1 ttl_positive) as (f2 & Hf2 & ->);
      exists f2, v
  end.
  split; [assumption|]. split; [reflexivity|].
  unfold stored_history.
  destruct (Redis.live w (session_key session_id)) as [s|]; simpl.
  - rewrite truthy_session_set_updated_at.
    destruct s as [ca ua da [h|]]; simpl; auto.
  - auto.
Qed.

End ExactHistory.

(** X1.  Read-your-writes until expiry: on a store that answers, what
    [get_chat_history] returns [d] seconds after a successful
    [update_chat_history] is the truncated, extended history as long as [d]
    is below the expiry period, and the empty list from then on. *)
Theorem history_read_back_until_expiry :
  forall (self : SessionManager.t) (session_id : string)
         (messages : list MessageArg) (w : World) (d : Z),
    SessionManager.redis self = true ->
    0 < SessionManager.session_expire_seconds self ->
    session_id <> "" ->
    Scenario.quiet w -> messages <> [] -> 0 <= d ->
    fst (SessionManager.get_chat_history self session_id
           (sleep d (snd (SessionManager.update_chat_history self session_id
                            messages w))))
    = Ok (if d <? SessionManager.session_expire_seconds self
          then last_n 50 (Scenario.stored_history w session_id ++ map to_dict messages)
          else []).
Proof.
  intros self session_id messages w d Hr Httl Hid Hq Hne Hd.
  destruct (update_chat_history_exact self session_id Hr Httl Hid messages w Hq Hne)
    as (f & s' & Hf & -> & Hh & _).
  cbn [snd].
  match goal with
  | |- context [SessionManager.get_chat_history _ _ ?w1] =>
      assert (Hq1 : Scenario.quiet w1) by exact Hf;
      destruct (get_chat_history_exact self session_id Hr Httl Hid w1 Hq1)
        as (f2 & _ & ->)
  end.
  cbn [fst]. f_equal.
  unfold Scenario.stored_history at 1, Redis.live, sleep. simpl.
  rewrite lookup_insert_eq.
  destruct (Z.ltb_spec (clock w + d) (clock w + SessionManager.session_expire_seconds self));
    destruct (Z.ltb_spec d (SessionManager.session_expire_seconds self)); try lia.
  - by rewrite Hh.
  - reflexivity.
Qed.

Lemma history_read_back_until_expiry_witness :
  fst (SessionManager.get_chat_history Sample.manager "abc"
         (sleep 100 (snd (SessionManager.update_chat_history Sample.manager "abc"
                            [AsDict Sample.thanks] Sample.busy_world))))
  = Ok [Sample.hello; Sample.hi; Sample.thanks].
Proof.
  exact (history_read_back_until_expiry Sample.manager "abc" [AsDict Sample.thanks]
           Sample.busy_world 100 eq_refl eq_refl
           ltac:(discriminate) ltac:(constructor) ltac:(discriminate) ltac:(lia)).
Defined.

(** X2.  Creating a session on a store that answers returns the drawn id and
    stores a session with an empty history, the initial data (or an empty
    mapping) and both time stamps at the current time, due to expire one
    period later; reading its history within that period gives the empty
    list. *)
Theorem create_session_round_trip :
  forall (self : SessionManager.t) (fresh_id : string)
         (initial_data : option (gmap string json)) (w : World),
    SessionManager.redis self = true ->
    0 < SessionManager.session_expire_seconds self ->
    fresh_id <> "" ->
    Scenario.quiet w ->
    exists w',
      SessionManager.create_session self fresh_id initial_data w = (Ok fresh_id, w')
      /\ redis_db w' !! SessionManager.session_key fresh_id
         = Some (mkSession (Some (clock w)) (Some (clock w))
                   (Some (default ∅ initial_data)) (Some []),
                 clock w + SessionManager.session_expire_seconds self)
      /\ (forall k, k <> SessionManager.session_key fresh_id ->
                    redis_db w' !! k = redis_db w !! k)
      /\ (forall d, 0 <= d < SessionManager.session_expire_seconds self ->
            fst (SessionManager.get_chat_history self fresh_id (sleep d w')) = Ok []).
Proof.
  intros self fresh_id initial_data w Hr Httl Hid Hq.
  unfold SessionManager.create_session, bind, utcnow. rewrite Hr.
  unfold try_except.
  match goal with
  | |- context [Redis.set ?k ?v ?ex w] =>
      destruct (set_exact k v ex w Hq Httl) as (f & Hf & ->)
  end.
  eexists. split; [reflexivity|]. split; [apply lookup_insert_eq|].
  split; [intros k Hk; by apply lookup_insert_ne|].
  intros d Hd.
  match goal with
  | |- context [SessionManager.get_chat_history _ _ ?w1] =>
      assert (Hq1 : Scenario.quiet w1) by exact Hf;
      destruct (get_chat_history_exact self fresh_id Hr Httl Hid w1 Hq1)
        as (f2 & _ & ->)
  end.
  cbn [fst]. f_equal.
  unfold Scenario.stored_history, Redis.live, sleep. simpl.
  rewrite lookup_insert_eq.
  by destruct (_ <? _).
Qed.

Lemma create_session_round_trip_witness :
  exists w',
    SessionManager.create_session Sample.manager "new-id" None Sample.busy_world
    = (Ok "new-id", w')
    /\ redis_db w' !! "session:new-id"
       = Some (mkSession (Some 1000) (Some 1000) (Some ∅) (Some []), 87400)
    /\ redis_db w' !! "session:abc" = redis_db Sample.busy_world !! "session:abc".
Proof.
  destruct (create_session_round_trip Sample.manager "new-id" None Sample.busy_world
              eq_refl eq_refl ltac:(discriminate) ltac:(constructor))
    as (w' & H1 & H2 & H3 & _).
  exists w'. split; [exact H1|]. split; [exact H2|].
  apply H3. discriminate.
Defined.

(** X3.  Sliding expiry: a read that goes through writes the session back
    with the deadline one full period after the read, so the session is
    still there at any later time within that period, however close to its
    old deadline the read was; without the read it is gone once the old
    deadline has passed. *)
Theorem get_session_slides_expiry :
  forall (self : SessionManager.t) (session_id : string) (w : World)
         (s : Session) (deadline d : Z),
    SessionManager.redis self = true ->
    0 < SessionManager.session_expire_seconds self ->
    session_id <> "" ->
    Scenario.quiet w ->
    redis_db w !! SessionManager.session_key session_id = Some (s, deadline) ->
    clock w < deadline ->
    0 <= d < SessionManager.session_expire_seconds self ->
    exists w',
      SessionManager.get_session self session_id w
      = (Ok (Some (set_updated_at (clock w) s)), w')
      /\ Redis.live (sleep d w') (SessionManager.session_key session_id)
         = Some (set_updated_at (clock w) s)
      /\ (deadline <= clock w + d ->
          Redis.live (sleep d w) (SessionManager.session_key session_id) = None).
Proof.
  intros self session_id w s deadline d Hr Httl Hid Hq Hdb Hlive Hd.
  destruct (get_session_exact self session_id Hr Httl Hid w Hq) as (f & Hf & Hgs).
  assert (Hl : Redis.live w (SessionManager.session_key session_id) = Some s).
  { unfold Redis.live. rewrite Hdb.
    destruct (Z.ltb_spec (clock w) deadline); [reflexivity | lia]. }
  rewrite Hl in Hgs. eexists. split; [exact Hgs|]. split.
  - unfold Redis.live, sleep, Frame.after_get_session. simpl. rewrite Hl.
    rewrite lookup_insert_eq.
    destruct (Z.ltb_spec (clock w + d)
                (clock w + SessionManager.session_expire_seconds self));
      [reflexivity | lia].
  - intros Hpast. unfold Redis.live, sleep. simpl. rewrite Hdb.
    destruct (Z.ltb_spec (clock w + d) deadline); [lia | reflexivity].
Qed.

Lemma get_session_slides_expiry_witness :
  exists w',
    SessionManager.get_session Sample.manager "abc" (sleep 86000 Sample.busy_world)
    = (Ok (Some (set_updated_at 87000 Sample.stored_session)), w')
    /\ Redis.live (sleep 86000 w') "session:abc"
       = Some (set_updated_at 87000 Sample.stored_session)
    /\ Redis.live (sleep 86000 (sleep 86000 Sample.busy_world)) "session:abc" = None.
Proof.
  destruct (get_session_slides_expiry Sample.manager "abc"
              (sleep 86000 Sample.busy_world) Sample.stored_session 87300 86000
              eq_refl eq_refl ltac:(discriminate) ltac:(constructor)
              eq_refl eq_refl ltac:(split; [discriminate | reflexivity]))
    as (w' & H1 & H2 & H3).
  exists w'. split; [exact H1|]. split; [exact H2|].
  apply H3. discriminate.
Defined.

(** X4.  [update_session] on a live session that has a data mapping merges
    the given entries over the stored ones (a given key wins), refreshes the
    time stamp and the deadline, and leaves the creation time and the chat
    history as they were. *)
Theorem update_session_merges_data :
  forall (self : SessionManager.t) (session_id : string)
         (d old : gmap string json) (s : Session) (w : World),
    SessionManager.redis self = true ->
    0 < SessionManager.session_expire_seconds self ->
    session_id <> "" ->
    Scenario.quiet w ->
    d <> ∅ ->
    Redis.live w (SessionManager.session_key session_id) = Some s ->
    data s = Some old ->
    exists w',
      SessionManager.update_session self session_id d w = (Ok true, w')
      /\ redis_db w' !! SessionManager.session_key session_id
         = Some (mkSession (created_at s) (Some (clock w)) (Some (d ∪ old))
                   (chat_history s),
                 clock w + SessionManager.session_expire_seconds self)
      /\ (forall k v, d !! k = Some v -> (d ∪ old) !! k = Some v)
      /\ (forall k, d !! k = None -> (d ∪ old) !! k = old !! k)
      /\ Scenario.stored_history w' session_id = Scenario.stored_history w session_id.
Proof.
  intros self session_id d old s w Hr Httl Hid Hq Hd Hl Hdata.
  unfold SessionManager.update_session.
  rewrite (truthy_id session_id Hid), Hr.
  rewrite bool_decide_eq_false_2 by assumption. cbn [negb orb].
  unfold try_except, bind.
  destruct (get_session_exact self session_id Hr Httl Hid w Hq) as (f1 & Hf1 & ->).
  rewrite Hl. cbn [fmap option_fmap option_map].
  rewrite truthy_session_set_updated_at. cbn [negb].
  replace (data (set_updated_at (clock w) s)) with (Some old)
    by (by destruct s; simpl in *).
  unfold utcnow. cbv iota beta.
  match goal with
  | |- context [Redis.set ?k ?v ?ex ?w0] =>
      destruct (set_exact k v ex w0 Hf1 Httl) as (f2 & Hf2 & ->)
  end.
  eexists. split; [reflexivity|]. split.
  { simpl. rewrite lookup_insert_eq. by destruct s. }
  split; [intros k v Hk; by apply lookup_union_Some_l|].
  split; [intros k Hk; by apply lookup_union_r|].
  unfold Scenario.stored_history, Redis.live. simpl.
  rewrite lookup_insert_eq.
  destruct (Z.ltb_spec (clock w) (clock w + SessionManager.session_expire_seconds self));
    [|lia].
  unfold Redis.live in Hl. rewrite Hl. by destruct s.
Qed.

Lemma update_session_merges_data_witness :
  exists w',
    SessionManager.update_session Sample.manager "abc" {[ "theme" := JStr "dark" ]}
      Sample.busy_world = (Ok true, w')
    /\ redis_db w' !! "session:abc"
       = Some (mkSession (Some 900) (Some 1000) (Some {[ "theme" := JStr "dark" ]})
                 (Some [Sample.hello; Sample.hi]), 87400).
Proof.
  destruct (update_session_merges_data Sample.manager "abc"
              {[ "theme" := JStr "dark" ]} ∅ Sample.stored_session Sample.busy_world
              eq_refl eq_refl ltac:(discriminate) ltac:(constructor)
              ltac:(apply insert_non_empty) eq_refl eq_refl)
    as (w' & H1 & H2 & _).
  exists w'. split; [exact H1|]. etrans; [exact H2|]. reflexivity.
Defined.

(** X5.  [update_session] refuses without writing: with an empty id, empty
    data or no Redis client it returns [False] and changes nothing at all,
    and for a session that is absent or expired it returns [False] and
    leaves the store as it was, whether or not Redis answers. *)
Theorem update_session_needs_a_session :
  forall (self : SessionManager.t) (session_id : string)
         (d : gmap string json) (w : World),
    (session_id = "" \/ d = ∅ \/ SessionManager.redis self = false ->
     SessionManager.update_session self session_id d w = (Ok false, w))
    /\ (Redis.live w (SessionManager.session_key session_id) = None ->
        exists w',
          SessionManager.update_session self session_id d w = (Ok false, w')
          /\ redis_db w' = redis_db w).
Proof.
  intros self session_id d w. split.
  - intros [-> | [-> | Hr]]; unfold SessionManager.update_session.
    + reflexivity.
    + rewrite bool_decide_eq_true_2 by reflexivity. by rewrite orb_true_r.
    + rewrite Hr. by destruct (_ || _).
  - intros Hl. unfold SessionManager.update_session.
    destruct (_ || _); [by eexists|].
    destruct (SessionManager.redis self) eqn:Hr; [|by eexists].
    unfold try_except, bind, SessionManager.get_session.
    destruct (negb (truthy_str session_id)); [by eexists|].
    rewrite Hr. unfold try_except, bind, Redis.get, Redis.command.
    destruct (redis_faults w) as [|[msg|] rest]; simpl.
    + rewrite Hl. by eexists.
    + by eexists.
    + change (Redis.live (with_faults rest w) (SessionManager.session_key session_id))
        with (Redis.live w (SessionManager.session_key session_id)).
      rewrite Hl. by eexists.
Qed.

(** X6.  When Redis accepts the command, [delete_session] removes exactly
    the session's key, reports whether a live session was there, and every
    later [get_chat_history] of that id returns the empty list until the
    session is written again. *)
Theorem delete_session_then_history_empty :
  forall (self : SessionManager.t) (session_id : string) (w : World),
    SessionManager.redis self = true ->
    session_id <> "" ->
    Scenario.next_fault w = None ->
    exists w',
      SessionManager.delete_session self session_id w
      = (Ok (bool_decide (is_Some (Redis.live w (SessionManager.session_key session_id)))),
         w')
      /\ redis_db w' = base.delete (SessionManager.session_key session_id) (redis_db w)
      /\ (forall d, exists w'',
            SessionManager.get_chat_history self session_id (sleep d w') = (Ok [], w'')).
Proof.
  intros self session_id w Hr Hid Hf.
  unfold SessionManager.delete_session.
  rewrite (truthy_id session_id Hid), Hr. cbn [negb].
  unfold try_except, bind, Redis.delete, Redis.command.
  unfold Scenario.next_fault in Hf.
  assert (Hgone : forall w' d,
            redis_db w' = base.delete (SessionManager.session_key session_id) (redis_db w) ->
            exists w'', SessionManager.get_chat_history self session_id (sleep d w')
                        = (Ok [], w'')).
  { intros w' d Hdb. apply get_chat_history_not_live.
    unfold Redis.live, sleep. simpl. by rewrite Hdb, lookup_delete_eq. }
  destruct (redis_faults w) as [|[msg|] rest] eqn:Hfw; [|discriminate|].
  - destruct (Redis.live w _) eqn:El; simpl;
      (eexists; split; [reflexivity|]; split; [reflexivity|]);
      intros d; by apply Hgone.
  - change (Redis.live (with_faults rest w) (SessionManager.session_key session_id))
      with (Redis.live w (SessionManager.session_key session_id)).
    destruct (Redis.live w _) eqn:El; simpl;
      (eexists; split; [reflexivity|]; split; [reflexivity|]);
      intros d; by apply Hgone.
Qed.

Lemma delete_session_then_history_empty_witness :
  Scenario.stored_history Sample.busy_world "abc" = [Sample.hello; Sample.hi]
  /\ exists w',
       SessionManager.delete_session Sample.manager "abc" Sample.busy_world
       = (Ok true, w')
       /\ exists w'', SessionManager.get_chat_history Sample.manager "abc" (sleep 5 w')
                      = (Ok [], w'').
Proof.
  split; [reflexivity|].
  destruct (delete_session_then_history_empty Sample.manager "abc" Sample.busy_world
              eq_refl ltac:(discriminate) eq_refl) as (w' & H1 & _ & H3).
  exists w'. split; [exact H1 | exact (H3 5)].
Defined.

(** ** Each operation touches only its own session *)

Section TouchesOnly.

Import Scenario SessionManager Frame.

Lemma touches_only_ret (key : string) {A} (a : A) : touches_only key (ret a).
Proof. intros w. by split. Qed.

Lemma touches_only_raise (key : string) {A} (e : exn) :
  touches_only key (@raise World A e).
Proof. intros w. by split. Qed.

Lemma touches_only_log (key msg : string) : touches_only key (log_msg msg).
Proof. intros w. by split. Qed.

Lemma touches_only_utcnow (key : string) : touches_only key utcnow.
Proof. intros w. by split. Qed.

Lemma touches_only_bind (key : string) {A B} (m : Py A) (k : A -> Py B) :
  touches_only key m -> (forall a, touches_only key (k a)) ->
  touches_only key (bind m k).
Proof.
  intros Hm Hk w. unfold bind. destruct (Hm w) as [Hc Hdb].
  destruct (m w) as [[a|e] w1]; simpl in *; [|by split].
  destruct (Hk a w1) as [Hc1 Hdb1]. split; [congruence|].
  intros k0 Hk0. rewrite Hdb1 by assumption. by apply Hdb.
Qed.

Lemma touches_only_try (key : string) {A} (body : Py A) (handler : exn -> Py A) :
  touches_only key body -> (forall e, touches_only key (handler e)) ->
  touches_only key (try_except body handler).
Proof.
  intros Hb Hh w. unfold try_except. destruct (Hb w) as [Hc Hdb].
  destruct (body w) as [[a|e] w1]; simpl in *; [by split|].
  destruct (Hh e w1) as [Hc1 Hdb1]. split; [congruence|].
  intros k0 Hk0. rewrite Hdb1 by assumption. by apply Hdb.
Qed.

Lemma touches_only_command (key : string) {A} (run : World -> A * World) :
  (forall w, clock (snd (run w)) = clock w
             /\ forall k, k <> key -> redis_db (snd (run w)) !! k = redis_db w !! k) ->
  touches_only key (Redis.command run).
Proof.
  intros Hrun w. unfold Redis.command.
  destruct (redis_faults w) as [|[msg|] rest].
  - specialize (Hrun w). by destruct (run w).
  - by split.
  - specialize (Hrun (with_faults rest w)). by destruct (run (with_faults rest w)).
Qed.

Lemma touches_only_get (key k0 : string) : touches_only key (Redis.get k0).
Proof. apply touches_only_command. intros w. by split. Qed.

Lemma touches_only_set (key : string) (v : Session) (ex : Z) :
  touches_only key (Redis.set key v ex).
Proof.
  unfold Redis.set. destruct (ex <=? 0).
  - apply touches_only_bind; [|intros; apply touches_only_raise].
    apply touches_only_command. intros w. by split.
  - apply touches_only_command. intros w. split; [reflexivity|].
    intros k Hk. simpl. by apply lookup_insert_ne.
Qed.

Lemma touches_only_delete (key : string) : touches_only key (Redis.delete key).
Proof.
  unfold Redis.delete. apply touches_only_command. intros w.
  destruct (Redis.live w key); (split; [reflexivity|]);
    intros k Hk; simpl; by apply lookup_delete_ne.
Qed.

Ltac touches_only_step :=
  first
    [ apply touches_only_ret | apply touches_only_raise | apply touches_only_log
    | apply touches_only_utcnow | apply touches_only_get | apply touches_only_set
    | apply touches_only_delete
    | apply touches_only_bind; [|intros ?]
    | apply touches_only_try; [|intros ?]
    | match goal with
      | |- touches_only _ (if ?b then _ else _) => destruct b
      | |- touches_only _ (match ?x with _ => _ end) => destruct x
      end ].

Lemma touches_only_get_session (self : t) (sid : string) :
  touches_only (session_key sid) (get_session self sid).
Proof. unfold get_session. repeat touches_only_step. Qed.

Lemma touches_only_op (self : t) (o : op) :
  match o with
  | CreateSession fresh_id d =>
      touches_only (session_key fresh_id) (create_session self fresh_id d)
  | GetSession sid => touches_only (session_key sid) (get_session self sid)
  | UpdateSession sid d => touches_only (session_key sid) (update_session self sid d)
  | DeleteSession sid => touches_only (session_key sid) (delete_session self sid)
  | GetChatHistory sid => touches_only (session_key sid) (get_chat_history self sid)
  | UpdateChatHistory sid msgs =>
      touches_only (session_key sid) (update_chat_history self sid msgs)
  | ClearChatHistory sid => touches_only (session_key sid) (clear_chat_history self sid)
  | ClearSession sid => touches_only (session_key sid) (clear_session self sid)
  end.
Proof.
  destruct o;
    unfold create_session, update_session, delete_session, get_chat_history,
      clear_chat_history, clear_session, update_chat_history, delete_session;
    repeat first [apply touches_only_get_session | touches_only_step].
Qed.

Lemma session_key_inj (a b : string) : session_key a = session_key b -> a = b.
Proof.
  unfold session_key. intros H. cbv [append] in H. by injection H.
Qed.

End TouchesOnly.

(** X7.  Sessions are isolated: whatever an operation on one session id
    does, and whether or not Redis answers, the entry and the stored history
    of every other session id are exactly as before. *)
Theorem operations_leave_other_sessions_alone :
  forall (self : SessionManager.t) (o : Scenario.op) (other : string) (w : World),
    other <> Frame.op_session o ->
    redis_db (Scenario.run_op self o w) !! SessionManager.session_key other
    = redis_db w !! SessionManager.session_key other
    /\ Scenario.stored_history (Scenario.run_op self o w) other
       = Scenario.stored_history w other.
Proof.
  intros self o other w Hne.
  assert (Hkey : SessionManager.session_key other
                 <> SessionManager.session_key (Frame.op_session o)).
  { intros H. apply Hne. by apply session_key_inj. }
  pose proof (touches_only_op self o) as Hop.
  assert (H : clock (Scenario.run_op self o w) = clock w
              /\ redis_db (Scenario.run_op self o w) !! SessionManager.session_key other
                 = redis_db w !! SessionManager.session_key other).
  { destruct o; simpl in *; destruct (Hop w) as [Hc Hdb]; split; auto. }
  destruct H as [Hc Hdb]. split; [exact Hdb|].
  unfold Scenario.stored_history, Redis.live. by rewrite Hdb, Hc.
Qed.

Lemma operations_leave_other_sessions_alone_witness :
  Scenario.stored_history
    (Scenario.run_op Sample.manager (Scenario.DeleteSession "xyz") Sample.busy_world)
    "abc"
  = [Sample.hello; Sample.hi]
  /\ Scenario.stored_history
       (Scenario.run_op Sample.manager
          (Scenario.UpdateChatHistory "xyz" [AsDict Sample.thanks]) Sample.busy_world)
       "abc"
     = [Sample.hello; Sample.hi].
Proof.
  split.
  - exact (proj2 (operations_leave_other_sessions_alone Sample.manager
                    (Scenario.DeleteSession "xyz") "abc" Sample.busy_world
                    ltac:(discriminate))).
  - exact (proj2 (operations_leave_other_sessions_alone Sample.manager
                    (Scenario.UpdateChatHistory "xyz" [AsDict Sample.thanks]) "abc"
                    Sample.busy_world ltac:(discriminate))).
Defined.

(** X8.  A read error costs the old history: when the Redis read inside
    [update_chat_history] raises and the write that follows goes through,
    the error is logged by [get_session], the call returns [True], and the
    stored history is replaced by the last 50 of the new messages alone. *)
Theorem failed_read_replaces_history :
  forall (self : SessionManager.t) (session_id : string)
         (messages : list MessageArg) (w : World)
         (msg : string) (rest : list (option string)),
    SessionManager.redis self = true ->
    0 < SessionManager.session_expire_seconds self ->
    session_id <> "" ->
    messages <> [] ->
    redis_faults w = Some msg :: rest ->
    Forall (fun x => x = None) rest ->
    exists w',
      SessionManager.update_chat_history self session_id messages w = (Ok true, w')
      /\ Scenario.stored_history w' session_id = last_n 50 (map to_dict messages)
      /\ log w' = (log w ++ [("Error getting session from Redis: " ++ msg)%string])%list.
Proof.
  intros self session_id messages w msg rest Hr Httl Hid Hne Hf Hrest.
  unfold SessionManager.update_chat_history.
  rewrite (truthy_id session_id Hid), Hr.
  destruct messages as [|m0 ms]; [congruence|].
  cbn [negb orb truthy_list]. unfold try_except at 1, bind at 1.
  assert (Hgs : SessionManager.get_session self session_id w
                = (Ok None,
                   with_log (log w ++ ["Error getting session from Redis: " ++ msg])
                     (with_faults rest w))).
  { unfold SessionManager.get_session.
    rewrite (truthy_id session_id Hid), Hr. cbn [negb].
    unfold try_except, bind.
    rewrite (get_fault _ w msg) by (unfold Scenario.next_fault; by rewrite Hf).
    rewrite Hf. reflexivity. }
  rewrite Hgs. unfold bind, utcnow. cbv iota beta.
  match goal with
  | |- context [Redis.set ?k ?v ?ex ?w0] =>
      destruct (set_exact k v ex w0 Hrest Httl) as (f2 & Hf2 & ->)
  end.
  eexists. split; [reflexivity|]. split; [|reflexivity].
  unfold Scenario.stored_history, Redis.live. simpl.
  rewrite lookup_insert_eq.
  by destruct (Z.ltb_spec (clock w) (clock w + SessionManager.session_expire_seconds self));
    [|lia].
Qed.

Lemma failed_read_replaces_history_witness :
  Scenario.stored_history Sample.failing_world "abc" = [Sample.hello; Sample.hi]
  /\ exists w',
       SessionManager.update_chat_history Sample.manager "abc" [AsDict Sample.thanks]
         Sample.failing_world = (Ok true, w')
       /\ Scenario.stored_history w' "abc" = [Sample.thanks].
Proof.
  split; [reflexivity|].
  destruct (failed_read_replaces_history Sample.manager "abc" [AsDict Sample.thanks]
              Sample.failing_world "Connection refused" []
              eq_refl eq_refl ltac:(discriminate) ltac:(discriminate) eq_refl
              ltac:(constructor)) as (w' & H1 & H2 & _).
  exists w'. split; [exact H1 | exact H2].
Defined.

(** X9.  Without a Redis client the manager stores nothing: every operation
    returns its fallback value ([create_session] still the drawn id, reads
    nothing, updates and deletes [False]) and leaves the state, log
    included, exactly as it was. *)
Theorem without_client_nothing_is_stored :
  forall (self : SessionManager.t) (w : World),
    SessionManager.redis self = false ->
    (forall fresh_id d,
        SessionManager.create_session self fresh_id d w = (Ok fresh_id, w))
    /\ (forall sid, SessionManager.get_session self sid w = (Ok None, w))
    /\ (forall sid, SessionManager.get_chat_history self sid w = (Ok [], w))
    /\ (forall sid d, SessionManager.update_session self sid d w = (Ok false, w))
    /\ (forall sid msgs,
          SessionManager.update_chat_history self sid msgs w = (Ok false, w))
    /\ (forall sid, SessionManager.delete_session self sid w = (Ok false, w))
    /\ (forall o, Scenario.run_op self o w = w).
Proof.
  intros self w Hr.
  assert (H1 : forall fresh_id d,
             SessionManager.create_session self fresh_id d w = (Ok fresh_id, w)).
  { intros. unfold SessionManager.create_session, bind, utcnow. by rewrite Hr. }
  assert (H2 : forall sid, SessionManager.get_session self sid w = (Ok None, w)).
  { intros. unfold SessionManager.get_session. rewrite Hr. by destruct (negb _). }
  assert (H3 : forall sid, SessionManager.get_chat_history self sid w = (Ok [], w)).
  { intros. unfold SessionManager.get_chat_history, bind. by rewrite H2. }
  assert (H4 : forall sid d, SessionManager.update_session self sid d w = (Ok false, w)).
  { intros. unfold SessionManager.update_session. rewrite Hr. by destruct (_ || _). }
  assert (H5 : forall sid msgs,
             SessionManager.update_chat_history self sid msgs w = (Ok false, w)).
  { intros. unfold SessionManager.update_chat_history. rewrite Hr. by destruct (_ || _). }
  assert (H6 : forall sid, SessionManager.delete_session self sid w = (Ok false, w)).
  { intros. unfold SessionManager.delete_session. rewrite Hr. by destruct (negb _). }
  repeat (split; [assumption|]).
  intros o. destruct o; simpl;
    unfold SessionManager.clear_chat_history, SessionManager.clear_session;
    by rewrite ?H1, ?H2, ?H3, ?H4, ?H5, ?H6.
Qed.

Lemma without_client_nothing_is_stored_witness :
  SessionManager.create_session (SessionManager.mk false 86400) "new-id" None
    Sample.busy_world = (Ok "new-id", Sample.busy_world)
  /\ SessionManager.get_chat_history (SessionManager.mk false 86400) "abc"
       Sample.busy_world = (Ok [], Sample.busy_world).
Proof.
  destruct (without_client_nothing_is_stored (SessionManager.mk false 86400)
              Sample.busy_world eq_refl) as (H1 & _ & H3 & _).
  split; [apply H1 | apply H3].
Defined.

(** * Further properties of the handlers *)

Section ChatComposition.

Import Scenario SessionManager Frame.

Variable self : SessionManager.t.
Variable ainvoke : AgentInput -> result MultiAgent.AgentResult.
Hypothesis has_redis : redis self = true.
Hypothesis ttl_positive : 0 < session_expire_seconds self.

Lemma arun_leaves_redis (messages : list MessageArg) :
  leaves_redis (MultiAgent.arun ainvoke messages).
Proof.
  intros w. unfold MultiAgent.arun, try_except.
  destruct (MultiAgent.convert messages) as [ch last].
  destruct (MultiAgent.falsy_opt_str last); [by simpl|].
  unfold bind, MultiAgent.invoke.
  destruct (ainvoke _) as [res|e]; by simpl.
Qed.

Lemma map_to_dict_AsDict (l : list Message) : map to_dict (map AsDict l) = l.
Proof. induction l as [|m l IH]; simpl; [reflexivity | by rewrite IH]. Qed.

Lemma update_chat_history_stored (sid : string) (messages : list MessageArg) (w : World) :
  sid <> "" -> quiet w -> messages <> [] ->
  exists w',
    update_chat_history self sid messages w = (Ok true, w')
    /\ stored_history w' sid
       = last_n max_history (stored_history w sid ++ map to_dict messages)
    /\ (exists s', redis_db w' !! session_key sid
                   = Some (s', clock w + session_expire_seconds self)
                   /\ created_at s' = (Redis.live w (session_key sid) ≫= created_at)).
Proof using has_redis ttl_positive.
  intros Hid Hq Hne.
  destruct (update_chat_history_exact self sid has_redis ttl_positive Hid messages w Hq Hne)
    as (f & s' & Hf & -> & Hh & _ & Hca & _).
  eexists. split; [reflexivity|]. split.
  - unfold stored_history at 1, Redis.live. simpl. rewrite lookup_insert_eq.
    destruct (Z.ltb_spec (clock w) (clock w + session_expire_seconds self)); [|lia].
    by rewrite Hh.
  - exists s'. simpl. by rewrite lookup_insert_eq.
Qed.

(** What the handler does once the session id is known. *)
Lemma chat_with_session (sid fresh_id : string) (request : Routes.ChatRequest)
    (w0 w : World) :
  sid <> "" -> quiet w ->
  (match Routes.cr_session_id request with
   | Some s => if truthy_str s then ret s else create_session self fresh_id None
   | None => create_session self fresh_id None
   end) w0 = (Ok sid, w) ->
  exists resp w',
    Routes.chat self ainvoke fresh_id request w0 = (Ok resp, w')
    /\ Routes.resp_session_id resp = sid
    /\ role (Routes.resp_message resp) = MultiAgent.ASSISTANT
    /\ stored_history w' sid
       = last_n max_history
           (stored_history w sid
              ++ (stored_history w sid ++ Routes.cr_messages request
                    ++ [Routes.resp_message resp]))
    /\ (exists s', redis_db w' !! session_key sid
                   = Some (s', clock w + session_expire_seconds self)
                   /\ created_at s' = (Redis.live w (session_key sid) ≫= created_at)).
Proof using has_redis ttl_positive.
  intros Hid Hq Hsid. unfold Routes.chat, try_except. unfold bind at 1.
  rewrite Hsid. unfold bind at 1.
  destruct (get_chat_history_exact self sid has_redis ttl_positive Hid w Hq)
    as (f & Hf & ->).
  set (w1 := with_db (after_get_session self sid w) (with_faults f w)).
  unfold bind at 1.
  destruct (arun_returns ainvoke
              (map AsDict (stored_history w sid ++ Routes.cr_messages request)) w1)
    as (reply & w2 & Heq & Hrole).
  pose proof (arun_leaves_redis
                (map AsDict (stored_history w sid ++ Routes.cr_messages request)) w1)
    as Hw2.
  rewrite Heq in Hw2. cbn [snd] in Hw2. destruct Hw2 as (Hc2 & Hdb2 & Hf2).
  rewrite Heq.
  assert (Hq2 : quiet w2) by (unfold quiet; rewrite Hf2; exact Hf).
  assert (Hst2 : stored_history w2 sid = stored_history w sid).
  { unfold stored_history at 1, Redis.live. rewrite Hdb2, Hc2.
    pose proof (live_after_get_session self sid ttl_positive w f) as Hl.
    unfold Redis.live at 1 in Hl. fold w1 in Hl. rewrite Hl.
    unfold stored_history.
    destruct (Redis.live w (session_key sid)) as [s|]; [|reflexivity].
    by destruct s. }
  assert (Hl2 : Redis.live w2 (session_key sid) ≫= created_at
                = Redis.live w (session_key sid) ≫= created_at).
  { unfold Redis.live at 1. rewrite Hdb2, Hc2.
    pose proof (live_after_get_session self sid ttl_positive w f) as Hl.
    unfold Redis.live at 1 in Hl. fold w1 in Hl. rewrite Hl.
    destruct (Redis.live w (session_key sid)) as [s|]; [|reflexivity].
    by destruct s. }
  unfold bind.
  destruct (update_chat_history_stored sid
              (map AsDict ((stored_history w sid ++ Routes.cr_messages request)
                             ++ [MultiAgent.message reply])) w2 Hid Hq2)
    as (w3 & -> & Hst3 & s' & Hdb3 & Hca3).
  { destruct (stored_history w sid ++ Routes.cr_messages request)%list; discriminate. }
  exists (Routes.mkChatResponse (MultiAgent.message reply) sid
            (MultiAgent.reply_tool_calls reply)), w3.
  split; [reflexivity|]. split; [reflexivity|]. split; [exact Hrole|]. split.
  - rewrite Hst3, Hst2, map_to_dict_AsDict. simpl. by rewrite <- app_assoc.
  - exists s'. rewrite Hdb3, Hca3, Hl2. split; [|reflexivity].
    do 2 f_equal. by rewrite Hc2.
Qed.

End ChatComposition.

(** X10.  A chat turn on an existing session stores the old history twice:
    the handler reads the stored history, appends the new messages and the
    reply, and hands the whole list to [update_chat_history], which appends
    it to the history it reads again.  On a store that answers, the stored
    history afterwards is the last 50 of old ++ old ++ new ++ [reply]; the
    response carries the given session id and an assistant message. *)
Theorem chat_turn_stores_old_history_twice :
  forall (self : SessionManager.t)
         (ainvoke : AgentInput -> result MultiAgent.AgentResult)
         (fresh_id session_id : string) (messages : list Message)
         (stream : bool) (max_tokens : option Z) (w : World),
    SessionManager.redis self = true ->
    0 < SessionManager.session_expire_seconds self ->
    session_id <> "" ->
    Scenario.quiet w ->
    exists resp w',
      Routes.chat self ainvoke fresh_id
        (Routes.mkChatRequest messages (Some session_id) stream max_tokens) w
      = (Ok resp, w')
      /\ Routes.resp_session_id resp = session_id
      /\ role (Routes.resp_message resp) = "assistant"
      /\ Scenario.stored_history w' session_id
         = last_n 50
             (Scenario.stored_history w session_id
                ++ (Scenario.stored_history w session_id ++ messages
                      ++ [Routes.resp_message resp])).
Proof.
  intros self ainvoke fresh_id session_id messages stream max_tokens w Hr Httl Hid Hq.
  destruct (chat_with_session self ainvoke Hr Httl session_id fresh_id
              (Routes.mkChatRequest messages (Some session_id) stream max_tokens)
              w w Hid Hq) as (resp & w' & H1 & H2 & H3 & H4 & _).
  { simpl. by rewrite (truthy_id session_id Hid). }
  exists resp, w'. auto.
Qed.

Lemma chat_turn_stores_old_history_twice_witness :
  exists resp w',
    Routes.chat Sample.manager
      (fun _ => Ok (MultiAgent.mkAgentResult (Some "you are welcome") None)) "unused"
      (Routes.mkChatRequest [Sample.thanks] (Some "abc") false None) Sample.busy_world
    = (Ok resp, w')
    /\ Scenario.stored_history w' "abc"
       = [Sample.hello; Sample.hi; Sample.hello; Sample.hi; Sample.thanks;
          mkMessage "assistant" "you are welcome" None None None].
Proof.
  destruct (chat_turn_stores_old_history_twice Sample.manager
              (fun _ => Ok (MultiAgent.mkAgentResult (Some "you are welcome") None))
              "unused" "abc" [Sample.thanks] false None Sample.busy_world
              eq_refl eq_refl ltac:(discriminate) ltac:(constructor))
    as (resp & w' & H1 & _ & _ & H4).
  exists resp, w'. split; [exact H1|]. rewrite H4.
  vm_compute in H1. injection H1 as <- _. reflexivity.
Defined.

(** X11.  A chat request without a session id (or with an empty one) opens a
    session under the drawn id: on a store that answers, the response
    carries that id, and the stored session keeps the creation time set by
    [create_session] and holds the new messages followed by the reply,
    truncated to the last 50. *)
Theorem chat_without_id_opens_session :
  forall (self : SessionManager.t)
         (ainvoke : AgentInput -> result MultiAgent.AgentResult)
         (fresh_id : string) (request : Routes.ChatRequest) (w : World),
    SessionManager.redis self = true ->
    0 < SessionManager.session_expire_seconds self ->
    fresh_id <> "" ->
    Scenario.quiet w ->
    Routes.cr_session_id request = None \/ Routes.cr_session_id request = Some "" ->
    exists resp w' s',
      Routes.chat self ainvoke fresh_id request w = (Ok resp, w')
      /\ Routes.resp_session_id resp = fresh_id
      /\ Scenario.stored_history w' fresh_id
         = last_n 50 (Routes.cr_messages request ++ [Routes.resp_message resp])
      /\ redis_db w' !! SessionManager.session_key fresh_id
         = Some (s', clock w + SessionManager.session_expire_seconds self)
      /\ created_at s' = Some (clock w).
Proof.
  intros self ainvoke fresh_id request w Hr Httl Hid Hq Hnone.
  assert (Hcreate :
    exists f, Forall (fun x => x = None) f
      /\ SessionManager.create_session self fresh_id None w
         = (Ok fresh_id,
            with_db (<[SessionManager.session_key fresh_id :=
                         (mkSession (Some (clock w)) (Some (clock w)) (Some ∅) (Some []),
                          clock w + SessionManager.session_expire_seconds self)]>
                       (redis_db w))
              (with_faults f w))).
  { unfold SessionManager.create_session, bind, utcnow. rewrite Hr.
    unfold try_except.
    match goal with
    | |- context [Redis.set ?k ?v ?ex w] =>
        destruct (set_exact k v ex w Hq Httl) as (f & Hf & ->)
    end.
    by exists f. }
  destruct Hcreate as (f & Hf & Hcreate).
  match type of Hcreate with
  | _ = (_, ?w1) =>
      destruct (chat_with_session self ainvoke Hr Httl fresh_id fresh_id request
                  w w1 Hid Hf)
        as (resp & w' & H1 & H2 & _ & H4 & s' & H5 & H6)
  end.
  { destruct Hnone as [-> | ->]; exact Hcreate. }
  assert (Hl : Redis.live
                 (with_db (<[SessionManager.session_key fresh_id :=
                              (mkSession (Some (clock w)) (Some (clock w)) (Some ∅)
                                 (Some []),
                               clock w + SessionManager.session_expire_seconds self)]>
                            (redis_db w))
                    (with_faults f w))
                 (SessionManager.session_key fresh_id)
               = Some (mkSession (Some (clock w)) (Some (clock w)) (Some ∅) (Some []))).
  { unfold Redis.live. simpl. rewrite lookup_insert_eq.
    by destruct (Z.ltb_spec (clock w)
                   (clock w + SessionManager.session_expire_seconds self)); [|lia]. }
  exists resp, w', s'. split; [exact H1|]. split; [exact H2|].
  unfold Scenario.stored_history at 2 3 in H4. rewrite Hl in H4. simpl in H4.
  split; [exact H4|]. rewrite Hl in H6. split; [exact H5 | exact H6].
Qed.

Lemma chat_without_id_opens_session_witness :
  exists resp w',
    Routes.chat Sample.manager
      (fun _ => Ok (MultiAgent.mkAgentResult (Some "hi there") None)) "new-id"
      (Routes.mkChatRequest [Sample.hello] None false None) Sample.empty_world
    = (Ok resp, w')
    /\ Routes.resp_session_id resp = "new-id"
    /\ Scenario.stored_history w' "new-id"
       = [Sample.hello; mkMessage "assistant" "hi there" None None None].
Proof.
  destruct (chat_without_id_opens_session Sample.manager
              (fun _ => Ok (MultiAgent.mkAgentResult (Some "hi there") None))
              "new-id" (Routes.mkChatRequest [Sample.hello] None false None)
              Sample.empty_world
              eq_refl eq_refl ltac:(discriminate) ltac:(constructor)
              ltac:(left; reflexivity))
    as (resp & w' & s' & H1 & H2 & H3 & _).
  exists resp, w'. split; [exact H1|]. split; [exact H2|]. rewrite H3.
  vm_compute in H1. injection H1 as <- _. reflexivity.
Defined.

(** X12.  The clear-session handler acknowledges every request: whatever the
    id and the state of the store (no client, no such session, Redis
    raising), it returns the "cleared" message and never a server error,
    because [delete_session] swallows every failure. *)
Theorem clear_route_always_acknowledges :
  forall (self : SessionManager.t) (session_id : string) (w : World),
    exists w',
      Routes.clear_session_route self session_id w
      = (Ok ("Session " ++ session_id ++ " cleared"), w').
Proof.
  intros self session_id w.
  unfold Routes.clear_session_route, try_except, bind,
    SessionManager.clear_session, SessionManager.delete_session.
  destruct (negb (truthy_str session_id)); [by eexists|].
  destruct (SessionManager.redis self); [|by eexists].
  unfold try_except, bind.
  destruct (Redis.delete _ w) as [[n|e] w1]; by eexists.
Qed.

(** * Further properties of the HTTP executor *)

(** X13.  [_prepare_auth_headers], type by type (the type is compared in
    lower case).  Complete credentials give exactly one header: for basic,
    [Authorization] with [Basic] and the encoded [username:password]; for
    bearer and oauth2, [Authorization] with [Bearer] and the token; for
    api_key, the header named by [key] holding [value] unchanged.
    Incomplete credentials, and every other type, give no header at all. *)
Theorem auth_headers_shape :
  forall (b64encode : string -> string) (auth_config : gmap string string),
    let auth_type := Text.lower (default "" (auth_config !! "type")) in
    let headers := APICaller.prepare_auth_headers b64encode auth_config in
    (size headers <= 1)%nat
    /\ (forall username password,
          auth_type = "basic" ->
          auth_config !! "username" = Some username ->
          auth_config !! "password" = Some password ->
          headers = {[ "Authorization" :=
                         "Basic " ++ b64encode (username ++ ":" ++ password) ]})
    /\ (auth_type = "basic" ->
        auth_config !! "username" = None \/ auth_config !! "password" = None ->
        headers = ∅)
    /\ (forall token,
          auth_type = "bearer" \/ auth_type = "oauth2" ->
          auth_config !! "token" = Some token ->
          headers = {[ "Authorization" := "Bearer " ++ token ]})
    /\ (auth_type = "bearer" \/ auth_type = "oauth2" ->
        auth_config !! "token" = None ->
        headers = ∅)
    /\ (forall key value,
          auth_type = "api_key" ->
          auth_config !! "key" = Some key ->
          auth_config !! "value" = Some value ->
          headers = {[ key := value ]})
    /\ (auth_type = "api_key" ->
        auth_config !! "key" = None \/ auth_config !! "value" = None ->
        headers = ∅)
    /\ (auth_type ∉ ["basic"; "bearer"; "api_key"; "oauth2"] -> headers = ∅).
Proof.
  intros b64encode auth_config auth_type headers. subst headers.
  unfold APICaller.prepare_auth_headers. fold auth_type.
  destruct (String.eqb_spec auth_type "basic") as [Hb|Hnb].
  { rewrite Hb.
    destruct (auth_config !! "username") as [u|], (auth_config !! "password") as [pw|];
      (split; [first [by rewrite map_size_singleton | by rewrite map_size_empty; lia]|]);
      repeat split; try done; try (by intros ? ? _ [= <-] [= <-]);
      try (by intros _ [?|?]); try (by intros ? [?|?]); try (by intros [?|?]);
      intros Hin; exfalso; apply Hin; by repeat constructor. }
  destruct (String.eqb_spec auth_type "bearer") as [Hb|Hnbr].
  { rewrite Hb.
    destruct (auth_config !! "token") as [tk|];
      (split; [first [by rewrite map_size_singleton | by rewrite map_size_empty; lia]|]);
      repeat split; try done; try (by intros ? _ [= <-]);
      intros Hin; exfalso; apply Hin; by repeat constructor. }
  destruct (String.eqb_spec auth_type "api_key") as [Hb|Hnk].
  { rewrite Hb.
    destruct (auth_config !! "key") as [k|], (auth_config !! "value") as [v|];
      (split; [first [by rewrite map_size_singleton | by rewrite map_size_empty; lia]|]);
      repeat split; try done; try (by intros ? ? _ [= <-] [= <-]);
      try (by intros _ [?|?]); try (by intros ? [?|?]); try (by intros [?|?]);
      intros Hin; exfalso; apply Hin; by repeat constructor. }
  destruct (String.eqb_spec auth_type "oauth2") as [Hb|Hno].
  { rewrite Hb.
    destruct (auth_config !! "token") as [tk|];
      (split; [first [by rewrite map_size_singleton | by rewrite map_size_empty; lia]|]);
      repeat split; try done; try (by intros ? _ [= <-]);
      intros Hin; exfalso; apply Hin; by repeat constructor. }
  split; [by rewrite map_size_empty; lia|].
  repeat split; try done; try (by intros ? [?|?]); by intros [?|?].
Qed.

(** The type is compared in lower case, the credentials are not. *)
Example auth_headers_bearer_any_case :
  APICaller.prepare_auth_headers (fun s => s)
    {[ "type" := "BEARER"; "token" := "abc123" ]}
  = {[ "Authorization" := "Bearer abc123" ]}.
Proof. by vm_compute. Qed.

Section CallShape.

Import APICaller.

Variable python_3_11 : bool.
Variable transport : HttpRequest -> result HttpResponse.
Variable b64encode : string -> string.

(** The headers [call] sends. *)
Lemma call_sent (a : CallArgs) (method : string) (w : World) :
  HTTPMethod (Text.upper (ca_method a)) = Ok method ->
  exists rq,
    http_sent (snd (call python_3_11 transport b64encode a w)) = (http_sent w ++ [rq])%list
    /\ rq_method rq = method /\ rq_url rq = ca_url a
    /\ rq_params rq = ca_params a /\ rq_timeout rq = ca_timeout a
    /\ rq_verify_ssl rq = ca_verify_ssl a
    /\ rq_headers rq
       = match ca_auth a with
         | Some au => if decide (au = ∅) then default ∅ (ca_headers a) ∪ default_headers
                      else prepare_auth_headers b64encode au
                             ∪ (default ∅ (ca_headers a) ∪ default_headers)
         | None => default ∅ (ca_headers a) ∪ default_headers
         end
    /\ (rq_json rq, rq_data rq)
       = match ca_data a with
         | Some d =>
             if is_dict_or_list d
                && Text.contains "application/json"
                     (default "" (rq_headers rq !! "Content-Type"))
             then (Some d, None) else (None, Some d)
         | None => (ca_json_data a, None)
         end.
Proof.
  intros Hm. unfold call, try_except, bind, lift. rewrite Hm.
  set (hdrs := match ca_auth a with
               | Some au => if decide (au = ∅) then _ else _
               | None => _
               end).
  assert (Hh : hdrs
               = match ca_auth a with
                 | Some au => if decide (au = ∅) then default ∅ (ca_headers a) ∪ default_headers
                              else prepare_auth_headers b64encode au
                                     ∪ (default ∅ (ca_headers a) ∪ default_headers)
                 | None => default ∅ (ca_headers a) ∪ default_headers
                 end).
  { subst hdrs. destruct (ca_headers a) as [h|]; simpl; [reflexivity|].
    by rewrite (left_id_L ∅ (∪)). }
  clearbody hdrs.
  destruct (ca_data a) as [d|];
    [destruct (is_dict_or_list d && _) eqn:Ej | destruct (ca_json_data a)];
    cbv iota beta; unfold log_msg, send;
    match goal with
    | |- context [transport ?r] =>
        exists r; destruct (transport r) as [resp|e]
    end;
    cbn [rq_method rq_url rq_params rq_timeout rq_verify_ssl rq_headers rq_json rq_data];
    rewrite ?Ej;
    repeat match goal with
           | |- context [if Text.contains ?x ?y then _ else _] =>
               destruct (Text.contains x y)
           | |- context [resp_json ?r] => destruct (resp_json r)
           | |- context [resp_text ?r] => destruct (resp_text r)
           | |- context [is_client_error ?e] => destruct (is_client_error e)
           | _ => progress (unfold try_except, bind, lift, ret, log_msg; cbn [fst snd http_sent with_log with_http_sent])
           end;
    auto 10.
Qed.

End CallShape.

(** X14.  For a call with a valid method, exactly one request goes out,
    whatever the transport answers; it carries the upper-cased method, the
    URL, the parameters and the timeout of the call, and each header is
    taken from the authentication headers first, then from the caller's
    headers, then from the three defaults. *)
Theorem call_sends_one_request_with_merged_headers :
  forall (python_3_11 : bool)
         (transport : HttpRequest -> result APICaller.HttpResponse)
         (b64encode : string -> string) (a : APICaller.CallArgs)
         (method : string) (w : World),
    APICaller.HTTPMethod (Text.upper (APICaller.ca_method a)) = Ok method ->
    exists rq,
      http_sent (snd (APICaller.call python_3_11 transport b64encode a w))
      = (http_sent w ++ [rq])%list
      /\ rq_method rq = method
      /\ method ∈ APICaller.http_methods
      /\ rq_url rq = APICaller.ca_url a
      /\ rq_params rq = APICaller.ca_params a
      /\ rq_timeout rq = APICaller.ca_timeout a
      /\ forall k,
           rq_headers rq !! k
           = match (from_option (APICaller.prepare_auth_headers b64encode) ∅
                      (APICaller.ca_auth a)) !! k with
             | Some v => Some v
             | None =>
                 match default ∅ (APICaller.ca_headers a) !! k with
                 | Some v => Some v
                 | None => APICaller.default_headers !! k
                 end
             end.
Proof.
  intros python_3_11 transport b64encode a method w Hm.
  destruct (call_sent python_3_11 transport b64encode a method w Hm)
    as (rq & H1 & H2 & H3 & H4 & H5 & _ & H7 & _).
  exists rq. repeat (split; [assumption|]).
  split.
  { unfold APICaller.HTTPMethod in Hm. case_bool_decide; [|discriminate].
    by injection Hm as <-. }
  split; [assumption|]. split; [assumption|]. split; [assumption|].
  intros k. rewrite H7.
  destruct (APICaller.ca_auth a) as [au|]; simpl.
  - destruct (decide (au = ∅)) as [->|_].
    + replace (APICaller.prepare_auth_headers b64encode ∅) with (∅ : gmap string string)
        by reflexivity.
      rewrite lookup_empty, lookup_union.
      destruct (default ∅ (APICaller.ca_headers a) !! k),
               (APICaller.default_headers !! k); reflexivity.
    + rewrite !lookup_union.
      destruct (APICaller.prepare_auth_headers b64encode au !! k),
               (default ∅ (APICaller.ca_headers a) !! k),
               (APICaller.default_headers !! k); reflexivity.
  - rewrite lookup_empty, lookup_union.
    destruct (default ∅ (APICaller.ca_headers a) !! k),
             (APICaller.default_headers !! k); reflexivity.
Qed.

Lemma call_sends_one_request_with_merged_headers_witness :
  exists rq,
    http_sent
      (snd (APICaller.call false (fun _ => Raise (TimeoutError "timed out")) (fun s => s)
              (APICaller.mkCallArgs "https://example.com/items" "post"
                 (Some {[ "Accept" := "text/csv"; "Authorization" := "mine" ]})
                 None None None
                 (Some {[ "type" := "Bearer"; "token" := "t0k" ]}) 30 true true)
              Sample.empty_world))
    = [rq]
    /\ rq_method rq = "POST"
    /\ rq_headers rq !! "Authorization" = Some "Bearer t0k"
    /\ rq_headers rq !! "Accept" = Some "text/csv"
    /\ rq_headers rq !! "Content-Type" = Some "application/json".
Proof.
  destruct (call_sends_one_request_with_merged_headers false
              (fun _ => Raise (TimeoutError "timed out")) (fun s => s)
              (APICaller.mkCallArgs "https://example.com/items" "post"
                 (Some {[ "Accept" := "text/csv"; "Authorization" := "mine" ]})
                 None None None
                 (Some {[ "type" := "Bearer"; "token" := "t0k" ]}) 30 true true)
              "POST" Sample.empty_world eq_refl)
    as (rq & H1 & H2 & _ & _ & _ & _ & H7).
  exists rq. split; [exact H1|]. split; [exact H2|].
  split; [exact (H7 "Authorization")|]. split; [exact (H7 "Accept")|].
  exact (H7 "Content-Type").
Defined.



(** X16.  When the request goes through and the body can be read as text,
    [call] returns the response's status, headers and URL with no [error]
    key; [is_success] is true exactly for a status from 200 to 299; [data]
    is the parsed JSON when the (lower-cased) content type contains
    [application/json] and the body parses, and the text otherwise, so a
    body that claims to be JSON and is not still gives a successful
    envelope. *)
Theorem call_success_envelope :
  forall (python_3_11 : bool)
         (transport : HttpRequest -> result APICaller.HttpResponse)
         (b64encode : string -> string) (a : APICaller.CallArgs)
         (method : string) (resp : APICaller.HttpResponse) (text : string) (w : World),
    APICaller.HTTPMethod (Text.upper (APICaller.ca_method a)) = Ok method ->
    (forall rq, transport rq = Ok resp) ->
    APICaller.resp_text resp = Ok text ->
    let content_type := Text.lower (default "" (APICaller.resp_content_type resp)) in
    exists env w',
      APICaller.call python_3_11 transport b64encode a w = (Ok env, w')
      /\ APICaller.env_status env = Some (APICaller.resp_status resp)
      /\ APICaller.env_headers env = Some (APICaller.resp_headers resp)
      /\ APICaller.env_url env = Some (APICaller.resp_url resp)
      /\ APICaller.env_content_type env = Some content_type
      /\ APICaller.env_error env = None
      /\ (APICaller.env_is_success env = Some true
          <-> 200 <= APICaller.resp_status resp < 300)
      /\ APICaller.env_data env
         = Some (if Text.contains "application/json" content_type
                 then match APICaller.resp_json resp with
                      | Ok j => PJson j
                      | Raise _ => PStr text
                      end
                 else PStr text).
Proof.
  intros python_3_11 transport b64encode a method resp text w Hm Ht Htext content_type.
  assert (Hsucc : forall b : bool,
            b = ((200 <=? APICaller.resp_status resp)
                 && (APICaller.resp_status resp <? 300))%bool ->
            Some b = Some true <-> 200 <= APICaller.resp_status resp < 300).
  { intros b ->. split.
    - intros [= H]. apply andb_true_iff in H as [H1 H2]. lia.
    - intros [H1 H2]. f_equal. apply andb_true_iff. split; lia. }
  unfold APICaller.call, try_except, bind, APICaller.lift. rewrite Hm.
  destruct (APICaller.ca_data a) as [d|];
    [destruct (APICaller.is_dict_or_list d && _) | destruct (APICaller.ca_json_data a)];
    cbv iota beta; unfold log_msg, APICaller.send; rewrite Ht;
    fold content_type; cbv iota beta;
    destruct (Text.contains "application/json" content_type);
    unfold try_except, bind, APICaller.lift;
    try destruct (APICaller.resp_json resp) as [j|ej];
    rewrite ?Htext; cbv iota beta;
    eexists _, _; (split; [reflexivity|]);
    cbn [APICaller.env_status APICaller.env_headers APICaller.env_url
         APICaller.env_content_type APICaller.env_error APICaller.env_is_success
         APICaller.env_data];
    repeat (split; [reflexivity|]);
    (split; [by apply Hsucc | reflexivity]).
Qed.

Lemma call_success_envelope_witness :
  exists env w',
    APICaller.call false
      (fun _ => Ok (APICaller.mkHttpResponse 404 ∅ (Some "Application/JSON; charset=utf-8")
                      "https://example.com/items" (Raise (ValueError "Expecting value"))
                      (Ok "not found")))
      (fun s => s)
      (APICaller.mkCallArgs "https://example.com/items" "get" None None None None
         None 30 true true)
      Sample.empty_world = (Ok env, w')
    /\ APICaller.env_status env = Some 404
    /\ APICaller.env_is_success env <> Some true
    /\ APICaller.env_data env = Some (PStr "not found").
Proof.
  destruct (call_success_envelope false
              (fun _ => Ok (APICaller.mkHttpResponse 404 ∅
                              (Some "Application/JSON; charset=utf-8")
                              "https://example.com/items"
                              (Raise (ValueError "Expecting value"))
                              (Ok "not found")))
              (fun s => s)
              (APICaller.mkCallArgs "https://example.com/items" "get" None None None None
                 None 30 true true)
              "GET" _ "not found" Sample.empty_world eq_refl (fun _ => eq_refl) eq_refl)
    as (env & w' & H1 & H2 & _ & _ & _ & _ & H7 & H8).
  exists env, w'. split; [exact H1|]. split; [exact H2|]. split.
  - intros H. apply H7 in H. simpl in H. lia.
  - exact H8.
Defined.

Section Repr.

Lemma of_chars_app (s : string) (l : list ascii) :
  Text.of_chars (Text.chars s ++ l) = (s ++ Text.of_chars l)%string.
Proof. induction s as [|c s IH]; simpl; [reflexivity | by rewrite IH]. Qed.

Lemma string_append_assoc (a b c : string) :
  ((a ++ b) ++ c = a ++ (b ++ c))%string.
Proof.
  induction a as [|x a IH]; [reflexivity|].
  change (String x ((a ++ b) ++ c) = String x (a ++ (b ++ c)))%string.
  by f_equal.
Qed.

Lemma repr_char_plain (c : ascii) :
  Text.is_printable c = true -> c <> Text.single_quote -> c <> Text.backslash ->
  Text.repr_char Text.single_quote c = [c].
Proof.
  intros Hp Hq Hb. unfold Text.repr_char.
  destruct (Ascii.eqb_spec c Text.single_quote) as [|_]; [done|].
  destruct (Ascii.eqb_spec c Text.backslash) as [|_]; [done|].
  cbn [orb]. rewrite Hp. unfold Text.is_printable in Hp.
  destruct (Nat.eqb_spec (Text.code c) 9) as [E|_];
    [rewrite E in Hp; discriminate|].
  destruct (Nat.eqb_spec (Text.code c) 10) as [E|_];
    [rewrite E in Hp; discriminate|].
  destruct (Nat.eqb_spec (Text.code c) 13) as [E|_];
    [rewrite E in Hp; discriminate|].
  reflexivity.
Qed.

(** [repr] of a plain text is the text between single quotes. *)
Lemma repr_plain (s : string) :
  Scenario.plain_text s -> Text.repr s = ("'" ++ s ++ "'")%string.
Proof.
  unfold Scenario.plain_text, Text.repr. intros Hs.
  assert (Hno : Text.single_quote ∉ Text.chars s).
  { intros Hin. rewrite Forall_forall in Hs. by destruct (Hs _ Hin) as (_ & Hq & _). }
  rewrite (bool_decide_eq_false_2 _ Hno). cbn [andb].
  assert (Hf : flat_map (Text.repr_char Text.single_quote) (Text.chars s) = Text.chars s).
  { induction Hs as [|c l (Hp & Hq & Hb) _ IH]; [reflexivity|].
    cbn [flat_map]. rewrite repr_char_plain by assumption.
    rewrite IH by (intros Hin; apply Hno; by right). reflexivity. }
  rewrite Hf. change (Text.of_chars (Text.single_quote :: (Text.chars s ++ [Text.single_quote])%list))
    with (String Text.single_quote (Text.of_chars (Text.chars s ++ [Text.single_quote]))).
  by rewrite of_chars_app.
Qed.

End Repr.

(** X17.  A method that is not one of the seven of [HTTPMethod] (after
    upper-casing) never reaches the network: [call] logs the error and
    returns the error envelope, with nothing sent.  The text names the
    upper-cased method as [repr] writes it, which for a method of printable
    characters without single quote or backslash is the method between
    single quotes.  (Methods holding the micro sign or the y with diaeresis
    are left out: their upper case is beyond the characters of [string].) *)
Theorem call_rejects_unknown_method :
  forall (python_3_11 : bool)
         (transport : HttpRequest -> result APICaller.HttpResponse)
         (b64encode : string -> string) (a : APICaller.CallArgs) (w : World),
    Text.upper_in_range (APICaller.ca_method a) ->
    Text.upper (APICaller.ca_method a) ∉ APICaller.http_methods ->
    exists text,
      APICaller.call python_3_11 transport b64encode a w
      = (Ok (APICaller.error_envelope ("Unexpected error: " ++ text)),
         with_log (log w ++ [("Unexpected error during API request: " ++ text)%string]) w)
      /\ text = (Text.repr (Text.upper (APICaller.ca_method a))
                 ++ " is not a valid HTTPMethod")%string
      /\ (Scenario.plain_text (Text.upper (APICaller.ca_method a)) ->
          text = ("'" ++ Text.upper (APICaller.ca_method a)
                      ++ "' is not a valid HTTPMethod")%string).
Proof.
  intros python_3_11 transport b64encode a w _ Hm.
  eexists. split; [|split; [reflexivity|]].
  - unfold APICaller.call, try_except, bind, APICaller.lift, APICaller.HTTPMethod.
    rewrite bool_decide_eq_false_2 by assumption. reflexivity.
  - intros Hp. rewrite (repr_plain _ Hp).
    by rewrite !string_append_assoc.
Qed.

Lemma call_rejects_unknown_method_witness :
  APICaller.call false (fun _ => Raise (ClientError "unused")) (fun s => s)
    (APICaller.mkCallArgs "https://example.com/items" "fetch" None None None None
       None 30 true true)
    Sample.empty_world
  = (Ok (APICaller.error_envelope "Unexpected error: 'FETCH' is not a valid HTTPMethod"),
     with_log ["Unexpected error during API request: 'FETCH' is not a valid HTTPMethod"]
       Sample.empty_world).
Proof.
  destruct (call_rejects_unknown_method false
              (fun _ => Raise (ClientError "unused")) (fun s => s)
              (APICaller.mkCallArgs "https://example.com/items" "fetch" None None None
                 None None 30 true true)
              Sample.empty_world
              ltac:(repeat constructor; by vm_compute)
              ltac:(by apply (bool_decide_unpack _); vm_compute))
    as (text & Hcall & Htext & _).
  rewrite Hcall, Htext. reflexivity.
Defined.

(** The sharp s becomes [SS] before the method is looked up. *)
Example sharp_s_method_text :
  APICaller.HTTPMethod
    (Text.upper (Text.of_chars ["s"; "t"; "r"; "a"; ascii_of_nat 223; "e"]%char))
  = Raise (ValueError "'STRASSE' is not a valid HTTPMethod").
Proof. by vm_compute. Qed.

(** * Further properties of the request parser *)

Section ParsedMethod.

Import Regex Scenario APICaller.

Local Open Scope nat_scope.

(** A match found by [re.search] is the first way of matching at its start. *)
Lemma search_from_first_match (r : re) (s : list ascii) :
  forall pos m,
    search_from r pos s = Some m ->
    exists k, first_match r (pos + k) (drop k s) = Some m.
Proof.
  induction s as [|c s IH]; intros pos m H; cbn [search_from] in H.
  - destruct (first_match r pos []) as [m'|] eqn:E; [|discriminate].
    injection H as ->. exists 0. by rewrite Nat.add_0_r.
  - destruct (first_match r pos (c :: s)) as [m'|] eqn:E.
    + injection H as ->. exists 0. by rewrite Nat.add_0_r.
    + destruct (IH _ _ H) as (k & Hk). exists (S k).
      replace (pos + S k) with (S pos + k) by lia. exact Hk.
Qed.

(** A repeated class records no group. *)
Lemma matches_plus_caps (p : ascii -> bool) (pos : nat) (s : list ascii)
    (caps : captures) (o : outcome) :
  In o (matches (Plus p) pos s caps) -> snd o = caps.
Proof.
  unfold Plus. cbn [matches]. intros Hin.
  apply in_flat_map in Hin as ([[p1 s1] c1] & H1 & H2).
  destruct s as [|c s]; [destruct H1|]. destruct (p c); [|destruct H1].
  destruct H1 as [[= <- <- <-]|[]].
  apply in_map_iff in H2 as (e & <- & _). reflexivity.
Qed.

(** The method keywords, as the alternation of the method pattern. *)
Lemma first_match_method_re (pos : nat) (s : list ascii) (m : Match) :
  first_match method_re pos s = Some m ->
  pos = 0
  /\ exists w s',
       s = (w ++ s')%list
       /\ group_span m 1 = Some (0, length w)
       /\ (exists c rest, s' = c :: rest /\ Text.is_space c = true)
       /\ (exists keyword, keyword ∈ http_methods
                           /\ map Text.lower_char w
                              = map Text.lower_char (Text.chars keyword)).
Proof.
  unfold first_match. intros H.
  destruct (matches method_re pos s []) as [|[[e s1] caps] rest] eqn:E; [discriminate|].
  injection H as <-.
  assert (Hin : In (e, s1, caps) (matches method_re pos s [])) by (rewrite E; by left).
  clear E. unfold method_re in Hin.
  remember (Alt _ _) as alts eqn:Halts.
  cbn [matches] in Hin.
  destruct (Nat.eqb_spec pos 0) as [->|]; [|destruct Hin].
  cbn [flat_map] in Hin. rewrite app_nil_r in Hin.
  apply in_flat_map in Hin as ([[p1 s2] c1] & H1 & H2).
  apply in_map_iff in H1 as ([[p0 s0] c0] & [= <- <- <-] & H1).
  pose proof (matches_plus_caps _ _ _ _ _ H2) as Hc. simpl in Hc. subst caps.
  destruct (matches_sound alts 0 s [] p0 s0 c0 H1) as (w & -> & -> & Hw).
  split; [reflexivity|]. exists w, s0. split; [reflexivity|].
  split.
  { unfold group_span. by cbn. }
  split.
  { destruct (matches_sound _ _ _ _ _ _ _ H2)
      as (w2 & -> & _ & (w3 & w4 & -> & (c & -> & Hc) & _)).
    by exists c, (w4 ++ s1)%list. }
  subst alts. unfold Lit_ci in Hw. simpl in Hw.
  repeat match goal with
         | H : exists _, _ |- _ => destruct H
         | H : _ /\ _ |- _ => destruct H
         | H : _ \/ _ |- _ => destruct H
         | H : is_char_ci _ _ = true |- _ => apply is_char_ci_lower in H
         end; subst; simpl;
    repeat match goal with H : Text.lower_char _ = _ |- _ => rewrite H; clear H end.
  - exists "GET". split; [set_solver | reflexivity].
  - exists "POST". split; [set_solver | reflexivity].
  - exists "PUT". split; [set_solver | reflexivity].
  - exists "DELETE". split; [set_solver | reflexivity].
  - exists "PATCH". split; [set_solver | reflexivity].
  - exists "HEAD". split; [set_solver | reflexivity].
  - exists "OPTIONS". split; [set_solver | reflexivity].
Qed.

(** Upper-casing undoes what case folding hid, on the letters a to z. *)
Lemma upper_of_lower_letter (x : ascii) :
  (97 <=? Text.code (Text.lower_char x)) && (Text.code (Text.lower_char x) <=? 122) = true ->
  Text.upper_char x = Text.upper_char (Text.lower_char x).
Proof.
  destruct x as [[] [] [] [] [] [] [] []]; vm_compute; intros H;
    first [reflexivity | discriminate].
Qed.

Lemma upper_chars_letter (x : ascii) :
  (97 <=? Text.code (Text.lower_char x)) && (Text.code (Text.lower_char x) <=? 122) = true ->
  Text.upper_chars x = [Text.upper_char x].
Proof.
  destruct x as [[] [] [] [] [] [] [] []]; vm_compute; intros H;
    first [reflexivity | discriminate].
Qed.

Lemma upper_chars_of_keyword (w : list ascii) (keyword : string) :
  keyword ∈ http_methods ->
  map Text.lower_char w = map Text.lower_char (Text.chars keyword) ->
  Text.upper (Text.of_chars w) = keyword.
Proof.
  intros Hk Hw. unfold Text.upper. rewrite chars_of_chars.
  assert (Hall : Forall (fun x =>
                   (97 <=? Text.code (Text.lower_char x))
                   && (Text.code (Text.lower_char x) <=? 122) = true) w).
  { apply Forall_forall. intros x Hx.
    apply list_elem_of_In in Hx.
    apply (in_map Text.lower_char) in Hx. rewrite Hw in Hx.
    remember (Text.lower_char x) as y eqn:Hy. clear Hy.
    unfold http_methods in Hk.
    repeat (apply elem_of_cons in Hk as [->|Hk]);
      [..|by apply elem_of_nil in Hk];
      vm_compute in Hx;
      repeat (destruct Hx as [<-|Hx]; [reflexivity|]); destruct Hx. }
  assert (Hflat : flat_map Text.upper_chars w = map Text.upper_char w).
  { clear Hw. induction Hall as [|x l Hx _ IH]; [reflexivity|].
    cbn [flat_map map]. by rewrite IH, upper_chars_letter. }
  assert (Hup : map Text.upper_char w
                = map Text.upper_char (map Text.lower_char (Text.chars keyword))).
  { rewrite <- Hw. rewrite map_map.
    clear Hw Hflat. induction Hall as [|x l Hx _ IH]; simpl; [reflexivity|].
    by rewrite IH, upper_of_lower_letter. }
  rewrite Hflat, Hup. unfold http_methods in Hk.
  repeat (apply elem_of_cons in Hk as [->|Hk]); [..|by apply elem_of_nil in Hk];
    reflexivity.
Qed.

(** The method the parser reports is one of the seven. *)
Lemma parsed_method_valid (request : string) :
  match search method_re request with
  | Some m => Text.upper (group request m 1)
  | None => "GET"
  end ∈ http_methods.
Proof.
  destruct (search method_re request) as [m|] eqn:E; [|set_solver].
  unfold search in E.
  destruct (search_from_first_match _ _ _ _ E) as (k & Hk).
  destruct (first_match_method_re _ _ _ Hk)
    as (Hpos & w & s' & Hs & Hspan & _ & kw & Hkw & Hw).
  simpl in Hpos. subst k. rewrite drop_0 in Hs.
  unfold group. rewrite Hspan. unfold Text.slice. rewrite Hs.
  rewrite drop_0, Nat.sub_0_r, take_app_length.
  by rewrite (upper_chars_of_keyword w kw Hkw Hw).
Qed.

(** A literal under IGNORECASE matches the words that fold to it. *)
Lemma lang_lit_ci (l : list ascii) :
  forall pos w,
    map Text.lower_char w = map Text.lower_char l ->
    lang (Lit_chars is_char_ci l) pos w.
Proof.
  induction l as [|c l IH]; intros pos w Hw.
  - destruct w; [reflexivity | discriminate].
  - destruct w as [|x w]; [discriminate|]. injection Hw as Hx Hw.
    destruct l as [|c' l].
    + destruct w; [|discriminate]. exists x. split; [reflexivity|].
      by apply is_char_ci_lower.
    + change (Lit_chars is_char_ci (c :: c' :: l))
        with (Seq (Chr (is_char_ci c)) (Lit_chars is_char_ci (c' :: l))).
      exists [x], w. split; [reflexivity|]. split.
      * exists x. split; [reflexivity|]. by apply is_char_ci_lower.
      * by apply IH.
Qed.

(** A keyword followed by white space is a word of the method pattern. *)
Lemma keyword_lang_method_re (word : list ascii) (c : ascii) (keyword : string) :
  keyword ∈ http_methods ->
  map Text.lower_char word = map Text.lower_char (Text.chars keyword) ->
  Text.is_space c = true ->
  lang method_re 0 (word ++ [c]).
Proof.
  intros Hk Hw Hc. unfold method_re.
  exists [], (word ++ [c])%list. split; [reflexivity|]. split; [by split|].
  exists word, [c]. split; [reflexivity|]. split.
  - cbn [lang]. unfold http_methods in Hk. unfold Lit_ci.
    repeat (apply elem_of_cons in Hk as [->|Hk]); [..|by apply elem_of_nil in Hk].
    + left. by apply lang_lit_ci.
    + right. left. by apply lang_lit_ci.
    + do 2 right. left. by apply lang_lit_ci.
    + do 3 right. left. by apply lang_lit_ci.
    + do 4 right. left. by apply lang_lit_ci.
    + do 5 right. left. by apply lang_lit_ci.
    + do 6 right. by apply lang_lit_ci.
  - exists [c], []. split; [reflexivity|]. split; [by exists c | constructor].
Qed.

(** No keyword is the beginning of another one. *)
Lemma keyword_prefix_unique (k1 k2 : string) (x y : list ascii) :
  k1 ∈ http_methods -> k2 ∈ http_methods ->
  (map Text.lower_char (Text.chars k1) ++ x
   = map Text.lower_char (Text.chars k2) ++ y)%list ->
  k1 = k2.
Proof.
  unfold http_methods. intros H1 H2.
  repeat (apply elem_of_cons in H1 as [->|H1]); [..|by apply elem_of_nil in H1];
    repeat (apply elem_of_cons in H2 as [->|H2]); try (by apply elem_of_nil in H2);
    vm_compute; intros H; first [reflexivity | discriminate].
Qed.

(** The method the parser reports: the keyword the request starts with, or
    GET when it starts with none. *)
Lemma parsed_method_spec (request : string) :
  let method := match search method_re request with
                | Some m => Text.upper (group request m 1)
                | None => "GET"
                end in
  (forall keyword, keyword ∈ http_methods ->
                   starts_with_method request keyword -> method = keyword)
  /\ ((forall keyword, keyword ∈ http_methods ->
                       ~ starts_with_method request keyword) -> method = "GET").
Proof.
  cbv zeta. destruct (search method_re request) as [m|] eqn:E.
  - unfold search in E.
    destruct (search_from_first_match _ _ _ _ E) as (k & Hk).
    destruct (first_match_method_re _ _ _ Hk)
      as (Hpos & w & s' & Hs & Hspan & (c & rest & -> & Hc) & kw & Hkw & Hw).
    simpl in Hpos. subst k. rewrite drop_0 in Hs.
    assert (Hm : Text.upper (group request m 1) = kw).
    { unfold group. rewrite Hspan. unfold Text.slice. rewrite Hs.
      rewrite drop_0, Nat.sub_0_r, take_app_length.
      by apply upper_chars_of_keyword. }
    rewrite Hm. split.
    + intros kw' Hkw' (w' & c' & rest' & Hs' & Hw' & _).
      apply (keyword_prefix_unique kw kw' (map Text.lower_char (c :: rest))
               (map Text.lower_char (c' :: rest')) Hkw Hkw').
      rewrite <- Hw, <- Hw', <- !map_app. f_equal. by rewrite <- Hs, <- Hs'.
    + intros Hno. exfalso. apply (Hno kw Hkw). by exists w, c, rest.
  - split; [|reflexivity].
    intros kw Hkw (w & c & rest & Hs & Hw & Hc). exfalso.
    unfold search in E. rewrite Hs in E.
    apply (search_from_complete method_re [] 0 (w ++ [c]) rest).
    + by eapply keyword_lang_method_re.
    + simpl. by rewrite <- app_assoc.
Qed.

End ParsedMethod.

Section ParsedUrl.

Import Regex Scenario APICaller.

Local Open Scope nat_scope.

Lemma prefix_char_is_url_char (x : ascii) :
  In (Text.lower_char x) (Text.chars "htps:/w.") -> url_char x = true.
Proof.
  destruct x as [[] [] [] [] [] [] [] []]; vm_compute; intros H;
    first [reflexivity | intuition discriminate].
Qed.

(** Every character of a word of the URL pattern is a URL character. *)
Lemma url_word_chars (pos : nat) (w : list ascii) :
  lang url_re pos w -> Forall (fun x => url_char x = true) w.
Proof.
  intros Hw.
  destruct (lang_url_re_token _ _ Hw) as (prefix & c & rest & -> & Hp & Hc & Hrest).
  apply Forall_app. split; [|by constructor].
  apply Forall_forall. intros x Hx. apply prefix_char_is_url_char.
  apply list_elem_of_In in Hx. apply (in_map Text.lower_char) in Hx.
  remember (Text.lower_char x) as y eqn:Hy. clear Hy.
  unfold url_prefixes in Hp.
  apply elem_of_cons in Hp as [Hp|Hp];
    [|apply elem_of_cons in Hp as [Hp|Hp];
      [|apply list_elem_of_singleton in Hp]];
    rewrite Hp in Hx; vm_compute in Hx; vm_compute; tauto.
Qed.

Lemma extracted_url_chars (t : string) (m : Match) :
  search url_re t = Some m ->
  Forall (fun x => url_char x = true) (Text.chars (group t m 1)).
Proof.
  unfold search. intros H.
  pose proof (search_from_group_span _ _ _ _ _ H) as Hspan.
  destruct (search_from_sound _ _ _ _ H) as (skipped & w & s' & Ht & Hs & He & Hw).
  unfold group. rewrite Hspan. unfold Text.slice.
  rewrite chars_of_chars, Ht, He, Hs. simpl.
  rewrite drop_app_length.
  replace (length skipped + length w - length skipped) with (length w) by lia.
  rewrite take_app_length.
  by eapply url_word_chars.
Qed.

(** The URL after the scheme has been put before a [www.] match. *)
Lemma normalized_url_shape (t : string) (m : Match) :
  search url_re t = Some m ->
  let url := if Text.startswith "http://" (group t m 1)
                || Text.startswith "https://" (group t m 1)
             then group t m 1 else "https://" ++ group t m 1 in
  Text.startswith "http://" url || Text.startswith "https://" url = true
  /\ Forall url_token_char (Text.chars url).
Proof.
  intros E url. pose proof (extracted_url_chars _ _ E) as Hch.
  assert (Htok : forall l, Forall (fun x => url_char x = true) l ->
                           Forall url_token_char l).
  { intros l Hl. eapply Forall_impl; [exact Hl|].
    intros x Hx. by apply url_char_token_char. }
  subst url.
  destruct (Text.startswith "http://" (group t m 1)
            || Text.startswith "https://" (group t m 1)) eqn:Es.
  - split; [exact Es | by apply Htok].
  - split.
    + apply orb_true_iff. right. unfold Text.startswith. simpl.
      by destruct (group t m 1).
    + rewrite chars_append. apply Forall_app. split; [|by apply Htok].
      apply Htok. apply Forall_forall. intros x Hx.
      apply list_elem_of_In in Hx. vm_compute in Hx.
      repeat (destruct Hx as [<-|Hx]; [reflexivity|]). destruct Hx.
Qed.

(** What the parser returns, case by case. *)
Lemma parse_cases
    (json_loads : string -> result json)
    (parse_qsl : string -> list (string * string)) (request : string) :
  (remaining_text request = None
   /\ parse_natural_language_request json_loads parse_qsl request
      = Raise (ValueError "Could not find a valid URL in the request"))
  \/ (exists remaining e,
        remaining_text request = Some remaining
        /\ json_failure json_loads remaining = Some e
        /\ parse_natural_language_request json_loads parse_qsl request = Raise e)
  \/ exists remaining parsed,
       remaining_text request = Some remaining
       /\ json_failure json_loads remaining = None
       /\ parse_natural_language_request json_loads parse_qsl request = Ok parsed
       /\ pr_method parsed
          = match search method_re request with
            | Some m => Text.upper (group request m 1)
            | None => "GET"
            end
       /\ pr_params parsed = ∅
       /\ pr_headers parsed = ∅
       /\ (Text.startswith "http://" (pr_url parsed)
           || Text.startswith "https://" (pr_url parsed) = true)
       /\ Forall url_token_char (Text.chars (pr_url parsed))
       /\ (is_Some (pr_json parsed) -> pr_data parsed = None)
       /\ pr_timeout parsed = 30%Z /\ pr_verify_ssl parsed = true.
Proof.
  unfold parse_natural_language_request, remaining_text, json_failure.
  destruct (search method_re request) as [m|];
    (destruct (search url_re _) as [um|] eqn:E; [right | by left]);
    rewrite (normalized_url_no_query _ _ E);
    destruct (normalized_url_shape _ _ E) as [Hs Hc];
    match goal with
    | |- context [search json_re ?r] =>
        destruct (search json_re r) as [jm|] eqn:Ej;
        [destruct (json_loads (group0 r jm)) as [j|e] eqn:El;
         [|destruct (is_json_decode_error e) eqn:Ed]|]
    end;
    first
      [ left; eexists _, _; (split; [reflexivity|]);
        rewrite Ej, El, Ed; by split
      | right; eexists _, _; (split; [reflexivity|]);
        rewrite Ej, ?El, ?Ed; (split; [reflexivity|]);
        (split; [reflexivity|]);
        cbn [pr_method pr_params pr_headers pr_url pr_json pr_data
             pr_timeout pr_verify_ssl];
        (split; [reflexivity|]); (split; [reflexivity|]); (split; [reflexivity|]);
        (split; [exact Hs|]); (split; [exact Hc|]);
        (split; [|by split]);
        intros Hj; first [ by rewrite (bool_decide_eq_true_2 _ Hj), andb_false_r
                         | by destruct Hj ] ].
Qed.

End ParsedUrl.

(** X18.  Whatever the text, a request the parser accepts has one of the
    seven methods of [HTTPMethod], in upper case: the keyword the text
    starts with (in any letter case, followed by white space), or GET when
    it starts with none. *)
Theorem parsed_method_is_an_http_method :
  forall (json_loads : string -> result json)
         (parse_qsl : string -> list (string * string)) (request : string),
    match APICaller.parse_natural_language_request json_loads parse_qsl request with
    | Ok parsed =>
        APICaller.pr_method parsed ∈ APICaller.http_methods
        /\ (forall keyword,
              keyword ∈ APICaller.http_methods ->
              Scenario.starts_with_method request keyword ->
              APICaller.pr_method parsed = keyword)
        /\ ((forall keyword,
               keyword ∈ APICaller.http_methods ->
               ~ Scenario.starts_with_method request keyword) ->
            APICaller.pr_method parsed = "GET")
    | Raise _ => True
    end.
Proof.
  intros json_loads parse_qsl request.
  destruct (parse_cases json_loads parse_qsl request)
    as [[_ ->] | [(r & e & _ & _ & ->) | (r & p & _ & _ & -> & Hm & _)]];
    [exact I | exact I |].
  rewrite Hm. split; [apply parsed_method_valid | apply parsed_method_spec].
Qed.

(** X19.  The URL of an accepted request is absolute and clean: it starts
    with [http://] or [https://] (a [www.] match gets [https://] put before
    it), and none of its characters is white space, [?], [&] or [#]. *)
Theorem parsed_url_is_absolute :
  forall (json_loads : string -> result json)
         (parse_qsl : string -> list (string * string)) (request : string),
    match APICaller.parse_natural_language_request json_loads parse_qsl request with
    | Ok parsed =>
        (Text.startswith "http://" (APICaller.pr_url parsed)
         || Text.startswith "https://" (APICaller.pr_url parsed) = true)
        /\ Forall Scenario.url_token_char (Text.chars (APICaller.pr_url parsed))
    | Raise _ => True
    end.
Proof.
  intros json_loads parse_qsl request.
  destruct (parse_cases json_loads parse_qsl request)
    as [[_ ->] | [(r & e & _ & _ & ->)
                 | (r & p & _ & _ & -> & _ & _ & _ & H1 & H2 & _)]];
    [exact I | exact I | by split].
Qed.

(** X20.  The parser fails in two ways only: with the missing-URL
    [ValueError] when the text has no URL, and with whatever [json.loads]
    raises on a JSON-looking body apart from [JSONDecodeError], which is the
    one class the parser catches.  An accepted request never has query
    parameters or headers: [params] and [headers] are always empty, and a
    JSON body and form data never come together. *)
Theorem parsed_request_has_no_params :
  forall (json_loads : string -> result json)
         (parse_qsl : string -> list (string * string)) (request : string),
    match APICaller.parse_natural_language_request json_loads parse_qsl request with
    | Ok parsed =>
        APICaller.pr_params parsed = ∅
        /\ APICaller.pr_headers parsed = ∅
        /\ (is_Some (APICaller.pr_json parsed) -> APICaller.pr_data parsed = None)
    | Raise e =>
        (Scenario.remaining_text request = None
         /\ e = ValueError "Could not find a valid URL in the request")
        \/ (exists remaining,
              Scenario.remaining_text request = Some remaining
              /\ Scenario.json_failure json_loads remaining = Some e
              /\ is_json_decode_error e = false)
    end.
Proof.
  intros json_loads parse_qsl request.
  destruct (parse_cases json_loads parse_qsl request)
    as [[Hr ->] | [(r & e & Hr & Hj & ->)
                  | (r & p & _ & _ & -> & _ & H1 & H2 & _ & _ & H3 & _)]].
  - by left.
  - right. exists r. split; [exact Hr|]. split; [exact Hj|].
    unfold Scenario.json_failure in Hj.
    destruct (Regex.search APICaller.json_re r) as [jm|]; [|discriminate].
    destruct (json_loads _) as [j|e']; [discriminate|].
    destruct (is_json_decode_error e') eqn:Ed; [discriminate|].
    by injection Hj as <-.
  - by repeat split.
Qed.

Lemma http_method_already_upper (m : string) :
  m ∈ APICaller.http_methods ->
  APICaller.HTTPMethod (Text.upper m) = Ok m.
Proof.
  intros Hm. unfold APICaller.http_methods in Hm.
  repeat (apply elem_of_cons in Hm as [->|Hm]); [..|by apply elem_of_nil in Hm];
    reflexivity.
Qed.

(** X21.  [call_from_natural_language] never raises, and what it sends
    follows the parse: for an accepted text exactly one request goes out,
    with the parsed method and URL, empty query parameters, a 30 second
    timeout and certificate checks on; when the parser raises, for a missing
    URL or out of [json.loads], nothing is sent, the failure is logged and
    the reply is the error dictionary with [is_success] false and the
    exception's text. *)
Theorem natural_language_call_sends_the_parsed_request :
  forall (python_3_11 : bool)
         (transport : HttpRequest -> result APICaller.HttpResponse)
         (b64encode : string -> string)
         (json_loads : string -> result json)
         (parse_qsl : string -> list (string * string))
         (request : string) (w : World),
    exists env w',
      APICaller.call_from_natural_language python_3_11 transport b64encode json_loads parse_qsl
        request w = (Ok env, w')
      /\ match APICaller.parse_natural_language_request json_loads parse_qsl request with
         | Ok parsed =>
             exists rq,
               http_sent w' = (http_sent w ++ [rq])%list
               /\ rq_method rq = APICaller.pr_method parsed
               /\ rq_url rq = APICaller.pr_url parsed
               /\ rq_params rq = Some ∅
               /\ rq_timeout rq = 30
               /\ rq_verify_ssl rq = true
         | Raise e =>
             w' = with_log
                    (log w ++ [("Failed to process natural language request: "
                                ++ str_exn e)%string]) w
             /\ env = APICaller.mkEnvelope None None None None (Some false) None
                        (Some ("Failed to process request: " ++ str_exn e)%string)
         end.
Proof.
  intros python_3_11 transport b64encode json_loads parse_qsl request w.
  unfold APICaller.call_from_natural_language, try_except, bind, APICaller.lift.
  destruct (parse_cases json_loads parse_qsl request)
    as [[_ ->] | [(r & e & _ & _ & ->)
                 | (r & p & _ & _ & Hparse & Hm & Hp & _ & _ & _ & _ & Hto & Hssl)]].
  - eexists _, _. split; [reflexivity|]. by split.
  - eexists _, _. split; [reflexivity|]. by split.
  - rewrite Hparse.
    assert (Hvalid : APICaller.pr_method p ∈ APICaller.http_methods).
    { rewrite Hm. apply parsed_method_valid. }
    match goal with
    | |- context [APICaller.call python_3_11 transport b64encode ?a w] =>
        destruct (call_returns python_3_11 transport b64encode a w) as (env & w' & Hcall & _);
        destruct (call_sent python_3_11 transport b64encode a (APICaller.pr_method p) w
                    (http_method_already_upper _ Hvalid))
          as (rq & H1 & H2 & H3 & H4 & H5 & H6 & _)
    end.
    rewrite Hcall in H1 |- *. simpl in H1, H4, H5, H6.
    exists env, w'. split; [reflexivity|].
    exists rq. rewrite Hp in H4. rewrite Hto in H5. rewrite Hssl in H6.
    by repeat split.
Qed.

(** * Further properties of the orchestrator *)

Section ArunInvocation.

Import MultiAgent Frame.

Lemma convert_step_fst st (m : MessageArg) :
  fst (convert_step st m) = (fst st ++ from_option (fun x => [x]) [] (lc_message m))%list.
Proof.
  destruct st as [ch lu]. unfold convert_step, lc_message. simpl.
  destruct (String.eqb _ USER); [reflexivity|].
  destruct (String.eqb _ ASSISTANT); [reflexivity|].
  destruct (String.eqb _ SYSTEM); [reflexivity|].
  simpl. by rewrite app_nil_r.
Qed.

(** The history [arun] builds: the messages with a user, assistant or
    system role, in order. *)
Lemma convert_fst (messages : list MessageArg) :
  forall st,
    fst (fold_left convert_step messages st) = (fst st ++ omap lc_message messages)%list.
Proof.
  induction messages as [|m messages IH]; intros st; simpl.
  - by rewrite app_nil_r.
  - rewrite IH, convert_step_fst.
    destruct (lc_message m); simpl; [by rewrite <- app_assoc | by rewrite app_nil_r].
Qed.

Lemma trimmed_history {A} (l : list A) :
  (if (1 <? length l)%nat then drop_last l else []) = drop_last l.
Proof. destruct l as [|x [|y l]]; reflexivity. Qed.

Variable ainvoke : AgentInput -> result AgentResult.

Lemma arun_invoked (messages : list MessageArg) (text : string) (w : World) :
  snd (convert messages) = Some text -> text <> "" ->
  let i := mkAgentInput text (drop_last (omap lc_message messages)) in
  arun ainvoke messages w
  = match ainvoke i with
    | Ok res =>
        (Ok (mkAgentReply
               (reply_message
                  (default "I apologize, but I encountered an error processing your request."
                           (output res)))
               (let tool_calls := collect_tool_calls (default [] (intermediate_steps res)) in
                if truthy_list tool_calls then Some tool_calls else None)),
         with_llm_invocations (llm_invocations w ++ [i]) w)
    | Raise e =>
        (Ok (mkAgentReply
               (reply_message ("I encountered an error while processing your request: "
                               ++ str_exn e))
               None),
         with_log (log w ++ [("Error in agent execution: " ++ str_exn e)%string])
           (with_llm_invocations (llm_invocations w ++ [i]) w))
    end.
Proof.
  intros Hc Hne i. unfold arun, try_except.
  pose proof (convert_fst messages ([], None)) as Hfst. fold (convert messages) in Hfst.
  destruct (convert messages) as [ch last]. simpl in Hc, Hfst. subst last ch.
  destruct text as [|c text]; [congruence|]. cbn [falsy_opt_str truthy_str negb].
  unfold bind, invoke.
  change (default "" (Some (String c text))) with (String c text).
  rewrite trimmed_history. fold i.
  destruct (ainvoke i) as [res|e]; [|reflexivity].
  by destruct (intermediate_steps res).
Qed.

End ArunInvocation.

(** X22.  What reaches the model: when the last user-role message has
    non-empty content, [arun] invokes the executor exactly once, with that
    content as input and, as history, the user, assistant and system
    messages in order minus the last of them; messages with the tool role
    or an unknown role are never passed on. *)
Theorem arun_passes_trimmed_history :
  forall (ainvoke : AgentInput -> result MultiAgent.AgentResult)
         (pre post : list MessageArg) (m : MessageArg) (w : World),
    role (to_dict m) = "user" ->
    (forall m', m' ∈ post -> role (to_dict m') <> "user") ->
    content (to_dict m) <> "" ->
    llm_invocations (snd (MultiAgent.arun ainvoke (pre ++ m :: post)%list w))
    = (llm_invocations w
         ++ [mkAgentInput (content (to_dict m))
               (drop_last (omap Frame.lc_message (pre ++ m :: post)%list))])%list.
Proof.
  intros ainvoke pre post m w Hm Hpost Hc.
  rewrite (arun_invoked ainvoke (pre ++ m :: post)%list (content (to_dict m)) w
             (convert_last_user pre post m Hm Hpost) Hc).
  by destruct (ainvoke _).
Qed.

Lemma arun_passes_trimmed_history_witness :
  llm_invocations
    (snd (MultiAgent.arun (fun _ => Ok (MultiAgent.mkAgentResult (Some "done") None))
            [AsDict Sample.hello;
             AsDict (mkMessage "tool" "42" None None None);
             AsDict Sample.hi]
            Sample.empty_world))
  = [mkAgentInput "hello" [HumanMessage "hello"]].
Proof.
  exact (arun_passes_trimmed_history
           (fun _ => Ok (MultiAgent.mkAgentResult (Some "done") None))
           [] [AsDict (mkMessage "tool" "42" None None None); AsDict Sample.hi]
           (AsDict Sample.hello) Sample.empty_world eq_refl
           ltac:(intros m' Hm';
                 repeat (apply elem_of_cons in Hm' as [->|Hm']; [discriminate|]);
                 by apply elem_of_nil in Hm')
           ltac:(discriminate)).
Defined.

(** X23.  What [arun] makes of the executor's answer.  A result becomes an
    assistant message with its output (or the fixed apology when the output
    is missing) and the tool steps in order, [None] when there are none; an
    exception becomes an assistant message with the error text and no tool
    calls, and is logged.  Either way [arun] returns. *)
Theorem arun_reply_follows_executor :
  forall (ainvoke : AgentInput -> result MultiAgent.AgentResult)
         (pre post : list MessageArg) (m : MessageArg) (w : World),
    role (to_dict m) = "user" ->
    (forall m', m' ∈ post -> role (to_dict m') <> "user") ->
    content (to_dict m) <> "" ->
    exists reply w',
      MultiAgent.arun ainvoke (pre ++ m :: post)%list w = (Ok reply, w')
      /\ role (MultiAgent.message reply) = "assistant"
      /\ match ainvoke (mkAgentInput (content (to_dict m))
                          (drop_last (omap Frame.lc_message (pre ++ m :: post)%list))) with
         | Ok res =>
             content (MultiAgent.message reply)
             = default "I apologize, but I encountered an error processing your request."
                       (MultiAgent.output res)
             /\ MultiAgent.reply_tool_calls reply
                = match MultiAgent.collect_tool_calls
                          (default [] (MultiAgent.intermediate_steps res)) with
                  | [] => None
                  | calls => Some calls
                  end
             /\ log w' = log w
         | Raise e =>
             content (MultiAgent.message reply)
             = "I encountered an error while processing your request: " ++ str_exn e
             /\ MultiAgent.reply_tool_calls reply = None
             /\ log w' = (log w ++ [("Error in agent execution: " ++ str_exn e)%string])%list
         end.
Proof.
  intros ainvoke pre post m w Hm Hpost Hc.
  rewrite (arun_invoked ainvoke (pre ++ m :: post)%list (content (to_dict m)) w
             (convert_last_user pre post m Hm Hpost) Hc).
  destruct (ainvoke _) as [res|e]; eexists _, _; (split; [reflexivity|]);
    (split; [reflexivity|]); cbn [MultiAgent.message MultiAgent.reply_tool_calls];
    repeat split.
  by destruct (MultiAgent.collect_tool_calls _).
Qed.

Lemma arun_reply_follows_executor_witness :
  exists reply w',
    MultiAgent.arun (fun _ => Raise (TimeoutError "model timed out"))
      [AsDict Sample.hello] Sample.empty_world = (Ok reply, w')
    /\ content (MultiAgent.message reply)
       = "I encountered an error while processing your request: model timed out"
    /\ MultiAgent.reply_tool_calls reply = None.
Proof.
  destruct (arun_reply_follows_executor (fun _ => Raise (TimeoutError "model timed out"))
              [] [] (AsDict Sample.hello) Sample.empty_world eq_refl
              ltac:(intros m' Hm'; by apply elem_of_nil in Hm') ltac:(discriminate))
    as (reply & w' & H1 & _ & H3 & H4 & _).
  exists reply, w'. split; [exact H1|]. split; [exact H3 | exact H4].
Defined.

(** * Configuration and repository analysis *)

(** ** Splitting and joining *)

Section SplitJoin.

Import Strings.

Local Open Scope nat_scope.

Lemma split_chars_skip (sep : list ascii) (l : list ascii) :
  forall cur k,
    k <= length l ->
    split_chars sep l cur k = split_chars sep (drop k l) cur 0.
Proof.
  induction l as [|c l IH]; intros cur k Hk.
  - simpl in Hk. replace k with 0 by lia. reflexivity.
  - destruct k as [|k]; [reflexivity|]. simpl in Hk |- *. apply IH. lia.
Qed.

Lemma split_chars_nonempty (sep l cur : list ascii) (k : nat) :
  split_chars sep l cur k <> [].
Proof.
  revert cur k. induction l as [|c l IH]; intros cur k; simpl; [discriminate|].
  destruct k; [|apply IH]. case_bool_decide; [discriminate | apply IH].
Qed.

Lemma join_chars_cons (sep p : list ascii) (rest : list (list ascii)) :
  rest <> [] -> join_chars sep (p :: rest) = (p ++ sep ++ join_chars sep rest)%list.
Proof. destruct rest; [congruence | reflexivity]. Qed.

(** Joining the pieces with the separator gives the text back. *)
Lemma join_split_chars (sep : list ascii) :
  sep <> [] ->
  forall n l cur,
    length l <= n ->
    join_chars sep (split_chars sep l cur 0) = (rev cur ++ l)%list.
Proof.
  intros Hsep n. induction n as [|n IH]; intros l cur Hn.
  - destruct l; [|simpl in Hn; lia]. simpl. by rewrite app_nil_r.
  - destruct l as [|c l]; [simpl; by rewrite app_nil_r|].
    cbn [split_chars]. case_bool_decide as Hpre.
    + assert (Hlen : length sep <= length (c :: l)).
      { rewrite <- Hpre at 1. rewrite length_take. lia. }
      assert (Hpos : 0 < length sep) by (destruct sep; [congruence | simpl; lia]).
      simpl in Hlen, Hn.
      rewrite join_chars_cons by apply split_chars_nonempty.
      rewrite split_chars_skip by lia.
      rewrite IH by (rewrite length_drop; lia).
      simpl. f_equal.
      transitivity (take (length sep) (c :: l) ++ drop (length sep) (c :: l))%list;
        [|apply take_drop].
      rewrite Hpre. f_equal.
      destruct (length sep) as [|k]; [lia|]. simpl. by rewrite Nat.sub_0_r.
    + rewrite IH by (simpl in Hn; lia). simpl. by rewrite <- app_assoc.
Qed.

Lemma split_two_parts (sep s a b : string) :
  sep <> "" ->
  split sep s = [a; b] -> s = a ++ sep ++ b.
Proof.
  intros Hsep Hs. unfold split in Hs.
  assert (Hsep' : Text.chars sep <> []) by (destruct sep; [congruence | discriminate]).
  pose proof (join_split_chars (Text.chars sep) Hsep' _ (Text.chars s) [] (le_n _)) as Hj.
  destruct (split_chars (Text.chars sep) (Text.chars s) [] 0) as [|x [|y [|z r]]];
    try discriminate.
  injection Hs as <- <-. simpl in Hj.
  rewrite <- (string_of_list_ascii_of_string s). unfold Text.chars in *.
  rewrite <- Hj. clear.
  unfold Text.of_chars.
  assert (Happ : forall u v, string_of_list_ascii (u ++ v)
                             = string_of_list_ascii u ++ string_of_list_ascii v).
  { induction u as [|c u IH]; intros v; simpl; [reflexivity | by rewrite IH]. }
  by rewrite !Happ, string_of_list_ascii_of_string.
Qed.

Lemma contains_chars_prefix (sub b : list ascii) :
  Text.contains_chars sub (sub ++ b) = true.
Proof.
  assert (H : bool_decide (take (length sub) (sub ++ b) = sub) = true).
  { apply bool_decide_eq_true_2. by rewrite take_app_length. }
  destruct (sub ++ b)%list; simpl; simpl in H; by rewrite H.
Qed.

Lemma contains_chars_middle (sub a b : list ascii) :
  Text.contains_chars sub (a ++ sub ++ b) = true.
Proof.
  induction a as [|c a IH]; simpl.
  - apply contains_chars_prefix.
  - case_bool_decide; [reflexivity | exact IH].
Qed.

End SplitJoin.

(** X24.  Configuring the Redis URL is idempotent and never touches a URL
    that already has credentials: with an empty password or an [@] in the
    URL the value is returned unchanged, and when it is changed the URL was
    [scheme://rest] and becomes [scheme://:password@rest], which contains an
    [@], so running the configuration again changes nothing. *)
Theorem configure_redis_url_is_idempotent :
  forall (redis_password redis_url : string),
    let configured := Config.configure_redis_url redis_password redis_url in
    Config.configure_redis_url redis_password configured = configured
    /\ (redis_password = "" \/ Text.contains "@" redis_url = true ->
        configured = redis_url)
    /\ (configured <> redis_url ->
        exists scheme rest,
          redis_url = scheme ++ "://" ++ rest
          /\ configured = scheme ++ "://:" ++ redis_password ++ "@" ++ rest).
Proof.
  intros redis_password redis_url. cbv zeta.
  assert (Hkeep : forall u,
            redis_password = "" \/ Text.contains "@" u = true ->
            Config.configure_redis_url redis_password u = u).
  { intros u [-> | H]; unfold Config.configure_redis_url; [reflexivity|].
    by rewrite H, andb_false_r. }
  assert (Hcases :
    Config.configure_redis_url redis_password redis_url = redis_url
    \/ exists a b,
         Strings.split "://" redis_url = [a; b]
         /\ Config.configure_redis_url redis_password redis_url
            = a ++ "://:" ++ redis_password ++ "@" ++ b).
  { unfold Config.configure_redis_url.
    destruct (truthy_str redis_password && negb (Text.contains "@" redis_url));
      [|by left].
    destruct (Strings.split "://" redis_url) as [|a [|b [|c r]]]; eauto. }
  destruct Hcases as [Heq | (a & b & Es & Heq)].
  - rewrite Heq. split; [exact Heq|]. split; [reflexivity | congruence].
  - rewrite Heq. split; [|split].
    + apply Hkeep. right. unfold Text.contains.
      rewrite !chars_append.
      rewrite (app_assoc (Text.chars a)), (app_assoc _ (Text.chars redis_password)).
      apply contains_chars_middle.
    + intros H. rewrite <- Heq. by apply Hkeep.
    + intros _. exists a, b. split; [|reflexivity].
      by apply (split_two_parts "://").
Qed.

(** ** Features and use cases from a README *)

Section Readme.

Import GitHubAnalyzer AnalyzerSpec.

Lemma readme_step_cases (st : ReadmeState) (line : string) :
  readme_step st line
  = if is_features_heading line
    then mkReadmeState true false (features st) (usecases st)
    else if is_usecase_marker line
    then mkReadmeState false true (features st) (usecases st)
    else if is_list_item line then
      if in_features_section st then
        mkReadmeState (in_features_section st) (in_usecase_section st)
          (features st ++ [list_item_text line]) (usecases st)
      else if in_usecase_section st then
        mkReadmeState (in_features_section st) (in_usecase_section st)
          (features st) (usecases st ++ [list_item_text line])
      else st
    else st.
Proof. reflexivity. Qed.

(** Without a features heading the features section never opens. *)
Lemma scan_without_heading (lines : list string) :
  forall st,
    (forall line, line ∈ lines -> is_features_heading line = false) ->
    in_features_section st = false -> features st = [] ->
    in_features_section (fold_left readme_step lines st) = false
    /\ features (fold_left readme_step lines st) = [].
Proof.
  induction lines as [|line lines IH]; intros st Hno Hin Hf; [by split|].
  simpl. apply IH.
  - intros l Hl. apply Hno. by right.
  - rewrite readme_step_cases, (Hno line (list_elem_of_here _ _)).
    destruct (is_usecase_marker line); [reflexivity|].
    destruct (is_list_item line); [|assumption].
    rewrite Hin. by destruct (in_usecase_section st).
  - rewrite readme_step_cases, (Hno line (list_elem_of_here _ _)).
    destruct (is_usecase_marker line); [assumption|].
    destruct (is_list_item line); [|assumption].
    rewrite Hin. by destruct (in_usecase_section st).
Qed.

Lemma scan_without_marker (lines : list string) :
  forall st,
    (forall line, line ∈ lines -> is_usecase_marker line = false) ->
    in_usecase_section st = false -> usecases st = [] ->
    in_usecase_section (fold_left readme_step lines st) = false
    /\ usecases (fold_left readme_step lines st) = [].
Proof.
  induction lines as [|line lines IH]; intros st Hno Hin Hu; [by split|].
  simpl. apply IH.
  - intros l Hl. apply Hno. by right.
  - rewrite readme_step_cases, (Hno line (list_elem_of_here _ _)).
    destruct (is_features_heading line); [reflexivity|].
    destruct (is_list_item line); [|assumption].
    rewrite Hin. by destruct (in_features_section st).
  - rewrite readme_step_cases, (Hno line (list_elem_of_here _ _)).
    destruct (is_features_heading line); [assumption|].
    destruct (is_list_item line); [|assumption].
    rewrite Hin. by destruct (in_features_section st).
Qed.

(** Everything collected is the text of a list item of the README. *)
Lemma scan_items (all : list string) (lines : list string) :
  forall st,
    (forall line, line ∈ lines -> line ∈ all) ->
    Forall (item_of_line all) (features st) ->
    Forall (item_of_line all) (usecases st) ->
    Forall (item_of_line all) (features (fold_left readme_step lines st))
    /\ Forall (item_of_line all) (usecases (fold_left readme_step lines st)).
Proof.
  induction lines as [|line lines IH]; intros st Hsub Hf Hu; [by split|].
  simpl. assert (Hline : line ∈ all) by (apply Hsub; left).
  apply IH; [intros l Hl; apply Hsub; by right | |];
    rewrite readme_step_cases;
    destruct (is_features_heading line) eqn:Eh; [assumption| |assumption|];
    destruct (is_usecase_marker line) eqn:Em; [assumption| |assumption|];
    destruct (is_list_item line) eqn:Ei; [|assumption| |assumption];
    destruct (in_features_section st); simpl; try assumption;
    try (apply Forall_app; split; [assumption|];
         constructor; [by exists line | constructor]);
    destruct (in_usecase_section st); simpl; try assumption;
    apply Forall_app; split; [assumption|];
    constructor; [by exists line | constructor].
Qed.

End Readme.

(** X25.  A README gives features only below a features heading, and use
    cases only below a use-case marker: if no line contains "feature" (in
    any case) together with [##] or [# ], the features text is empty, and
    if no line contains "usecase", "use case" or "examples", the use-case
    text is empty, whatever list items the README has. *)
Theorem readme_sections_need_a_heading :
  forall (readme_content : string),
    let lines := Strings.split Strings.newline readme_content in
    ((forall line, line ∈ lines -> AnalyzerSpec.is_features_heading line = false) ->
     fst (GitHubAnalyzer.extract_features_from_readme readme_content) = "")
    /\ ((forall line, line ∈ lines -> AnalyzerSpec.is_usecase_marker line = false) ->
        snd (GitHubAnalyzer.extract_features_from_readme readme_content) = "").
Proof.
  intros readme_content lines. unfold GitHubAnalyzer.extract_features_from_readme.
  fold lines. unfold GitHubAnalyzer.readme_scan. split; intros Hno; cbn [fst snd].
  - destruct (scan_without_heading lines
                (GitHubAnalyzer.mkReadmeState false false [] []) Hno eq_refl eq_refl)
      as [_ ->]. reflexivity.
  - destruct (scan_without_marker lines
                (GitHubAnalyzer.mkReadmeState false false [] []) Hno eq_refl eq_refl)
      as [_ ->]. reflexivity.
Qed.

(** X26.  The features text joins at most five entries and the use-case
    text at most three, each the cleaned text of a list item of the README
    (a line starting with [- ] or [* ], or with a digit and [. ] within its
    first five characters), and never of a line that opens a section. *)
Theorem readme_entries_are_list_items :
  forall (readme_content : string),
    let lines := Strings.split Strings.newline readme_content in
    exists feature_items usecase_items,
      GitHubAnalyzer.extract_features_from_readme readme_content
      = (Strings.join ", " feature_items, Strings.join ", " usecase_items)
      /\ (length feature_items <= 5)%nat
      /\ (length usecase_items <= 3)%nat
      /\ Forall (AnalyzerSpec.item_of_line lines) feature_items
      /\ Forall (AnalyzerSpec.item_of_line lines) usecase_items.
Proof.
  intros readme_content lines. unfold GitHubAnalyzer.extract_features_from_readme.
  fold lines. unfold GitHubAnalyzer.readme_scan.
  destruct (scan_items lines lines (GitHubAnalyzer.mkReadmeState false false [] []))
    as [Hf Hu]; [auto | constructor | constructor |].
  eexists _, _. split; [reflexivity|].
  split; [rewrite length_take; lia|]. split; [rewrite length_take; lia|].
  split; by apply Forall_take.
Qed.

(** ** The inferred functionality and the code analysis *)

Section Functionality.

Import GitHubAnalyzer AnalyzerSpec.

Lemma any_in_app (xs ys : list string) (description : string) :
  any_in (xs ++ ys) description = any_in xs description || any_in ys description.
Proof. apply existsb_app. Qed.

Lemma description_terms_groups (description : string) :
  any_in description_terms description
  = any_in ["web app"; "web application"; "website"] description
    || (any_in ["api"; "rest"; "graphql"] description
        || (any_in ["cli"; "command line"] description
            || any_in ["library"; "framework"] description)).
Proof.
  change description_terms
    with (["web app"; "web application"; "website"] ++ ["api"; "rest"; "graphql"]
          ++ ["cli"; "command line"] ++ ["library"; "framework"])%list.
  by rewrite !any_in_app.
Qed.

Lemma no_ruled_framework (frameworks : gset string) :
  (forall fw, fw ∈ ruled_frameworks -> fw ∉ frameworks) <->
  ("django" ∉ frameworks) /\ ("flask" ∉ frameworks) /\ ("react" ∉ frameworks)
  /\ ("angular" ∉ frameworks) /\ ("vue" ∉ frameworks) /\ ("spring" ∉ frameworks).
Proof.
  unfold ruled_frameworks. split.
  - intros H. repeat split; apply H; set_solver.
  - intros (H1 & H2 & H3 & H4 & H5 & H6) fw Hfw.
    repeat (apply elem_of_cons in Hfw as [-> | Hfw]; [assumption|]).
    by apply elem_of_nil in Hfw.
Qed.

Lemma infer_name_error (repo_description : option string)
    (primary_language : string) (frameworks : gset string) :
  infer_primary_functionality repo_description primary_language frameworks
  = NameError "primary_lower"
  <-> any_in description_terms (Text.lower (default "" repo_description)) = false
      /\ (forall fw, fw ∈ ruled_frameworks -> fw ∉ frameworks).
Proof.
  rewrite description_terms_groups, no_ruled_framework.
  unfold infer_primary_functionality. cbv zeta.
  destruct (any_in ["web app"; "web application"; "website"] _);
    [split; [discriminate | by intros [? _]]|].
  destruct (any_in ["api"; "rest"; "graphql"] _);
    [split; [discriminate | by intros [? _]]|].
  destruct (any_in ["cli"; "command line"] _);
    [split; [discriminate | by intros [? _]]|].
  destruct (any_in ["library"; "framework"] _);
    [split; [discriminate | by intros [? _]]|].
  cbn [orb].
  assert (Hne : forall fw, fw ∈ frameworks -> bool_decide (frameworks = ∅) = false).
  { intros fw Hfw. apply bool_decide_eq_false_2. set_solver. }
  destruct (bool_decide ("django" ∈ frameworks)) eqn:E1.
  { apply bool_decide_eq_true_1 in E1. rewrite (Hne _ E1). cbn.
    split; [discriminate | by intros (_ & ? & _)]. }
  destruct (bool_decide ("flask" ∈ frameworks)) eqn:E2.
  { apply bool_decide_eq_true_1 in E2. rewrite (Hne _ E2). cbn.
    split; [discriminate | by intros (_ & _ & ? & _)]. }
  destruct (bool_decide ("react" ∈ frameworks)) eqn:E3.
  { apply bool_decide_eq_true_1 in E3. rewrite (Hne _ E3). cbn.
    split; [discriminate | by intros (_ & _ & _ & ? & _)]. }
  destruct (bool_decide ("angular" ∈ frameworks)) eqn:E4.
  { apply bool_decide_eq_true_1 in E4. rewrite (Hne _ E4). cbn.
    split; [discriminate | by intros (_ & _ & _ & _ & ? & _)]. }
  destruct (bool_decide ("vue" ∈ frameworks)) eqn:E5.
  { apply bool_decide_eq_true_1 in E5. rewrite (Hne _ E5). cbn.
    split; [discriminate | by intros (_ & _ & _ & _ & _ & ? & _)]. }
  destruct (bool_decide ("spring" ∈ frameworks)) eqn:E6.
  { apply bool_decide_eq_true_1 in E6. rewrite (Hne _ E6). cbn.
    split; [discriminate | by intros (_ & _ & _ & _ & _ & _ & ?)]. }
  apply bool_decide_eq_false_1 in E1, E2, E3, E4, E5, E6.
  rewrite !andb_false_r. by split.
Qed.

Lemma infer_values (repo_description : option string)
    (primary_language : string) (frameworks : gset string) (functionality : string) :
  infer_primary_functionality repo_description primary_language frameworks
  = Inferred functionality ->
  functionality ∈ ["Web Application"; "API Service"; "Command Line Tool";
                   (primary_language ++ " Library")%string;
                   "Frontend Application"; "Enterprise Java Application"].
Proof.
  unfold infer_primary_functionality. cbv zeta.
  repeat match goal with
         | |- context [if ?b then _ else _] => destruct b
         end;
    intros H; try discriminate; injection H as <-; set_solver.
Qed.

(** The loop over the listing detects a framework only from a file. *)
Lemma layout_scan_detects (fw : string) (contents : list ContentItem) :
  forall st,
    fw ∉ detected_frameworks st ->
    (forall item, item ∈ contents -> item_type item <> "dir" ->
                  fw ∉ frameworks_of_file (item_path item)) ->
    fw ∉ detected_frameworks (fold_left layout_step contents st).
Proof.
  induction contents as [|item contents IH]; intros st Hst Hfiles; [assumption|].
  simpl. apply IH; [|intros i Hi; apply Hfiles; by right].
  unfold layout_step. destruct (String.eqb (item_type item) "dir") eqn:Ed.
  - repeat match goal with
           | |- context [if ?b then _ else _] => destruct b
           end; assumption.
  - cbn [detected_frameworks]. apply String.eqb_neq in Ed.
    pose proof (Hfiles item (list_elem_of_here _ _) Ed) as Hfile.
    intros [Hin | Hin]%elem_of_union; contradiction.
Qed.

End Functionality.

(** X27.  [_infer_primary_functionality] never reaches its language table:
    it ends in the [NameError] for [primary_lower] exactly when the
    description has none of the ten keywords and the frameworks contain none
    of django, flask, react, angular, vue and spring; otherwise it returns
    one of six fixed answers, so "Python Application", "Software Application"
    and the other entries of the table are never returned. *)
Theorem language_fallback_is_never_returned :
  forall (repo_description : option string) (primary_language : string)
         (frameworks : gset string),
    (GitHubAnalyzer.infer_primary_functionality repo_description primary_language frameworks
     = GitHubAnalyzer.NameError "primary_lower"
     <-> GitHubAnalyzer.any_in AnalyzerSpec.description_terms
           (Text.lower (default "" repo_description)) = false
         /\ (forall fw, fw ∈ AnalyzerSpec.ruled_frameworks -> fw ∉ frameworks))
    /\ (forall functionality,
          GitHubAnalyzer.infer_primary_functionality repo_description primary_language
            frameworks = GitHubAnalyzer.Inferred functionality ->
          functionality ∈ ["Web Application"; "API Service"; "Command Line Tool";
                           (primary_language ++ " Library")%string;
                           "Frontend Application"; "Enterprise Java Application"])
    /\ (forall name,
          GitHubAnalyzer.infer_primary_functionality repo_description primary_language
            frameworks = GitHubAnalyzer.NameError name ->
          name = "primary_lower").
Proof.
  intros repo_description primary_language frameworks. split; [|split].
  - apply infer_name_error.
  - apply infer_values.
  - intros name. unfold GitHubAnalyzer.infer_primary_functionality. cbv zeta.
    repeat match goal with
           | |- context [if ?b then _ else _] => destruct b
           end;
      intros H; try discriminate; by injection H as <-.
Qed.

(** X28.  For a repository whose description has none of the ten keywords
    and whose top-level files hint at none of django, flask, react, angular,
    vue and spring, [_analyze_codebase] returns no analysis: the listing is
    scanned, the inference raises, and the result is the error dictionary
    for the undefined name, with one error logged. *)
Theorem plain_repository_gets_no_analysis :
  forall (repo : GitHubAnalyzer.Repo) (contents : list GitHubAnalyzer.ContentItem),
    GitHubAnalyzer.repo_contents repo = inr contents ->
    GitHubAnalyzer.any_in AnalyzerSpec.description_terms
      (Text.lower (default "" (GitHubAnalyzer.repo_description repo))) = false ->
    (forall item fw,
        item ∈ contents -> GitHubAnalyzer.item_type item <> "dir" ->
        fw ∈ AnalyzerSpec.ruled_frameworks ->
        fw ∉ GitHubAnalyzer.frameworks_of_file (GitHubAnalyzer.item_path item)) ->
    GitHubAnalyzer.analyze_codebase repo
    = (GitHubAnalyzer.AnalysisError
         "Code analysis failed: name 'primary_lower' is not defined",
       ["Error analyzing codebase: name 'primary_lower' is not defined"]).
Proof.
  intros repo contents Hc Hd Hfiles. unfold GitHubAnalyzer.analyze_codebase.
  rewrite Hc. cbv zeta.
  match goal with
  | |- context [GitHubAnalyzer.infer_primary_functionality ?d ?l ?f] =>
      assert (E : GitHubAnalyzer.infer_primary_functionality d l f
                  = GitHubAnalyzer.NameError "primary_lower")
  end.
  { apply infer_name_error. split; [exact Hd|].
    intros fw Hfw. apply layout_scan_detects; [set_solver|].
    intros item Hi Ht. by apply Hfiles. }
  rewrite E. reflexivity.
Qed.

Lemma plain_repository_gets_no_analysis_witness :
  GitHubAnalyzer.analyze_codebase
    (GitHubAnalyzer.mkRepo
       (inr [GitHubAnalyzer.mkContentItem "file" "README.md" "README.md";
             GitHubAnalyzer.mkContentItem "dir" "src" "src";
             GitHubAnalyzer.mkContentItem "file" "main.go" "main.go"])
       (Some "Go") (Some "A tiny scheduler"))
  = (GitHubAnalyzer.AnalysisError
       "Code analysis failed: name 'primary_lower' is not defined",
     ["Error analyzing codebase: name 'primary_lower' is not defined"]).
Proof.
  apply (plain_repository_gets_no_analysis _
           [GitHubAnalyzer.mkContentItem "file" "README.md" "README.md";
            GitHubAnalyzer.mkContentItem "dir" "src" "src";
            GitHubAnalyzer.mkContentItem "file" "main.go" "main.go"]).
  - reflexivity.
  - vm_compute. reflexivity.
  - intros item fw Hi Ht Hfw.
    assert (E : GitHubAnalyzer.frameworks_of_file (GitHubAnalyzer.item_path item) = ∅).
    { repeat (apply elem_of_cons in Hi as [-> | Hi]);
        [vm_compute; reflexivity | by destruct Ht | vm_compute; reflexivity
        | by apply elem_of_nil in Hi]. }
    rewrite E. set_solver.
Defined.

(** ** What the code analysis reports of the listing *)

Section Listing.

Import GitHubAnalyzer AnalyzerSpec.

Lemma frameworks_of_file_spec (fw path : string) :
  fw ∈ frameworks_of_file path
  <-> exists files f,
        (fw, files) ∈ framework_hints /\ f ∈ files
        /\ Text.contains (Text.lower f) (Text.lower path) = true.
Proof.
  unfold frameworks_of_file. rewrite elem_of_list_to_set, list_elem_of_In, in_map_iff.
  split.
  - intros ([fw' files] & Hfst & Hin). simpl in Hfst. subst fw'.
    apply list_elem_of_In, list_elem_of_filter in Hin as [Hex Hin]. simpl in Hex.
    apply existsb_exists in Hex as (f & Hf & Hc).
    exists files, f. repeat split; try assumption. by apply list_elem_of_In.
  - intros (files & f & Hin & Hf & Hc). exists (fw, files). split; [reflexivity|].
    apply list_elem_of_In, list_elem_of_filter. split; [|assumption].
    simpl. apply existsb_exists. exists f. split; [by apply list_elem_of_In | assumption].
Qed.

Lemma layout_step_detected (st : Layout) (item : ContentItem) (fw : string) :
  fw ∈ detected_frameworks (layout_step st item)
  <-> fw ∈ detected_frameworks st
      \/ (item_type item <> "dir" /\ fw ∈ frameworks_of_file (item_path item)).
Proof.
  unfold layout_step. destruct (String.eqb (item_type item) "dir") eqn:Ed.
  - apply String.eqb_eq in Ed.
    assert (E : forall st', detected_frameworks st' = detected_frameworks st ->
              (fw ∈ detected_frameworks st'
               <-> fw ∈ detected_frameworks st
                   \/ (item_type item <> "dir" /\ fw ∈ frameworks_of_file (item_path item)))).
    { intros st' ->. split; [by left | by intros [? | [? _]]]. }
    repeat match goal with
           | |- context [if ?b then _ else _] => destruct b
           end; by apply E.
  - apply String.eqb_neq in Ed. cbn [detected_frameworks].
    rewrite elem_of_union. tauto.
Qed.

Lemma layout_step_flags (st : Layout) (item : ContentItem) :
  (has_src (layout_step st item) = true
   <-> has_src st = true
       \/ (item_type item = "dir" /\ Text.lower (item_name item) ∈ ["src"]))
  /\ (has_tests (layout_step st item) = true
      <-> has_tests st = true
          \/ (item_type item = "dir" /\ Text.lower (item_name item) ∈ ["test"; "tests"]))
  /\ (has_docs (layout_step st item) = true
      <-> has_docs st = true
          \/ (item_type item = "dir" /\ Text.lower (item_name item) ∈ ["doc"; "docs"])).
Proof.
  unfold layout_step. destruct (String.eqb (item_type item) "dir") eqn:Ed.
  - apply String.eqb_eq in Ed.
    remember (Text.lower (item_name item)) as name eqn:En. clear En.
    destruct (String.eqb name "src") eqn:E1;
      [apply String.eqb_eq in E1; subst name; cbn;
       repeat split; try tauto; try (intros [? | [_ Hn]]; [assumption|]);
       try (right; split; [assumption | by left]);
       by (repeat (apply elem_of_cons in Hn as [Hn | Hn]; [discriminate|]);
           apply elem_of_nil in Hn)
      |].
    apply String.eqb_neq in E1.
    destruct (String.eqb name "test") eqn:E2;
      [apply String.eqb_eq in E2; subst name; cbn;
       repeat split; try tauto; try (intros [? | [_ Hn]]; [assumption|]);
       try (right; split; [assumption | by left]);
       by (repeat (apply elem_of_cons in Hn as [Hn | Hn]; [discriminate|]);
           apply elem_of_nil in Hn)
      |].
    apply String.eqb_neq in E2.
    destruct (String.eqb name "tests") eqn:E3;
      [apply String.eqb_eq in E3; subst name; cbn;
       repeat split; try tauto; try (intros [? | [_ Hn]]; [assumption|]);
       try (right; split; [assumption | right; by left]);
       by (repeat (apply elem_of_cons in Hn as [Hn | Hn]; [discriminate|]);
           apply elem_of_nil in Hn)
      |].
    apply String.eqb_neq in E3.
    destruct (String.eqb name "doc") eqn:E4;
      [apply String.eqb_eq in E4; subst name; cbn;
       repeat split; try tauto; try (intros [? | [_ Hn]]; [assumption|]);
       try (right; split; [assumption | by left]);
       by (repeat (apply elem_of_cons in Hn as [Hn | Hn]; [discriminate|]);
           apply elem_of_nil in Hn)
      |].
    apply String.eqb_neq in E4.
    destruct (String.eqb name "docs") eqn:E5;
      [apply String.eqb_eq in E5; subst name; cbn;
       repeat split; try tauto; try (intros [? | [_ Hn]]; [assumption|]);
       try (right; split; [assumption | right; by left]);
       by (repeat (apply elem_of_cons in Hn as [Hn | Hn]; [discriminate|]);
           apply elem_of_nil in Hn)
      |].
    apply String.eqb_neq in E5. cbn.
    repeat split; try tauto; intros [? | [_ Hn]]; try assumption;
      repeat (apply elem_of_cons in Hn as [Hn | Hn]; [congruence|]);
      by apply elem_of_nil in Hn.
  - apply String.eqb_neq in Ed. cbn. repeat split; try tauto; by intros [? | [? _]].
Qed.

Lemma hinted_cons (fw : string) (item : ContentItem) (contents : list ContentItem) :
  hinted fw (item :: contents)
  <-> (item_type item <> "dir" /\ fw ∈ frameworks_of_file (item_path item))
      \/ hinted fw contents.
Proof.
  unfold hinted. split.
  - intros (i & files & f & Hi & Ht & Hh & Hf & Hc).
    apply elem_of_cons in Hi as [-> | Hi].
    + left. split; [assumption|]. apply frameworks_of_file_spec. by exists files, f.
    + right. by exists i, files, f.
  - intros [[Ht (files & f & Hh & Hf & Hc)%frameworks_of_file_spec]
           | (i & files & f & Hi & Ht & Hh & Hf & Hc)].
    + exists item, files, f. repeat split; try assumption. by left.
    + exists i, files, f. repeat split; try assumption. by right.
Qed.

Lemma has_dir_cons (names : list string) (item : ContentItem) (contents : list ContentItem) :
  has_dir names (item :: contents)
  <-> (item_type item = "dir" /\ Text.lower (item_name item) ∈ names)
      \/ has_dir names contents.
Proof.
  unfold has_dir. split.
  - intros (i & Hi & Ht & Hn). apply elem_of_cons in Hi as [-> | Hi];
      [by left | right; by exists i].
  - intros [[Ht Hn] | (i & Hi & Ht & Hn)];
      [exists item; repeat split; try assumption; by left
      | exists i; repeat split; try assumption; by right].
Qed.

(** What the loop over the listing has found at its end. *)
Lemma layout_scan_spec (contents : list ContentItem) :
  forall st,
    (forall fw, fw ∈ detected_frameworks (fold_left layout_step contents st)
                <-> fw ∈ detected_frameworks st \/ hinted fw contents)
    /\ (has_src (fold_left layout_step contents st) = true
        <-> has_src st = true \/ has_dir ["src"] contents)
    /\ (has_tests (fold_left layout_step contents st) = true
        <-> has_tests st = true \/ has_dir ["test"; "tests"] contents)
    /\ (has_docs (fold_left layout_step contents st) = true
        <-> has_docs st = true \/ has_dir ["doc"; "docs"] contents).
Proof.
  induction contents as [|item contents IH]; intros st.
  - simpl. unfold hinted, has_dir.
    repeat split; try tauto; try (by left);
      try (intros [? | (? & ? & ? & []%elem_of_nil & _)]; assumption);
      intros [? | (? & []%elem_of_nil & _)]; assumption.
  - simpl. destruct (IH (layout_step st item)) as (Hd & Hs & Ht & Hdoc).
    destruct (layout_step_flags st item) as (Fs & Ft & Fd).
    repeat split.
    + intros H. apply Hd in H as [H | H]; [|right; apply hinted_cons; by right].
      apply layout_step_detected in H as [H | H]; [by left|].
      right. apply hinted_cons. by left.
    + intros H. apply Hd. destruct H as [H | H%hinted_cons].
      * left. apply layout_step_detected. by left.
      * destruct H as [H | H]; [|by right]. left. apply layout_step_detected. by right.
    + rewrite Hs, Fs, has_dir_cons. tauto.
    + rewrite Hs, Fs, has_dir_cons. tauto.
    + rewrite Ht, Ft, has_dir_cons. tauto.
    + rewrite Ht, Ft, has_dir_cons. tauto.
    + rewrite Hdoc, Fd, has_dir_cons. tauto.
    + rewrite Hdoc, Fd, has_dir_cons. tauto.
Qed.

Lemma two_frameworks_size (fws : gset string) (fw1 fw2 : string) :
  fw1 <> fw2 -> fw1 ∈ fws -> fw2 ∈ fws -> (1 <? size fws)%nat = true.
Proof.
  intros Hne H1 H2. apply Nat.ltb_lt.
  assert (Hsub : ({[fw1]} ∪ {[fw2]} : gset string) ⊆ fws).
  { intros x [->%elem_of_singleton | ->%elem_of_singleton]%elem_of_union; assumption. }
  apply subseteq_size in Hsub.
  rewrite size_union in Hsub by set_solver.
  rewrite !size_singleton in Hsub. lia.
Qed.

End Listing.

(** X29.  When [_analyze_codebase] returns an analysis of a listing, it
    reports the listing: a framework is detected exactly when a top-level
    file's path contains one of its hints (compared in lower case; a
    directory never counts), [has_tests] and [has_documentation] say whether
    there is a directory named test/tests and doc/docs (in any case), the
    pattern is "Microservices" exactly when more than one framework was
    detected, "Structured Monolithic" when not and src, tests and docs
    directories are all there, "Monolithic" otherwise; the language is the
    repository's, or "Unknown"; nothing is logged.  The only other outcome
    is the error dictionary for the undefined name. *)
Theorem code_analysis_reports_the_listing :
  forall (contents : list GitHubAnalyzer.ContentItem)
         (language description : option string),
    match GitHubAnalyzer.analyze_codebase
            (GitHubAnalyzer.mkRepo (inr contents) language description) with
    | (GitHubAnalyzer.Analysis architecture frameworks primary_language
         has_tests has_documentation functionality, logged) =>
        logged = []
        /\ (forall fw, fw ∈ frameworks <-> AnalyzerSpec.hinted fw contents)
        /\ (has_tests = true <-> AnalyzerSpec.has_dir ["test"; "tests"] contents)
        /\ (has_documentation = true <-> AnalyzerSpec.has_dir ["doc"; "docs"] contents)
        /\ (architecture = "Microservices" <-> (1 < size frameworks)%nat)
        /\ (architecture = "Structured Monolithic"
            <-> (size frameworks <= 1)%nat
                /\ AnalyzerSpec.has_dir ["src"] contents
                /\ has_tests = true /\ has_documentation = true)
        /\ architecture ∈ ["Microservices"; "Structured Monolithic"; "Monolithic"]
        /\ primary_language
           = match language with
             | Some l => if truthy_str l then l else "Unknown"
             | None => "Unknown"
             end
        /\ GitHubAnalyzer.infer_primary_functionality description primary_language
             frameworks = GitHubAnalyzer.Inferred functionality
    | (GitHubAnalyzer.AnalysisError error, logged) =>
        error = "Code analysis failed: name 'primary_lower' is not defined"
        /\ logged = ["Error analyzing codebase: name 'primary_lower' is not defined"]
    end.
Proof.
  intros contents language description.
  unfold GitHubAnalyzer.analyze_codebase.
  cbn [GitHubAnalyzer.repo_contents GitHubAnalyzer.repo_language
       GitHubAnalyzer.repo_description]. cbv zeta.
  destruct (layout_scan_spec contents (GitHubAnalyzer.mkLayout ∅ false false false))
    as (Hd & Hs & Ht & Hdoc).
  cbn [GitHubAnalyzer.detected_frameworks GitHubAnalyzer.has_src
       GitHubAnalyzer.has_tests GitHubAnalyzer.has_docs] in Hd, Hs, Ht, Hdoc.
  remember (fold_left GitHubAnalyzer.layout_step contents
              (GitHubAnalyzer.mkLayout ∅ false false false)) as st eqn:Est.
  clear Est.
  destruct (GitHubAnalyzer.infer_primary_functionality description _ _)
    as [functionality | name] eqn:Ei.
  - split; [reflexivity|].
    split; [intros fw; rewrite Hd; split; [intros [H | H]; [set_solver | exact H] | by right]|].
    split; [rewrite Ht; split; [intros [H | H]; [discriminate | exact H] | by right]|].
    split; [rewrite Hdoc; split; [intros [H | H]; [discriminate | exact H] | by right]|].
    assert (Hs' : GitHubAnalyzer.has_src st = true <-> AnalyzerSpec.has_dir ["src"] contents).
    { rewrite Hs. split; [intros [H | H]; [discriminate | exact H] | by right]. }
    rewrite <- Hs'.
    destruct (1 <? size (GitHubAnalyzer.detected_frameworks st))%nat eqn:El.
    + apply Nat.ltb_lt in El.
      split; [by split|]. split; [split; [discriminate | lia]|].
      split; [by repeat constructor|]. split; [reflexivity | exact Ei].
    + apply Nat.ltb_ge in El.
      split; [split; [by destruct (_ && _) | lia]|].
      destruct (GitHubAnalyzer.has_src st), (GitHubAnalyzer.has_tests st),
        (GitHubAnalyzer.has_docs st); cbn;
        (split; [split; [try discriminate; by intros _ | try (by intros _);
                         try (by intros (_ & ? & ? & ?))]|]);
        (split; [by repeat constructor|]); (split; [reflexivity | exact Ei]).
  - assert (name = "primary_lower") as ->.
    { revert Ei. unfold GitHubAnalyzer.infer_primary_functionality. cbv zeta.
      repeat match goal with
             | |- context [if ?b then _ else _] => destruct b
             end;
        intros H; try discriminate; by injection H as <-. }
    by split.
Qed.

(** X30.  One file is enough for "Microservices": [wsgi.py] is a hint of
    both django and flask, so a listing with a top-level file whose path
    contains it (in any case) always gets an analysis, with both frameworks
    detected and the architecture pattern "Microservices", whatever else the
    repository holds. *)
Theorem wsgi_file_means_microservices :
  forall (contents : list GitHubAnalyzer.ContentItem)
         (language description : option string) (item : GitHubAnalyzer.ContentItem),
    item ∈ contents ->
    GitHubAnalyzer.item_type item <> "dir" ->
    Text.contains "wsgi.py" (Text.lower (GitHubAnalyzer.item_path item)) = true ->
    exists frameworks primary_language has_tests has_documentation functionality,
      GitHubAnalyzer.analyze_codebase
        (GitHubAnalyzer.mkRepo (inr contents) language description)
      = (GitHubAnalyzer.Analysis "Microservices" frameworks primary_language
           has_tests has_documentation functionality, [])
      /\ "django" ∈ frameworks /\ "flask" ∈ frameworks.
Proof.
  intros contents language description item Hi Ht Hc.
  unfold GitHubAnalyzer.analyze_codebase.
  cbn [GitHubAnalyzer.repo_contents GitHubAnalyzer.repo_language
       GitHubAnalyzer.repo_description]. cbv zeta.
  destruct (layout_scan_spec contents (GitHubAnalyzer.mkLayout ∅ false false false))
    as (Hd & _).
  remember (fold_left GitHubAnalyzer.layout_step contents
              (GitHubAnalyzer.mkLayout ∅ false false false)) as st eqn:Est.
  clear Est.
  assert (Hdj : "django" ∈ GitHubAnalyzer.detected_frameworks st).
  { apply Hd. right. exists item, ["manage.py"; "wsgi.py"], "wsgi.py".
    repeat split; try assumption; [|by repeat constructor].
    unfold GitHubAnalyzer.framework_hints. by repeat constructor. }
  assert (Hfl : "flask" ∈ GitHubAnalyzer.detected_frameworks st).
  { apply Hd. right. exists item, ["app.py"; "application.py"; "wsgi.py"], "wsgi.py".
    repeat split; try assumption; [|by repeat constructor].
    unfold GitHubAnalyzer.framework_hints. by repeat constructor. }
  rewrite (two_frameworks_size _ "django" "flask") by (discriminate || assumption).
  destruct (GitHubAnalyzer.infer_primary_functionality description _ _)
    as [functionality | name] eqn:Ei.
  - by eexists _, _, _, _, _.
  - exfalso. assert (name = "primary_lower") as ->.
    { revert Ei. unfold GitHubAnalyzer.infer_primary_functionality. cbv zeta.
      repeat match goal with
             | |- context [if ?b then _ else _] => destruct b
             end;
        intros H; try discriminate; by injection H as <-. }
    apply infer_name_error in Ei as [_ Hno].
    apply (Hno "django"); [|exact Hdj].
    unfold AnalyzerSpec.ruled_frameworks. by repeat constructor.
Qed.

Lemma wsgi_file_means_microservices_witness :
  exists frameworks primary_language has_tests has_documentation functionality,
    GitHubAnalyzer.analyze_codebase
      (GitHubAnalyzer.mkRepo
         (inr [GitHubAnalyzer.mkContentItem "file" "wsgi.py" "wsgi.py"])
         (Some "Python") None)
    = (GitHubAnalyzer.Analysis "Microservices" frameworks primary_language
         has_tests has_documentation functionality, [])
    /\ "django" ∈ frameworks /\ "flask" ∈ frameworks.
Proof.
  apply (wsgi_file_means_microservices
           [GitHubAnalyzer.mkContentItem "file" "wsgi.py" "wsgi.py"]
           (Some "Python") None
           (GitHubAnalyzer.mkContentItem "file" "wsgi.py" "wsgi.py")).
  - by left.
  - discriminate.
  - vm_compute. reflexivity.
Defined.
